(** * Keyboard matrix scanning: ghosting, debouncing and polling

    A shallow embedding of [drivers/input/input_kbd_matrix.c] and the
    properties of its scan / debounce / ghosting state machine.

    Conventions of the embedding:
    - a C [uint8_t] or [uint32_t] is a [Z] with the wrap-around written out
      ([uint8], [uint32]); bit operations are [Z.land], [Z.lor], [Z.lxor],
      [Z.lnot] and [Z.shiftl];
    - the per-column and per-key arrays are [list Z], read with [!!!] and
      written with [<[i:=v]>]; loop counters ([int c], [int r]) are [nat];
      an access out of range is undefined in C (here a read gives the
      default and a write does nothing), and the properties that depend on
      the contents of the arrays assume them well formed ([kbd_matrix_wf]);
    - the hardware and the kernel are an abstract world [W] that every
      driver call threads through; the reports handed to the input
      subsystem are collected in a list. *)

From Stdlib Require Import ZArith Lia List Bool.
From stdpp Require Import base numbers list sorting.

Local Open Scope Z_scope.

(** ** Machine integers *)

Definition uint8 (x : Z) : Z := x mod 256.
Definition uint32 (x : Z) : Z := x mod 4294967296.

(** [BIT(n)] is [1UL << n]. *)
Definition BIT (n : nat) : Z := Z.shiftl 1 (Z.of_nat n).

Definition INPUT_KBD_MATRIX_ROW_MASK : Z := 255.
Definition USEC_PER_MSEC : Z := 1000.

(** ** Configuration and device memory *)

Record input_kbd_matrix_common_config := {
  row_size : nat;
  col_size : nat;
  poll_period_us : Z;
  poll_timeout_ms : Z;
  debounce_down_ms : Z;
  debounce_up_ms : Z;
  settle_time_us : Z;
  ghostkey_check : bool;
}.

(** The arrays the configuration points to and the fields of
    [input_kbd_matrix_common_data] that the scanning code touches. *)
Record kbd_matrix := {
  matrix_new_state : list Z;
  matrix_previous_state : list Z;
  matrix_unstable_state : list Z;
  matrix_stable_state : list Z;
  scan_cycle_idx : list Z;
  scan_clk_cycle : list Z;
  scan_cycles_idx : Z;
}.

Definition set_new_state (v : list Z) (m : kbd_matrix) : kbd_matrix :=
  {| matrix_new_state := v;
     matrix_previous_state := matrix_previous_state m;
     matrix_unstable_state := matrix_unstable_state m;
     matrix_stable_state := matrix_stable_state m;
     scan_cycle_idx := scan_cycle_idx m;
     scan_clk_cycle := scan_clk_cycle m;
     scan_cycles_idx := scan_cycles_idx m |}.

Definition set_previous_state (v : list Z) (m : kbd_matrix) : kbd_matrix :=
  {| matrix_new_state := matrix_new_state m;
     matrix_previous_state := v;
     matrix_unstable_state := matrix_unstable_state m;
     matrix_stable_state := matrix_stable_state m;
     scan_cycle_idx := scan_cycle_idx m;
     scan_clk_cycle := scan_clk_cycle m;
     scan_cycles_idx := scan_cycles_idx m |}.

Definition set_unstable_state (v : list Z) (m : kbd_matrix) : kbd_matrix :=
  {| matrix_new_state := matrix_new_state m;
     matrix_previous_state := matrix_previous_state m;
     matrix_unstable_state := v;
     matrix_stable_state := matrix_stable_state m;
     scan_cycle_idx := scan_cycle_idx m;
     scan_clk_cycle := scan_clk_cycle m;
     scan_cycles_idx := scan_cycles_idx m |}.

Definition set_stable_state (v : list Z) (m : kbd_matrix) : kbd_matrix :=
  {| matrix_new_state := matrix_new_state m;
     matrix_previous_state := matrix_previous_state m;
     matrix_unstable_state := matrix_unstable_state m;
     matrix_stable_state := v;
     scan_cycle_idx := scan_cycle_idx m;
     scan_clk_cycle := scan_clk_cycle m;
     scan_cycles_idx := scan_cycles_idx m |}.

Definition set_scan_cycle_idx (v : list Z) (m : kbd_matrix) : kbd_matrix :=
  {| matrix_new_state := matrix_new_state m;
     matrix_previous_state := matrix_previous_state m;
     matrix_unstable_state := matrix_unstable_state m;
     matrix_stable_state := matrix_stable_state m;
     scan_cycle_idx := v;
     scan_clk_cycle := scan_clk_cycle m;
     scan_cycles_idx := scan_cycles_idx m |}.

Definition set_scan_clk_cycle (v : list Z) (m : kbd_matrix) : kbd_matrix :=
  {| matrix_new_state := matrix_new_state m;
     matrix_previous_state := matrix_previous_state m;
     matrix_unstable_state := matrix_unstable_state m;
     matrix_stable_state := matrix_stable_state m;
     scan_cycle_idx := scan_cycle_idx m;
     scan_clk_cycle := v;
     scan_cycles_idx := scan_cycles_idx m |}.

Definition set_scan_cycles_idx (v : Z) (m : kbd_matrix) : kbd_matrix :=
  {| matrix_new_state := matrix_new_state m;
     matrix_previous_state := matrix_previous_state m;
     matrix_unstable_state := matrix_unstable_state m;
     matrix_stable_state := matrix_stable_state m;
     scan_cycle_idx := scan_cycle_idx m;
     scan_clk_cycle := scan_clk_cycle m;
     scan_cycles_idx := v |}.

(** ** Reports to the input subsystem *)

Inductive input_code := INPUT_ABS_X | INPUT_ABS_Y | INPUT_BTN_TOUCH.

Inductive input_report :=
| report_abs (code : input_code) (value : Z) (sync : bool)
| report_key (code : input_code) (value : Z) (sync : bool).

(** The three reports of lines 181-183: column, row, then the key level with
    the sync flag. *)
Definition report_transition (c r : nat) (row_bit : Z) : list input_report :=
  [ report_abs INPUT_ABS_X (Z.of_nat c) false;
    report_abs INPUT_ABS_Y (Z.of_nat r) false;
    report_key INPUT_BTN_TOUCH row_bit true ].

(** ** Ghosting detector *)

(** A [for] loop whose body may [return]: the first iteration that returns
    decides. *)
Fixpoint first_some {A B : Type} (f : A → option B) (l : list A) : option B :=
  match l with
  | [] => None
  | x :: l' => match f x with
               | Some y => Some y
               | None => first_some f l'
               end
  end.

(** Lines 63-65: the test on one pair of columns. *)
Definition common_row_bits (state : list Z) (c c_next : nat) : Z :=
  uint8 (Z.land (state !!! c) (state !!! c_next)).

Definition ghosting_block (state : list Z) (c c_next : nat) : bool :=
  negb (Z.land (common_row_bits state c c_next)
               (common_row_bits state c c_next - 1) =? 0).

(** The inner loop over [c_next], lines 53-68. *)
Definition ghosting_inner (ncol : nat) (state : list Z) (c : nat)
  : option (nat * nat) :=
  first_some
    (λ c_next, if ghosting_block state c c_next then Some (c, c_next) else None)
    (seq (S c) (ncol - S c)).

(** The outer loop, lines 48-69, returning the pair of columns at which
    [return true] is executed, if it is. *)
Definition ghosting_at (cfg : input_kbd_matrix_common_config) (state : list Z)
  : option (nat * nat) :=
  first_some
    (λ c, if state !!! c =? 0 then None
          else ghosting_inner (col_size cfg) state c)
    (seq 0 (col_size cfg)).

Definition input_kbd_matrix_ghosting (cfg : input_kbd_matrix_common_config)
    (m : kbd_matrix) : bool :=
  match ghosting_at cfg (matrix_new_state m) with
  | Some _ => true
  | None => false
  end.

(** The same search without the [if (!state[c]) continue;] of lines 49-51. *)
Definition ghosting_at_noskip (cfg : input_kbd_matrix_common_config)
    (state : list Z) : option (nat * nat) :=
  first_some (ghosting_inner (col_size cfg) state) (seq 0 (col_size cfg)).

(** ** The driver over an abstract hardware and kernel *)

(** Column selector of [drive_column]: a column index or one of the two
    sentinels of the header. *)
Inductive column_drive :=
| DRIVE_COLUMN (col : nat)
| INPUT_KBD_MATRIX_COLUMN_DRIVE_NONE
| INPUT_KBD_MATRIX_COLUMN_DRIVE_ALL.

(** [struct input_kbd_matrix_api]: the callbacks of the hardware driver,
    acting on the world [W]. *)
Record input_kbd_matrix_api (W : Type) := {
  drive_column : column_drive → W → W;
  read_row : W → Z * W;
  set_detect_mode : bool → W → W;
}.
Arguments drive_column {W} _ _ _.
Arguments read_row {W} _ _.
Arguments set_detect_mode {W} _ _ _.

Section Driver.

Context {W T : Type}.

(** Kernel services and the ring capacity of the header, which the file
    uses and does not define. [T] is [k_timepoint_t]; [sys_timepoint_calc]
    takes the timeout in milliseconds (the argument of [K_MSEC]). *)
Variable api : input_kbd_matrix_api W.
Variable k_busy_wait : Z → W → W.
Variable k_cycle_get_32 : W → Z * W.
Variable k_cyc_to_us_floor32 : Z → Z.
Variable k_usleep : Z → W → W.
Variable sys_timepoint_calc : Z → W → T * W.
Variable sys_timepoint_expired : T → W → bool * W.
Variable INPUT_KBD_MATRIX_SCAN_OCURRENCES : Z.

Variable cfg : input_kbd_matrix_common_config.

(** *** Raw scanner, lines 74-95 *)

(** One iteration of the loop of lines 81-90; the state is the world, the
    snapshot being written and [key_event]. *)
Definition scan_column (s : W * list Z * Z) (col : nat) : W * list Z * Z :=
  let '(w, new_state, key_event) := s in
  let w := drive_column api (DRIVE_COLUMN col) w in
  let w := k_busy_wait (settle_time_us cfg) w in
  let '(raw, w) := read_row api w in
  let row := Z.land raw INPUT_KBD_MATRIX_ROW_MASK in
  (w, <[col := uint8 row]> new_state, uint8 (Z.lor key_event row)).

Definition input_kbd_matrix_scan (w : W) (m : kbd_matrix)
  : W * kbd_matrix * bool :=
  let '(w, new_state, key_event) :=
    fold_left scan_column (seq 0 (col_size cfg)) (w, matrix_new_state m, 0) in
  let w := drive_column api INPUT_KBD_MATRIX_COLUMN_DRIVE_NONE w in
  (w, set_new_state new_state m, negb (key_event =? 0)).

(** The row masks the hardware answers during one scan started in world
    [w], column [col] first, [n] columns in all: what [read_row] returns
    after the column was driven and the settle time waited, masked. *)
Fixpoint sensed_rows (w : W) (col n : nat) : list Z :=
  match n with
  | O => []
  | S n' =>
      let w := drive_column api (DRIVE_COLUMN col) w in
      let w := k_busy_wait (settle_time_us cfg) w in
      let '(raw, w) := read_row api w in
      Z.land raw INPUT_KBD_MATRIX_ROW_MASK :: sensed_rows w (S col) n'
  end.

(** *** Debounce engine, lines 97-186 *)

(** [uint8_t cyc_idx = c * cfg->row_size + r]. *)
Definition cyc_idx (c r : nat) : nat :=
  Z.to_nat (uint8 (Z.of_nat c * Z.of_nat (row_size cfg) + Z.of_nat r)).

(** Lines 120-130: stamp the ring cursor on every key of column [c] whose
    bit is set in [row_changed]. *)
Definition stamp_key (c : nat) (row_changed : Z) (m : kbd_matrix) (r : nat)
  : kbd_matrix :=
  if Z.land row_changed (BIT r) =? 0 then m
  else set_scan_cycle_idx
         (<[cyc_idx c r := scan_cycles_idx m]> (scan_cycle_idx m)) m.

(** Lines 112-134, one column. *)
Definition gather_column (m : kbd_matrix) (c : nat) : kbd_matrix :=
  let row_changed :=
    uint8 (Z.lxor (matrix_new_state m !!! c) (matrix_previous_state m !!! c)) in
  if row_changed =? 0 then m
  else
    let m := fold_left (stamp_key c row_changed) (seq 0 (row_size cfg)) m in
    let m := set_unstable_state
               (<[c := uint8 (Z.lor (matrix_unstable_state m !!! c) row_changed)]>
                  (matrix_unstable_state m)) m in
    set_previous_state
      (<[c := matrix_new_state m !!! c]> (matrix_previous_state m)) m.

(** Lines 145-146. *)
Definition key_mask (r : nat) : Z := uint8 (BIT r).

Definition key_row_bit (m : kbd_matrix) (c r : nat) : Z :=
  uint8 (Z.land (matrix_new_state m !!! c) (key_mask r)).

(** Lines 153-158: the elapsed time the code computes for key [(c, r)].
    The timestamp read from the ring goes through a [uint8_t] local. *)
Definition key_debt (cycles_now : Z) (m : kbd_matrix) (c r : nat) : Z :=
  let scan_cyc_idx := uint8 (scan_cycle_idx m !!! cyc_idx c r) in
  let scan_clk_cycle := uint8 (scan_clk_cycle m !!! Z.to_nat scan_cyc_idx) in
  uint32 (k_cyc_to_us_floor32 (uint32 (cycles_now - scan_clk_cycle))).

(** Line 161: the threshold picked from the current raw level. *)
Definition key_threshold (row_bit : Z) : Z :=
  if row_bit =? 0 then debounce_up_ms cfg else debounce_down_ms cfg.

(** Lines 144-184, one key of column [c]; [deb_col] was read before the
    loop over the rows. *)
Definition debounce_key (cycles_now : Z) (c : nat) (deb_col : Z)
    (s : kbd_matrix * list input_report) (r : nat)
  : kbd_matrix * list input_report :=
  let '(m, evs) := s in
  let mask := key_mask r in
  let row_bit := key_row_bit m c r in
  if Z.land deb_col mask =? 0 then s
  else if key_debt cycles_now m c r <? key_threshold row_bit then s
  else
    let m := set_unstable_state
               (<[c := uint8 (Z.land (matrix_unstable_state m !!! c)
                                     (Z.lnot row_bit))]>
                  (matrix_unstable_state m)) m in
    if Z.land (matrix_stable_state m !!! c) mask =? row_bit then (m, evs)
    else
      (set_stable_state
         (<[c := uint8 (Z.lxor (matrix_stable_state m !!! c) mask)]>
            (matrix_stable_state m)) m,
       evs ++ report_transition c r row_bit).

(** Lines 136-185, one column. *)
Definition debounce_column (cycles_now : Z)
    (s : kbd_matrix * list input_report) (c : nat)
  : kbd_matrix * list input_report :=
  let deb_col := matrix_unstable_state (fst s) !!! c in
  if deb_col =? 0 then s
  else fold_left (debounce_key cycles_now c deb_col) (seq 0 (row_size cfg)) s.

(** Lines 106-134: the timestamp of the cycle is written at the ring cursor,
    then the first loop runs. *)
Definition gather_changes (cycles_now : Z) (m : kbd_matrix) : kbd_matrix :=
  let m := set_scan_clk_cycle
             (<[Z.to_nat (scan_cycles_idx m) := cycles_now]> (scan_clk_cycle m))
             m in
  fold_left gather_column (seq 0 (col_size cfg)) m.

(** The body of [input_kbd_matrix_update_state] once [cycles_now] is read:
    the first loop, then the second loop of lines 136-185. *)
Definition update_state_at (cycles_now : Z) (m : kbd_matrix)
  : kbd_matrix * list input_report :=
  fold_left (debounce_column cycles_now) (seq 0 (col_size cfg))
            (gather_changes cycles_now m, []).

Definition input_kbd_matrix_update_state (w : W) (m : kbd_matrix)
  : W * kbd_matrix * list input_report :=
  let '(cycles_now, w) := k_cycle_get_32 w in
  let '(m, evs) := update_state_at (uint32 cycles_now) m in
  (w, m, evs).

(** *** One scan cycle, lines 188-216 *)

(** Lines 194-196. *)
Definition next_scan_cycles_idx (idx : Z) : Z :=
  let idx := uint8 (idx + 1) in
  if INPUT_KBD_MATRIX_SCAN_OCURRENCES <=? idx then 0 else idx.

(** Lines 194-199: the cursor is advanced, then the matrix is scanned. *)
Definition advance_and_scan (w : W) (m : kbd_matrix) : W * kbd_matrix * bool :=
  let m := set_scan_cycles_idx (next_scan_cycles_idx (scan_cycles_idx m)) m in
  input_kbd_matrix_scan w m.

Definition input_kbd_matrix_check_key_events (w : W) (m : kbd_matrix)
  : W * kbd_matrix * list input_report * bool :=
  let '(w, m, key_pressed) := advance_and_scan w m in
  if ghostkey_check cfg && input_kbd_matrix_ghosting cfg m
  then (w, m, [], key_pressed)
  else
    let '(w, m, evs) := input_kbd_matrix_update_state w m in
    (w, m, evs, key_pressed).

(** *** Polling loop, lines 218-261 *)

(** Lines 241-256: the sleep of one cycle from the cycles it took. *)
Definition wait_period (cycles_diff : Z) : Z :=
  let wait_period_us :=
    uint32 (poll_period_us cfg - uint32 (k_cyc_to_us_floor32 cycles_diff)) in
  let wait_period_us :=
    if wait_period_us <? USEC_PER_MSEC then USEC_PER_MSEC else wait_period_us in
  if poll_period_us cfg <? wait_period_us then poll_period_us cfg
  else wait_period_us.

(** State of the loop between two iterations. *)
Record poll_state := {
  poll_time_end : T;
  poll_world : W;
  poll_matrix : kbd_matrix;
  poll_reports : list input_report;
}.

(** Lines 227-233: the scan cycle of one iteration, then the decision. The
    result is the state at the decision and whether the loop breaks. *)
Definition poll_decide (s : poll_state) : Z * poll_state * bool * bool :=
  let '(start_period_cycles, w) := k_cycle_get_32 (poll_world s) in
  let '(w, m, evs, key_pressed) :=
    input_kbd_matrix_check_key_events w (poll_matrix s) in
  let reports := poll_reports s ++ evs in
  if key_pressed then
    let '(tp, w) := sys_timepoint_calc (poll_timeout_ms cfg) w in
    (uint32 start_period_cycles,
     {| poll_time_end := tp; poll_world := w; poll_matrix := m;
        poll_reports := reports |}, key_pressed, false)
  else
    let '(expired, w) := sys_timepoint_expired (poll_time_end s) w in
    (uint32 start_period_cycles,
     {| poll_time_end := poll_time_end s; poll_world := w; poll_matrix := m;
        poll_reports := reports |}, key_pressed, expired).

(** The scan cycle of the iteration that starts in [s]: the world in which
    the decision of lines 229-233 is taken, and the activity flag. *)
Definition decision_world (s : poll_state) : W :=
  (input_kbd_matrix_check_key_events
     (k_cycle_get_32 (poll_world s)).2 (poll_matrix s)).1.1.1.

Definition cycle_active (s : poll_state) : bool :=
  (input_kbd_matrix_check_key_events
     (k_cycle_get_32 (poll_world s)).2 (poll_matrix s)).2.

(** Lines 239-259: the sleep that ends an iteration that did not break. *)
Definition poll_sleep (start_period_cycles : Z) (s : poll_state) : poll_state :=
  let '(current_cycles, w) := k_cycle_get_32 (poll_world s) in
  let cycles_diff := uint32 (uint32 current_cycles - start_period_cycles) in
  {| poll_time_end := poll_time_end s;
     poll_world := k_usleep (wait_period cycles_diff) w;
     poll_matrix := poll_matrix s;
     poll_reports := poll_reports s |}.

(** One iteration of [while (true)]: [inl] when it breaks. *)
Definition poll_iteration (s : poll_state) : poll_state + poll_state :=
  let '(start_period_cycles, s', _, brk) := poll_decide s in
  if brk then inl s' else inr (poll_sleep start_period_cycles s').

(** The loop, bounded by [fuel] iterations; [None] when the loop is still
    running after them. *)
Fixpoint poll_loop (fuel : nat) (s : poll_state) : option poll_state :=
  match fuel with
  | O => None
  | S fuel' =>
      match poll_iteration s with
      | inl s' => Some s'
      | inr s' => poll_loop fuel' s'
      end
  end.

(** The first [n] iterations of the loop: [inl] when one of them breaks,
    [inr] with the state reached when none does. *)
Fixpoint poll_iterations (n : nat) (s : poll_state) : poll_state + poll_state :=
  match n with
  | O => inr s
  | S n' =>
      match poll_iteration s with
      | inl s' => inl s'
      | inr s' => poll_iterations n' s'
      end
  end.

Definition input_kbd_matrix_poll (fuel : nat) (w : W) (m : kbd_matrix)
  : option poll_state :=
  let '(tp, w) := sys_timepoint_calc (poll_timeout_ms cfg) w in
  poll_loop fuel {| poll_time_end := tp; poll_world := w; poll_matrix := m;
                    poll_reports := [] |}.

End Driver.

(** ** Time

    What the polling loop needs from the clock behind the kernel calls,
    for a clock [clock] that counts microseconds. *)

Section TimedWorld.

Context {W : Type}.
Variable clock : W → Z.

(** Modelled from the spec: [sys_timepoint_calc] gives the deadline "now +
    timeout" and [sys_timepoint_expired] tells whether "the deadline has
    passed"; a timepoint is a time in microseconds. *)
Record timed_kernel (sys_timepoint_calc : Z → W → Z * W)
    (sys_timepoint_expired : Z → W → bool * W) : Prop := {
  timepoint_calc_now : ∀ ms w,
    sys_timepoint_calc ms w = (clock w + ms * USEC_PER_MSEC, w);
  timepoint_expired_now : ∀ tp w,
    sys_timepoint_expired tp w = (tp <=? clock w, w);
}.

(** The calls of a scan cycle move the clock along [R]: [Z.le] when time
    does not go back, [eq] when they take no time. *)
Record clock_steps (R : Z → Z → Prop) (api : input_kbd_matrix_api W)
    (k_busy_wait : Z → W → W) (k_cycle_get_32 : W → Z * W) : Prop := {
  clock_drive_column : ∀ col w, R (clock w) (clock (drive_column api col w));
  clock_read_row : ∀ w, R (clock w) (clock (read_row api w).2);
  clock_busy_wait : ∀ us w, R (clock w) (clock (k_busy_wait us w));
  clock_cycle_get : ∀ w, R (clock w) (clock (k_cycle_get_32 w).2);
}.

(** A sleep lasts at least what was asked. *)
Definition sleep_at_least (k_usleep : Z → W → W) : Prop :=
  ∀ us w, clock w + us ≤ clock (k_usleep us w).

(** A sleep lasts exactly what was asked. *)
Definition sleep_exactly (k_usleep : Z → W → W) : Prop :=
  ∀ us w, clock (k_usleep us w) = clock w + us.

End TimedWorld.

(** No key is ever sensed. *)
Definition no_key_sensed {W : Type} (api : input_kbd_matrix_api W) : Prop :=
  ∀ w, Z.land (read_row api w).1 INPUT_KBD_MATRIX_ROW_MASK = 0.

(** The part of an iteration that comes before its decision, the read of
    the counter of line 227 and the scan cycle of line 229, takes no more
    than [d], and time does not go back in it. *)
Definition scan_cycle_takes {W : Type} (clock : W → Z)
    (api : input_kbd_matrix_api W) (k_busy_wait : Z → W → W)
    (k_cycle_get_32 : W → Z * W) (k_cyc_to_us_floor32 : Z → Z)
    (INPUT_KBD_MATRIX_SCAN_OCURRENCES : Z)
    (cfg : input_kbd_matrix_common_config) (d : Z) : Prop :=
  ∀ w m,
    let w' := (input_kbd_matrix_check_key_events api k_busy_wait
                 k_cycle_get_32 k_cyc_to_us_floor32
                 INPUT_KBD_MATRIX_SCAN_OCURRENCES cfg
                 (k_cycle_get_32 w).2 m).1.1.1 in
    clock w ≤ clock w' ≤ clock w + d.

(** A read of the counter takes no more than [e], and time does not go
    back in it. *)
Definition counter_read_takes {W : Type} (clock : W → Z)
    (k_cycle_get_32 : W → Z * W) (e : Z) : Prop :=
  ∀ w, clock w ≤ clock (k_cycle_get_32 w).2 ≤ clock w + e.

(** ** An idle board

    The world is the time in microseconds; no key is pressed, only
    sleeping takes time, and the counter runs at one cycle per
    microsecond. *)

Definition idle_api : input_kbd_matrix_api Z :=
  {| drive_column := λ _ w, w;
     read_row := λ w, (0, w);
     set_detect_mode := λ _ w, w |}.

Definition idle_busy_wait (us : Z) (w : Z) : Z := w.
Definition idle_cycle_get_32 (w : Z) : Z * Z := (uint32 w, w).
Definition idle_usleep (us : Z) (w : Z) : Z := w + us.
(** Modelled from the spec: the deadline "now + timeout" and whether "the
    deadline has passed", [sys_timepoint_calc] and [sys_timepoint_expired]. *)
Definition idle_timepoint_calc (ms : Z) (w : Z) : Z * Z :=
  (w + ms * USEC_PER_MSEC, w).
Definition idle_timepoint_expired (tp : Z) (w : Z) : bool * Z := (tp <=? w, w).

(** The same board when the busy wait of the settle time takes the time
    asked. *)
Definition settling_busy_wait (us : Z) (w : Z) : Z := w + us.

(** ** A simulated board

    A concrete world on which the driver runs: a microsecond clock, one
    hardware cycle per microsecond, and a queue of key snapshots, one per
    scan. Used to run the driver on concrete inputs. *)

Record sim_world := {
  sim_now : Z;
  sim_column : column_drive;
  sim_frames : list (list Z);
}.

Definition sim_drive_column (col : column_drive) (w : sim_world) : sim_world :=
  {| sim_now := sim_now w;
     sim_column := col;
     sim_frames := match col with
                   | INPUT_KBD_MATRIX_COLUMN_DRIVE_NONE => tail (sim_frames w)
                   | _ => sim_frames w
                   end |}.

Definition sim_read_row (w : sim_world) : Z * sim_world :=
  (match sim_column w with
   | DRIVE_COLUMN col => nth col (hd [] (sim_frames w)) 0
   | _ => 0
   end, w).

Definition sim_api : input_kbd_matrix_api sim_world :=
  {| drive_column := sim_drive_column;
     read_row := sim_read_row;
     set_detect_mode := λ _ w, w |}.

Definition sim_advance (us : Z) (w : sim_world) : sim_world :=
  {| sim_now := sim_now w + us;
     sim_column := sim_column w;
     sim_frames := sim_frames w |}.

Definition sim_cycle_get_32 (w : sim_world) : Z * sim_world :=
  (uint32 (sim_now w), w).

(** Modelled from the spec: the conversion of hardware cycles to real time
    units, [k_cyc_to_us_floor32], here for a counter that runs at [hz]
    cycles per second. *)
Definition cyc_to_us_floor32 (hz : Z) (cycles : Z) : Z :=
  uint32 (cycles * 1000000 / hz).

(** Modelled from the spec: [sys_timepoint_calc] gives the deadline "now +
    timeout" and [sys_timepoint_expired] tells whether "the deadline has
    passed"; timepoints are in microseconds here. *)
Definition sim_timepoint_calc (ms : Z) (w : sim_world) : Z * sim_world :=
  (sim_now w + ms * USEC_PER_MSEC, w).

Definition sim_timepoint_expired (tp : Z) (w : sim_world) : bool * sim_world :=
  (tp <=? sim_now w, w).

Definition sim_check_key_events (n : Z) (cfg : input_kbd_matrix_common_config) :=
  input_kbd_matrix_check_key_events sim_api sim_advance sim_cycle_get_32
    (cyc_to_us_floor32 1000000) n cfg.

Definition sim_poll (n : Z) (cfg : input_kbd_matrix_common_config) :=
  input_kbd_matrix_poll sim_api sim_advance sim_cycle_get_32
    (cyc_to_us_floor32 1000000) sim_advance sim_timepoint_calc
    sim_timepoint_expired n cfg.

Definition sim_poll_iterations (n : Z) (cfg : input_kbd_matrix_common_config) :=
  poll_iterations sim_api sim_advance sim_cycle_get_32
    (cyc_to_us_floor32 1000000) sim_advance sim_timepoint_calc
    sim_timepoint_expired n cfg.

(** A matrix of [ncol] columns and [nrow] rows with nothing pressed and a
    ring of [n] slots. *)
Definition kbd_matrix_init (ncol nrow n : nat) : kbd_matrix :=
  {| matrix_new_state := replicate ncol 0;
     matrix_previous_state := replicate ncol 0;
     matrix_unstable_state := replicate ncol 0;
     matrix_stable_state := replicate ncol 0;
     scan_cycle_idx := replicate (ncol * nrow) 0;
     scan_clk_cycle := replicate n 0;
     scan_cycles_idx := 0 |}.

(** The arrays have one entry per column, each a [uint8_t]; the per-key
    array has one entry per key. *)
Definition uint8_array (n : nat) (l : list Z) : Prop :=
  length l = n ∧ Forall (λ x, 0 ≤ x < 256) l.

Record kbd_matrix_wf (cfg : input_kbd_matrix_common_config) (m : kbd_matrix)
  : Prop := {
  wf_new_state : uint8_array (col_size cfg) (matrix_new_state m);
  wf_previous_state : uint8_array (col_size cfg) (matrix_previous_state m);
  wf_unstable_state : uint8_array (col_size cfg) (matrix_unstable_state m);
  wf_stable_state : uint8_array (col_size cfg) (matrix_stable_state m);
}.

(** ** Sample boards *)

(** One key, polled every 5 ms, both debounce thresholds at 10000: ten
    milliseconds in the microseconds of the elapsed time the thresholds are
    compared with. *)
Definition sample_cfg_1x1 : input_kbd_matrix_common_config :=
  {| row_size := 1; col_size := 1;
     poll_period_us := 5000; poll_timeout_ms := 100;
     debounce_down_ms := 10000; debounce_up_ms := 10000;
     settle_time_us := 50; ghostkey_check := true |}.

(** The same with a poll period of half a millisecond. *)
Definition sample_cfg_fast : input_kbd_matrix_common_config :=
  {| row_size := 1; col_size := 1;
     poll_period_us := 500; poll_timeout_ms := 100;
     debounce_down_ms := 10000; debounce_up_ms := 10000;
     settle_time_us := 50; ghostkey_check := true |}.

(** One key, polled every millisecond, a settle time of 300 microseconds
    and an idle timeout of 3 ms. *)
Definition sample_cfg_settle : input_kbd_matrix_common_config :=
  {| row_size := 1; col_size := 1;
     poll_period_us := 1000; poll_timeout_ms := 3;
     debounce_down_ms := 10000; debounce_up_ms := 10000;
     settle_time_us := 300; ghostkey_check := true |}.

(** The polling function on the idle board whose settle time takes time. *)
Definition settling_poll (cfg : input_kbd_matrix_common_config) :=
  input_kbd_matrix_poll idle_api settling_busy_wait idle_cycle_get_32
    (cyc_to_us_floor32 1000000) idle_usleep idle_timepoint_calc
    idle_timepoint_expired 30 cfg.

(** Two columns of two rows, ghosting check enabled. *)
Definition sample_cfg_2x2 : input_kbd_matrix_common_config :=
  {| row_size := 2; col_size := 2;
     poll_period_us := 5000; poll_timeout_ms := 100;
     debounce_down_ms := 10000; debounce_up_ms := 10000;
     settle_time_us := 50; ghostkey_check := true |}.

(** The simulated board one second after boot, with the snapshots
    [frames] to come. *)
Definition sim_boot (frames : list (list Z)) : sim_world :=
  {| sim_now := 1000000;
     sim_column := INPUT_KBD_MATRIX_COLUMN_DRIVE_ALL;
     sim_frames := frames |}.

(** The polling loop entered on the simulated board at boot, deadline 100
    ms ahead. *)
Definition sim_poll_start (ncol nrow : nat) (frames : list (list Z))
  : @poll_state sim_world Z :=
  {| poll_time_end := 1100000;
     poll_world := sim_boot frames;
     poll_matrix := kbd_matrix_init ncol nrow 30;
     poll_reports := [] |}.

(** The only key of a one-key matrix was seen pressed in the cycle of slot
    0, stamped at 100 cycles, and is marked unstable since. *)
Definition sample_pressed : kbd_matrix :=
  {| matrix_new_state := [1];
     matrix_previous_state := [1];
     matrix_unstable_state := [1];
     matrix_stable_state := [0];
     scan_cycle_idx := [0];
     scan_clk_cycle := <[0%nat := 100]> (replicate 30 0);
     scan_cycles_idx := 1 |}.

(** The only key of a one-key matrix flickered: it was seen pressed and
    released again, is marked unstable since the cycle of slot 0, stamped
    at 100 cycles, and both its raw and stable levels are released. *)
Definition sample_flicker : kbd_matrix :=
  {| matrix_new_state := [0];
     matrix_previous_state := [0];
     matrix_unstable_state := [1];
     matrix_stable_state := [0];
     scan_cycle_idx := [0];
     scan_clk_cycle := <[0%nat := 100]> (replicate 30 0);
     scan_cycles_idx := 1 |}.

(** The polling loop on the idle board, entered at time 0 with the
    deadline 100 ms ahead. *)
Definition idle_poll_start : @poll_state Z Z :=
  {| poll_time_end := 100000;
     poll_world := 0;
     poll_matrix := kbd_matrix_init 1 1 30;
     poll_reports := [] |}.

(** ** What the second loop decides for a key

    The outcome of lines 144-184 for key [(c, r)], read off the state [m]
    on which the second loop starts. *)

Section Outcome.

Variable k_cyc_to_us_floor32 : Z → Z.
Variable cfg : input_kbd_matrix_common_config.

(** Bit [r] of a row mask. *)
Definition row_level (x : Z) (r : nat) : bool := Z.testbit x (Z.of_nat r).

(** The key is marked unstable: line 149 does not skip it. *)
Definition key_unstable (m : kbd_matrix) (c r : nat) : bool :=
  negb (Z.land (matrix_unstable_state m !!! c) (key_mask r) =? 0).

(** The debounce window of the key closes: line 161 does not skip it. *)
Definition window_closes (cycles_now : Z) (m : kbd_matrix) (c r : nat) : bool :=
  key_unstable m c r &&
  negb (key_debt k_cyc_to_us_floor32 cfg cycles_now m c r
        <? key_threshold cfg (key_row_bit m c r)).

(** The key is confirmed: line 169 does not skip it either. *)
Definition key_confirmed (cycles_now : Z) (m : kbd_matrix) (c r : nat) : bool :=
  window_closes cycles_now m c r &&
  negb (Z.land (matrix_stable_state m !!! c) (key_mask r) =? key_row_bit m c r).

(** The keys confirmed in one cycle, in the order of the two loops, each
    with the level reported for it. *)
Definition confirmed_keys (cycles_now : Z) (m : kbd_matrix)
  : list (nat * nat * Z) :=
  flat_map
    (λ c, flat_map
            (λ r, if key_confirmed cycles_now m c r
                  then [(c, r, key_row_bit m c r)] else [])
            (seq 0 (row_size cfg)))
    (seq 0 (col_size cfg)).

(** The reports of lines 181-183 for one key, one column, and for all the
    keys that come before row [a] of column [c] in the order of the loops. *)
Definition key_reports (cycles_now : Z) (m : kbd_matrix) (c r : nat)
  : list input_report :=
  if key_confirmed cycles_now m c r
  then report_transition c r (key_row_bit m c r) else [].

Definition column_reports (cycles_now : Z) (m : kbd_matrix) (c : nat)
  : list input_report :=
  flat_map (key_reports cycles_now m c) (seq 0 (row_size cfg)).

Definition reports_upto (cycles_now : Z) (m : kbd_matrix) (c a : nat)
  : list input_report :=
  flat_map (column_reports cycles_now m) (seq 0 c)
  ++ flat_map (key_reports cycles_now m c) (seq 0 a).

(** Key [(c', r')] comes before row [a] of column [c]. *)
Definition key_done (c a c' r' : nat) : bool :=
  ((c' <? c)%nat && (r' <? row_size cfg)%nat)
  || ((c' =? c)%nat && (r' <? a)%nat).

(** Invariant of the second loop when it reaches row [a] of column [c],
    having started on [m1]: only the unstable and stable states differ from
    [m1], on the keys already visited, and the reports are those of the
    keys already visited. *)
Record debounce_inv (cycles_now : Z) (m1 : kbd_matrix) (c a : nat)
    (s : kbd_matrix * list input_report) : Prop := {
  inv_new_state : matrix_new_state s.1 = matrix_new_state m1;
  inv_previous_state : matrix_previous_state s.1 = matrix_previous_state m1;
  inv_scan_cycle_idx : scan_cycle_idx s.1 = scan_cycle_idx m1;
  inv_scan_clk_cycle : scan_clk_cycle s.1 = scan_clk_cycle m1;
  inv_scan_cycles_idx : scan_cycles_idx s.1 = scan_cycles_idx m1;
  inv_wf : kbd_matrix_wf cfg s.1;
  inv_stable : ∀ c' r',
    row_level (matrix_stable_state s.1 !!! c') r'
    = xorb (row_level (matrix_stable_state m1 !!! c') r')
           (key_done c a c' r' && key_confirmed cycles_now m1 c' r');
  inv_unstable : ∀ c' r',
    row_level (matrix_unstable_state s.1 !!! c') r'
    = row_level (matrix_unstable_state m1 !!! c') r'
      && negb (key_done c a c' r' && window_closes cycles_now m1 c' r'
               && row_level (matrix_new_state m1 !!! c') r');
  inv_reports : s.2 = reports_upto cycles_now m1 c a;
}.

End Outcome.

(** The reports and the transition of a confirmed key. *)
Definition reports_of_keys (l : list (nat * nat * Z)) : list input_report :=
  flat_map (λ k, report_transition k.1.1 k.1.2 k.2) l.

Definition transition_of_key (k : nat * nat * Z) : Z * Z * Z :=
  (Z.of_nat k.1.1, Z.of_nat k.1.2, k.2).

(** The reports that stand for a list of transitions. *)
Definition reports_of_transitions (ts : list (Z * Z * Z)) : list input_report :=
  flat_map (λ t, [ report_abs INPUT_ABS_X t.1.1 false;
                   report_abs INPUT_ABS_Y t.1.2 false;
                   report_key INPUT_BTN_TOUCH t.2 true ]) ts.

(** The transitions of key [(c, r)] among [ts]. *)
Definition transitions_for (c r : nat) (ts : list (Z * Z * Z))
  : list (Z * Z * Z) :=
  List.filter (λ t, (t.1.1 =? Z.of_nat c) && (t.1.2 =? Z.of_nat r)) ts.

(** The value of bit [r] alone. *)
Definition level_bit (b : bool) (r : nat) : Z :=
  if b then 2 ^ Z.of_nat r else 0.

(** The transitions a list of reports stands for: each run of a column
    report, a row report and a key report is one transition (column, row,
    level). *)
Fixpoint transitions_of (evs : list input_report) : list (Z * Z * Z) :=
  match evs with
  | report_abs INPUT_ABS_X c _ :: report_abs INPUT_ABS_Y r _
      :: report_key INPUT_BTN_TOUCH v _ :: rest =>
      (c, r, v) :: transitions_of rest
  | _ => []
  end.

(** [z] has more than one bit set. *)
Definition more_than_one_bit (z : Z) : Prop :=
  ∃ i j, 0 ≤ i < j ∧ Z.testbit z i = true ∧ Z.testbit z j = true.

(** The same on the eight bits of a [uint8_t], by inspection. *)
Definition two_bits_among_8 (z : Z) : bool :=
  existsb (λ i, existsb (λ j, (i <? j) && Z.testbit z i && Z.testbit z j)
                        [0; 1; 2; 3; 4; 5; 6; 7])
          [0; 1; 2; 3; 4; 5; 6; 7].

(** ** The polling thread, lines 263-285 *)

Section Thread.

Context {W T : Type}.
Variable api : input_kbd_matrix_api W.
Variable k_busy_wait : Z → W → W.
Variable k_cycle_get_32 : W → Z * W.
Variable k_cyc_to_us_floor32 : Z → Z.
Variable k_usleep : Z → W → W.
Variable sys_timepoint_calc : Z → W → T * W.
Variable sys_timepoint_expired : T → W → bool * W.
Variable INPUT_KBD_MATRIX_SCAN_OCURRENCES : Z.
Variable cfg : input_kbd_matrix_common_config.

(** The wait of line 277 as the world sees it. *)
Variable wait_poll_lock : W → W.

(** One turn of the [while (true)] of lines 273-284, the polling loop
    bounded by [fuel] iterations. *)
Definition polling_thread_turn (fuel : nat) (w : W) (m : kbd_matrix)
  : option (@poll_state W T) :=
  let w := drive_column api INPUT_KBD_MATRIX_COLUMN_DRIVE_ALL w in
  let w := set_detect_mode api true w in
  let w := wait_poll_lock w in
  let w := set_detect_mode api false w in
  input_kbd_matrix_poll api k_busy_wait k_cycle_get_32 k_cyc_to_us_floor32
    k_usleep sys_timepoint_calc sys_timepoint_expired
    INPUT_KBD_MATRIX_SCAN_OCURRENCES cfg fuel w m.

End Thread.

(** ** A board that records the calls

    The world is the list of the calls made to the hardware and to the
    kernel, oldest first. What the hardware and the clock answer is
    arbitrary: a function of the calls made so far. The reports of lines
    181-183 do not go through the world: an update returns them as a
    list. *)

Inductive hw_call :=
| call_drive_column (col : column_drive)
| call_read_row
| call_set_detect_mode (enabled : bool)
| call_busy_wait (us : Z)
| call_cycle_get_32
| call_timepoint_calc (ms : Z)
| call_timepoint_expired
| call_usleep (us : Z)
| call_wait_poll_lock.

Section CallLog.

Variable rows : list hw_call → Z.
Variable cycles : list hw_call → Z.
Variable expired : list hw_call → bool.

Definition log_api : input_kbd_matrix_api (list hw_call) :=
  {| drive_column := λ col w, w ++ [call_drive_column col];
     read_row := λ w, (rows w, w ++ [call_read_row]);
     set_detect_mode := λ enabled w, w ++ [call_set_detect_mode enabled] |}.

Definition log_busy_wait (us : Z) (w : list hw_call) : list hw_call :=
  w ++ [call_busy_wait us].
Definition log_usleep (us : Z) (w : list hw_call) : list hw_call :=
  w ++ [call_usleep us].
Definition log_cycle_get_32 (w : list hw_call) : Z * list hw_call :=
  (cycles w, w ++ [call_cycle_get_32]).
Definition log_timepoint_calc (ms : Z) (w : list hw_call)
  : unit * list hw_call := (tt, w ++ [call_timepoint_calc ms]).
Definition log_timepoint_expired (tp : unit) (w : list hw_call)
  : bool * list hw_call := (expired w, w ++ [call_timepoint_expired]).
Definition log_wait_poll_lock (w : list hw_call) : list hw_call :=
  w ++ [call_wait_poll_lock].

End CallLog.

(** The calls of one scan: every column driven in turn, the settle time
    waited and the rows read, then no column driven. *)
Definition scan_calls (cfg : input_kbd_matrix_common_config) : list hw_call :=
  flat_map (λ col, [ call_drive_column (DRIVE_COLUMN col);
                     call_busy_wait (settle_time_us cfg);
                     call_read_row ])
           (seq 0 (col_size cfg))
  ++ [call_drive_column INPUT_KBD_MATRIX_COLUMN_DRIVE_NONE].

(** What an iteration of the polling loop that went on did: whether its
    update ran, whether its scan sensed a key, and how long it slept. *)
Record iteration_log := {
  log_updated : bool;
  log_active : bool;
  log_sleep : Z;
}.

(** The calls of an iteration up to its decision: the counter read of line
    227, the scan, and the counter read of line 102 when the update runs. *)
Definition cycle_calls (cfg : input_kbd_matrix_common_config)
    (updated : bool) : list hw_call :=
  call_cycle_get_32
  :: scan_calls cfg ++ (if updated then [call_cycle_get_32] else []).

(** The calls of an iteration that goes on: lines 227-259. *)
Definition iteration_calls (cfg : input_kbd_matrix_common_config)
    (it : iteration_log) : list hw_call :=
  cycle_calls cfg (log_updated it)
  ++ [ if log_active it then call_timepoint_calc (poll_timeout_ms cfg)
       else call_timepoint_expired;
       call_cycle_get_32;
       call_usleep (log_sleep it) ].

(** The calls of the iteration that breaks: lines 227-232. *)
Definition break_calls (cfg : input_kbd_matrix_common_config)
    (updated : bool) : list hw_call :=
  cycle_calls cfg updated ++ [call_timepoint_expired].

(** The calls of a polling loop whose iterations all went on, from line
    221. *)
Definition running_calls (cfg : input_kbd_matrix_common_config)
    (its : list iteration_log) : list hw_call :=
  call_timepoint_calc (poll_timeout_ms cfg)
  :: flat_map (iteration_calls cfg) its.

(** The calls of a polling loop that returned. *)
Definition poll_calls (cfg : input_kbd_matrix_common_config)
    (its : list iteration_log) (updated : bool) : list hw_call :=
  running_calls cfg its ++ break_calls cfg updated.

(** What the polling thread does between two polling loops. *)
Definition thread_prelude : list hw_call :=
  [ call_drive_column INPUT_KBD_MATRIX_COLUMN_DRIVE_ALL;
    call_set_detect_mode true;
    call_wait_poll_lock;
    call_set_detect_mode false ].

(** The calls other than those of the prelude: a drive of one column or of
    none, a read of the rows, a wait, a read of the counter, a timepoint
    call or a sleep. *)
Definition polling_call (c : hw_call) : bool :=
  match c with
  | call_drive_column INPUT_KBD_MATRIX_COLUMN_DRIVE_ALL => false
  | call_set_detect_mode _ => false
  | call_wait_poll_lock => false
  | _ => true
  end.

(** ** The first loop on one key *)

(** The raw level of key [(c, r)] differs from the one of the last scan
    that was folded in. *)
Definition key_changed (m : kbd_matrix) (c r : nat) : bool :=
  xorb (row_level (matrix_new_state m !!! c) r)
       (row_level (matrix_previous_state m !!! c) r).

(** The matrix has at most 256 keys and one stamp index per key. *)
Definition stamps_fit (cfg : input_kbd_matrix_common_config) (m : kbd_matrix)
  : Prop :=
  (col_size cfg * row_size cfg ≤ 256)%nat
  ∧ length (scan_cycle_idx m) = (col_size cfg * row_size cfg)%nat.

(** Order of the two loops on the keys of reported transitions. *)
Definition transition_before (t1 t2 : Z * Z * Z) : Prop :=
  t1.1.1 < t2.1.1 ∨ (t1.1.1 = t2.1.1 ∧ t1.1.2 < t2.1.2).

(** Every row mask of [l1] is contained in the one of [l2]. *)
Definition snapshot_within (l1 l2 : list Z) : Prop :=
  ∀ c r, row_level (l1 !!! c) r = true → row_level (l2 !!! c) r = true.

(** Some key is sensed at every read. *)
Definition key_always_sensed {W : Type} (api : input_kbd_matrix_api W) : Prop :=
  ∀ w, Z.land (read_row api w).1 INPUT_KBD_MATRIX_ROW_MASK ≠ 0.

(** ** More sample boards *)

(** One key, confirmed at once when pressed and after 10000 when
    released. *)
Definition sample_cfg_zero_down : input_kbd_matrix_common_config :=
  {| row_size := 1; col_size := 1;
     poll_period_us := 5000; poll_timeout_ms := 100;
     debounce_down_ms := 0; debounce_up_ms := 10000;
     settle_time_us := 50; ghostkey_check := true |}.

(** The only key of a one-key matrix reads pressed for the first time. *)
Definition sample_changed : kbd_matrix :=
  set_new_state [1] (kbd_matrix_init 1 1 30).

(** The idle board with a key held: every read senses row 0. *)
Definition held_api : input_kbd_matrix_api Z :=
  {| drive_column := λ _ w, w;
     read_row := λ w, (1, w);
     set_detect_mode := λ _ w, w |}.

(** * Properties *)

(** Decides the comparisons [a <? b] of the goal, then arithmetic. *)
Ltac case_ltb :=
  repeat match goal with
         | |- context [?a <? ?b] =>
             lazymatch b with
             | context [if _ then _ else _] => fail
             | _ => destruct (Z.ltb_spec a b)
             end
         end;
  lia.

(** Splits a conjunction of frame conditions into its parts. *)
Ltac split_frame :=
  repeat match goal with
         | |- _ ∧ _ => split
         end.

(** ** Machine integers *)

Lemma uint8_range x : 0 ≤ uint8 x < 256.
Proof. unfold uint8. apply Z.mod_pos_bound. lia. Qed.

Lemma uint32_range x : 0 ≤ uint32 x < 4294967296.
Proof. unfold uint32. apply Z.mod_pos_bound. lia. Qed.

Lemma uint8_small x : 0 ≤ x < 256 → uint8 x = x.
Proof. intros H. unfold uint8. apply Z.mod_small. lia. Qed.

Lemma uint32_small x : 0 ≤ x < 4294967296 → uint32 x = x.
Proof. intros H. unfold uint32. apply Z.mod_small. lia. Qed.

Lemma uint8_testbit x i :
  Z.testbit (uint8 x) i = (i <? 8) && Z.testbit x i.
Proof.
  unfold uint8. change 256 with (2 ^ 8).
  destruct (Z.ltb_spec i 8) as [Hlt | Hge]; simpl.
  - destruct (Z.ltb_spec i 0) as [Hneg | Hpos].
    + now rewrite !Z.testbit_neg_r.
    + apply Z.mod_pow2_bits_low. lia.
  - apply Z.mod_pow2_bits_high. lia.
Qed.

Lemma two_bits_among_8_spec z :
  0 ≤ z < 256 → two_bits_among_8 z = true ↔ more_than_one_bit z.
Proof.
  intros Hz. unfold two_bits_among_8, more_than_one_bit. split.
  - intros H. apply existsb_exists in H as (i & _ & H).
    apply existsb_exists in H as (j & _ & H).
    apply andb_true_iff in H as [H Hj]. apply andb_true_iff in H as [Hij Hi].
    exists i, j. apply Z.ltb_lt in Hij.
    destruct (Z.ltb_spec i 0) as [Hneg | Hpos];
      [ now rewrite Z.testbit_neg_r in Hi | auto with lia ].
  - intros (i & j & Hij & Hi & Hj).
    assert (Hhigh : ∀ k, 8 ≤ k → Z.testbit z k = false).
    { intros k Hk. rewrite <- (uint8_small z Hz), uint8_testbit.
      destruct (Z.ltb_spec k 8); [lia | reflexivity]. }
    assert (Hj8 : j < 8).
    { destruct (Z.ltb_spec j 8) as [|Hge]; [assumption|].
      rewrite (Hhigh j Hge) in Hj. discriminate. }
    assert (Hin : ∀ k, 0 ≤ k < 8 → In k [0; 1; 2; 3; 4; 5; 6; 7]).
    { intros k Hk. simpl. lia. }
    apply existsb_exists. exists i. split; [apply Hin; lia|].
    apply existsb_exists. exists j. split; [apply Hin; lia|].
    rewrite Hi, Hj, andb_true_r, andb_true_r. apply Z.ltb_lt. lia.
Qed.

(** On a [uint8_t], [z & (z - 1)] is non-zero exactly when two of the eight
    bits are set: checked on the 256 values. *)
Lemma land_pred_two_bits z :
  0 ≤ z < 256 → negb (Z.land z (z - 1) =? 0) = two_bits_among_8 z.
Proof.
  intros Hz.
  assert (Hall : forallb (λ n, Bool.eqb (negb (Z.land (Z.of_nat n) (Z.of_nat n - 1) =? 0))
                                        (two_bits_among_8 (Z.of_nat n)))
                         (seq 0 256) = true) by (vm_compute; reflexivity).
  rewrite forallb_forall in Hall.
  specialize (Hall (Z.to_nat z)).
  rewrite Z2Nat.id in Hall by lia.
  apply Bool.eqb_prop, Hall, in_seq. lia.
Qed.

(** ** Loops with an early return *)

Lemma first_some_seq_None {B} (f : nat → option B) a n :
  first_some f (seq a n) = None ↔ ∀ x, (a ≤ x < a + n)%nat → f x = None.
Proof.
  revert a. induction n as [|n IH]; intros a; simpl.
  - split; [intros _ x Hx; lia | reflexivity].
  - destruct (f a) eqn:Hfa.
    + split; [discriminate|]. intros H. rewrite <- Hfa. apply H. lia.
    + rewrite IH. split; intros H x Hx.
      * destruct (decide (x = a)) as [-> | Hne]; [assumption | apply H; lia].
      * apply H. lia.
Qed.

Lemma first_some_seq_Some {B} (f : nat → option B) a n y :
  first_some f (seq a n) = Some y →
  ∃ x, (a ≤ x < a + n)%nat ∧ f x = Some y ∧
       ∀ x', (a ≤ x' < x)%nat → f x' = None.
Proof.
  revert a. induction n as [|n IH]; intros a; simpl; [discriminate|].
  destruct (f a) eqn:Hfa.
  - intros [= ->]. exists a. split; [lia|]. split; [assumption|]. intros; lia.
  - intros H. destruct (IH _ H) as (x & Hx & Hfx & Hbefore).
    exists x. split; [lia|]. split; [assumption|].
    intros x' Hx'. destruct (decide (x' = a)) as [-> | Hne];
      [assumption | apply Hbefore; lia].
Qed.

Lemma first_some_ext {A B} (f g : A → option B) l :
  (∀ x, In x l → f x = g x) → first_some f l = first_some g l.
Proof.
  induction l as [|x l IH]; simpl; intros H; [reflexivity|].
  rewrite (H x) by auto. destruct (g x); [reflexivity|]. apply IH. auto.
Qed.

(** ** Ghosting detector *)

Lemma common_row_bits_range state c c_next :
  0 ≤ common_row_bits state c c_next < 256.
Proof. apply uint8_range. Qed.

Lemma ghosting_block_zero state c c_next :
  state !!! c = 0 → ghosting_block state c c_next = false.
Proof.
  intros H. unfold ghosting_block, common_row_bits. rewrite H. reflexivity.
Qed.

Lemma ghosting_inner_None ncol state c :
  ghosting_inner ncol state c = None ↔
  ∀ c_next, (c < c_next < ncol)%nat → ghosting_block state c c_next = false.
Proof.
  unfold ghosting_inner. rewrite first_some_seq_None. split; intros H x Hx.
  - specialize (H x). destruct (ghosting_block state c x);
      [discriminate H; lia | reflexivity].
  - rewrite H by lia. reflexivity.
Qed.

Lemma ghosting_inner_Some ncol state c p :
  ghosting_inner ncol state c = Some p →
  ∃ c_next, p = (c, c_next) ∧ (c < c_next < ncol)%nat ∧
            ghosting_block state c c_next = true ∧
            ∀ c', (c < c' < c_next)%nat → ghosting_block state c c' = false.
Proof.
  unfold ghosting_inner. intros H.
  apply first_some_seq_Some in H as (x & Hx & Hfx & Hbefore).
  exists x. destruct (ghosting_block state c x) eqn:Hb; [|discriminate].
  injection Hfx as <-. split; [reflexivity|]. split; [lia|].
  split; [reflexivity|]. intros c' Hc'. specialize (Hbefore c').
  destruct (ghosting_block state c c'); [discriminate Hbefore; lia | reflexivity].
Qed.

Lemma ghosting_at_noskip_eq cfg state :
  ghosting_at_noskip cfg state = ghosting_at cfg state.
Proof.
  unfold ghosting_at_noskip, ghosting_at. apply first_some_ext. intros c _.
  destruct (Z.eqb_spec (state !!! c) 0) as [H0 | _]; [|reflexivity].
  apply ghosting_inner_None. intros c_next _. now apply ghosting_block_zero.
Qed.

Lemma ghosting_at_Some cfg state c c_next :
  ghosting_at cfg state = Some (c, c_next) →
  (c < c_next < col_size cfg)%nat ∧ ghosting_block state c c_next = true ∧
  ∀ c' c_next', (c' < c_next' < col_size cfg)%nat →
                ghosting_block state c' c_next' = true →
                (c < c')%nat ∨ (c = c' ∧ (c_next ≤ c_next')%nat).
Proof.
  rewrite <- ghosting_at_noskip_eq. unfold ghosting_at_noskip. intros H.
  apply first_some_seq_Some in H as (x & Hx & Hfx & Hbefore).
  apply ghosting_inner_Some in Hfx as (cn & [= -> ->] & Hcn & Hblock & Hfirst).
  split; [lia|]. split; [assumption|].
  intros c' cn' Hc' Hb'.
  destruct (lt_eq_lt_dec c' x) as [[Hlt | ->] | Hgt]; [| |left; lia].
  - specialize (Hbefore c' ltac:(lia)).
    rewrite ghosting_inner_None in Hbefore. rewrite Hbefore in Hb' by lia.
    discriminate.
  - right. split; [reflexivity|].
    destruct (le_lt_dec cn cn') as [|Hlt]; [assumption|].
    rewrite Hfirst in Hb' by lia. discriminate.
Qed.

Lemma ghosting_at_None cfg state :
  ghosting_at cfg state = None ↔
  ∀ c c_next, (c < c_next < col_size cfg)%nat →
              ghosting_block state c c_next = false.
Proof.
  rewrite <- ghosting_at_noskip_eq. unfold ghosting_at_noskip.
  rewrite first_some_seq_None. split.
  - intros H c cn Hc. specialize (H c ltac:(lia)).
    rewrite ghosting_inner_None in H. apply H. lia.
  - intros H c Hc. apply ghosting_inner_None. intros cn Hcn. apply H. lia.
Qed.

Lemma ghosting_block_true state c c_next :
  ghosting_block state c c_next = true ↔
  Z.land (common_row_bits state c c_next)
         (common_row_bits state c c_next - 1) ≠ 0.
Proof.
  unfold ghosting_block. rewrite negb_true_iff, Z.eqb_neq. reflexivity.
Qed.


(** Three keys of a block in columns 0 and 2 are found at that pair; keys
    that share one row only, or no column pair, are not ghosting. *)
Example ghosting_block_found :
  ghosting_at sample_cfg_2x2 [3; 3] = Some (0%nat, 1%nat)
  ∧ ghosting_at {| row_size := 2; col_size := 3; poll_period_us := 5000;
                   poll_timeout_ms := 100; debounce_down_ms := 10000;
                   debounce_up_ms := 10000; settle_time_us := 50;
                   ghostkey_check := true |} [3; 0; 3]
    = Some (0%nat, 2%nat)
  ∧ ghosting_at sample_cfg_2x2 [1; 3] = None
  ∧ ghosting_at sample_cfg_2x2 [1; 2] = None.
Proof. repeat split. Qed.

(** ** Raw scanner *)

Section ScanProperties.

Context {W : Type}.
Variable api : input_kbd_matrix_api W.
Variable k_busy_wait : Z → W → W.
Variable cfg : input_kbd_matrix_common_config.

Lemma sensed_rows_length w col n :
  length (sensed_rows api k_busy_wait cfg w col n) = n.
Proof.
  revert w col. induction n as [|n IH]; intros w col; simpl; [reflexivity|].
  destruct (read_row api _) as [raw w']. simpl. now rewrite IH.
Qed.

Lemma sensed_rows_range w col n :
  Forall (λ x, 0 ≤ x < 256) (sensed_rows api k_busy_wait cfg w col n).
Proof.
  revert w col. induction n as [|n IH]; intros w col; simpl; [constructor|].
  destruct (read_row api _) as [raw w']. constructor; [|apply IH].
  unfold INPUT_KBD_MATRIX_ROW_MASK. change 255 with (Z.ones 8).
  rewrite Z.land_ones by lia. apply Z.mod_pos_bound. lia.
Qed.

Lemma lor_uint8 a b : 0 ≤ a < 256 → 0 ≤ b < 256 → 0 ≤ Z.lor a b < 256.
Proof.
  intros Ha Hb. split; [apply Z.lor_nonneg; lia|].
  destruct (Z.eq_dec (Z.lor a b) 0) as [-> | Hne]; [lia|].
  apply Z.log2_lt_pow2 with (b := 8); [|].
  - assert (0 ≤ Z.lor a b) by (apply Z.lor_nonneg; lia). lia.
  - rewrite Z.log2_lor by lia.
    destruct (Z.eq_dec a 0) as [-> | Ha0], (Z.eq_dec b 0) as [-> | Hb0];
      simpl; try lia.
    + apply Z.max_lub_lt; [simpl; lia|]. apply Z.log2_lt_pow2; lia.
    + apply Z.max_lub_lt; [|simpl; lia]. apply Z.log2_lt_pow2; lia.
    + apply Z.max_lub_lt; apply Z.log2_lt_pow2; lia.
Qed.

Lemma fold_lor_range l a :
  0 ≤ a < 256 → Forall (λ x, 0 ≤ x < 256) l → 0 ≤ fold_left Z.lor l a < 256.
Proof.
  revert a. induction l as [|x l IH]; intros a Ha Hl; simpl; [assumption|].
  inversion Hl; subst. apply IH; [now apply lor_uint8 | assumption].
Qed.

(** The loop of lines 81-90 from column [col] on, [n] columns: it writes
    the sensed masks over the entries [col .. col + n - 1] and accumulates
    their OR. *)
Lemma scan_columns_spec n : ∀ col w new_state key_event,
  length new_state = (col + n)%nat → 0 ≤ key_event < 256 →
  ∃ w', fold_left (scan_column api k_busy_wait cfg) (seq col n)
                  (w, new_state, key_event)
        = (w', take col new_state ++ sensed_rows api k_busy_wait cfg w col n,
           fold_left Z.lor (sensed_rows api k_busy_wait cfg w col n) key_event).
Proof.
  induction n as [|n IH]; intros col w ns ke Hlen Hke; simpl.
  - exists w. rewrite take_ge by lia. now rewrite app_nil_r.
  - destruct (read_row api _) as [raw w1] eqn:Hread.
    set (row := Z.land raw INPUT_KBD_MATRIX_ROW_MASK).
    assert (Hrow : 0 ≤ row < 256).
    { pose proof (sensed_rows_range w col 1) as H. simpl in H.
      rewrite Hread in H. now inversion H. }
    destruct (IH (S col) w1 (<[col := uint8 row]> ns) (uint8 (Z.lor ke row)))
      as [w' Hw'].
    { rewrite length_insert. lia. }
    { apply uint8_range. }
    exists w'. rewrite Hw'. f_equal; [f_equal|].
    + rewrite (uint8_small row) by assumption.
      rewrite (take_S_r _ _ row) by (apply list_lookup_insert_eq; lia).
      rewrite take_insert_ge by lia. now rewrite <- app_assoc.
    + rewrite (uint8_small (Z.lor ke row)) by now apply lor_uint8.
      reflexivity.
Qed.

Lemma input_kbd_matrix_scan_spec w m :
  length (matrix_new_state m) = col_size cfg →
  ∃ w', input_kbd_matrix_scan api k_busy_wait cfg w m
        = (w',
           set_new_state (sensed_rows api k_busy_wait cfg w 0 (col_size cfg)) m,
           negb (fold_left Z.lor (sensed_rows api k_busy_wait cfg w 0
                                              (col_size cfg)) 0 =? 0)).
Proof.
  intros Hlen. unfold input_kbd_matrix_scan.
  destruct (scan_columns_spec (col_size cfg) 0 w (matrix_new_state m) 0)
    as [w' Hw']; [assumption | lia |].
  rewrite Hw'. simpl. eexists. reflexivity.
Qed.

(** C7: one scan writes, for every column below [col_size], the row mask
    sensed for it into the new-state snapshot; it answers true exactly when
    the OR of the sensed masks is non-zero; and the previous, unstable and
    stable states, the per-key stamp indices, the timestamp ring and its
    cursor are what they were. *)
Theorem scan_writes_snapshot_only w m :
  length (matrix_new_state m) = col_size cfg →
  let sensed := sensed_rows api k_busy_wait cfg w 0 (col_size cfg) in
  let m' := (input_kbd_matrix_scan api k_busy_wait cfg w m).1.2 in
  let key_event := (input_kbd_matrix_scan api k_busy_wait cfg w m).2 in
  length sensed = col_size cfg
  ∧ (∀ col, (col < col_size cfg)%nat →
            matrix_new_state m' !! col = sensed !! col)
  ∧ matrix_new_state m' = sensed
  ∧ (key_event = true ↔ fold_left Z.lor sensed 0 ≠ 0)
  ∧ matrix_previous_state m' = matrix_previous_state m
  ∧ matrix_unstable_state m' = matrix_unstable_state m
  ∧ matrix_stable_state m' = matrix_stable_state m
  ∧ scan_cycle_idx m' = scan_cycle_idx m
  ∧ scan_clk_cycle m' = scan_clk_cycle m
  ∧ scan_cycles_idx m' = scan_cycles_idx m.
Proof.
  intros Hlen. destruct (input_kbd_matrix_scan_spec w m Hlen) as [w' ->].
  simpl. split; [apply sensed_rows_length|].
  split; [reflexivity|]. split; [reflexivity|].
  split; [|repeat split].
  rewrite negb_true_iff, Z.eqb_neq. reflexivity.
Qed.

End ScanProperties.

(** ** Bits of a row mask *)

Lemma row_level_high x r : 0 ≤ x < 256 → row_level x r = true → (r < 8)%nat.
Proof.
  intros Hx Hr. unfold row_level in Hr.
  rewrite <- (uint8_small x Hx), uint8_testbit in Hr.
  apply andb_true_iff in Hr as [Hr _]. apply Z.ltb_lt in Hr. lia.
Qed.

Lemma key_mask_bits r i :
  Z.testbit (key_mask r) i = (Z.of_nat r <? 8) && (i =? Z.of_nat r).
Proof.
  unfold key_mask, BIT. rewrite uint8_testbit, Z.shiftl_1_l.
  rewrite Z.pow2_bits_eqb by lia.
  destruct (Z.eqb_spec i (Z.of_nat r)) as [-> | Hne].
  - rewrite Z.eqb_refl. now rewrite !andb_true_r.
  - rewrite andb_false_r. destruct (Z.eqb_spec (Z.of_nat r) i); [lia|].
    apply andb_false_r.
Qed.

Lemma level_bit_bits b r i :
  Z.testbit (level_bit b r) i = b && (i =? Z.of_nat r).
Proof.
  unfold level_bit. destruct b; simpl.
  - rewrite Z.pow2_bits_eqb by lia. apply Z.eqb_sym.
  - apply Z.bits_0.
Qed.

Lemma level_bit_inj b b' r : level_bit b r = level_bit b' r → b = b'.
Proof.
  intros H. apply (f_equal (λ z, Z.testbit z (Z.of_nat r))) in H.
  rewrite !level_bit_bits, Z.eqb_refl, !andb_true_r in H. assumption.
Qed.

Lemma level_bit_zero b r : level_bit b r = 0 → b = false.
Proof. intros H. apply (level_bit_inj b false r). assumption. Qed.

Lemma level_bit_range b r : (b = true → (r < 8)%nat) → 0 ≤ level_bit b r < 256.
Proof.
  intros H. unfold level_bit. destruct b; [|lia].
  specialize (H eq_refl). split; [apply Z.pow_nonneg; lia|].
  change 256 with (2 ^ 8). apply Z.pow_lt_mono_r; lia.
Qed.

Lemma land_key_mask x r :
  0 ≤ x < 256 → Z.land x (key_mask r) = level_bit (row_level x r) r.
Proof.
  intros Hx. apply Z.bits_inj'. intros i _.
  rewrite Z.land_spec, key_mask_bits, level_bit_bits.
  destruct (Z.eqb_spec i (Z.of_nat r)) as [-> | Hne];
    [|now rewrite !andb_false_r].
  rewrite !andb_true_r. fold (row_level x r).
  destruct (row_level x r) eqn:Hr; [|reflexivity].
  apply row_level_high in Hr; [|assumption].
  destruct (Z.ltb_spec (Z.of_nat r) 8); [reflexivity | lia].
Qed.

Lemma uint8_array_lookup n l c : uint8_array n l → 0 ≤ l !!! c < 256.
Proof.
  intros [_ Hall]. rewrite list_lookup_total_alt.
  destruct (l !! c) as [x|] eqn:Hlk; simpl.
  - rewrite Forall_lookup in Hall. exact (Hall _ _ Hlk).
  - change (0 ≤ 1 < 256). lia.
Qed.

Lemma uint8_array_insert n l c x :
  uint8_array n l → 0 ≤ x < 256 → uint8_array n (<[c := x]> l).
Proof.
  intros [Hlen Hall] Hx. split; [now rewrite length_insert|].
  now apply Forall_insert.
Qed.

Lemma key_row_bit_level cfg m c r :
  kbd_matrix_wf cfg m →
  key_row_bit m c r = level_bit (row_level (matrix_new_state m !!! c) r) r.
Proof.
  intros Hwf. unfold key_row_bit.
  pose proof (uint8_array_lookup _ _ c (wf_new_state _ _ Hwf)) as Hx.
  rewrite land_key_mask by assumption. apply uint8_small, level_bit_range.
  intros Hr. now apply row_level_high in Hr.
Qed.

Lemma key_unstable_level cfg m c r :
  kbd_matrix_wf cfg m →
  key_unstable m c r = row_level (matrix_unstable_state m !!! c) r.
Proof.
  intros Hwf. unfold key_unstable.
  rewrite land_key_mask by apply (uint8_array_lookup _ _ c (wf_unstable_state _ _ Hwf)).
  destruct (row_level _ r) eqn:Hr; unfold level_bit; simpl; [|reflexivity].
  assert (0 < 2 ^ Z.of_nat r) by (apply Z.pow_pos_nonneg; lia).
  destruct (Z.eqb_spec (2 ^ Z.of_nat r) 0); [lia | reflexivity].
Qed.

(** Line 166 on the bits: [unstable &= ~row_bit] clears bit [r] when the
    raw level is pressed and nothing when it is released. *)
Lemma unstable_clear_bits u b r i :
  0 ≤ u < 256 →
  row_level (uint8 (Z.land u (Z.lnot (level_bit b r)))) i
  = row_level u i && negb (b && (i =? r)%nat).
Proof.
  intros Hu. unfold row_level.
  rewrite uint8_testbit, Z.land_spec, Z.lnot_spec, level_bit_bits by lia.
  fold (row_level u i).
  replace (Z.of_nat i =? Z.of_nat r) with (i =? r)%nat
    by (destruct (Nat.eqb_spec i r), (Z.eqb_spec (Z.of_nat i) (Z.of_nat r));
        (reflexivity || lia)).
  destruct (row_level u i) eqn:Hi; [|now rewrite andb_false_r].
  apply row_level_high in Hi; [|assumption].
  destruct (Z.ltb_spec (Z.of_nat i) 8); [reflexivity | lia].
Qed.

(** Line 179 on the bits: [stable ^= mask] flips bit [r] and no other. *)
Lemma stable_flip_bits s r i :
  0 ≤ s < 256 → (r < 8)%nat →
  row_level (uint8 (Z.lxor s (key_mask r))) i
  = xorb (row_level s i) (i =? r)%nat.
Proof.
  intros Hs Hr. unfold row_level.
  rewrite uint8_testbit, Z.lxor_spec, key_mask_bits.
  fold (row_level s i).
  replace (Z.of_nat i =? Z.of_nat r) with (i =? r)%nat
    by (destruct (Nat.eqb_spec i r), (Z.eqb_spec (Z.of_nat i) (Z.of_nat r));
        (reflexivity || lia)).
  destruct (Z.ltb_spec (Z.of_nat r) 8); [|lia]. simpl.
  destruct (Nat.eqb_spec i r) as [-> | Hne].
  - destruct (Z.ltb_spec (Z.of_nat r) 8); [reflexivity | lia].
  - rewrite xorb_false_r. destruct (row_level s i) eqn:Hi;
      [|now rewrite andb_false_r].
    apply row_level_high in Hi; [|assumption].
    destruct (Z.ltb_spec (Z.of_nat i) 8); [reflexivity | lia].
Qed.

Lemma row_level_ext x y :
  0 ≤ x → 0 ≤ y → (∀ r, row_level x r = row_level y r) → x = y.
Proof.
  intros Hx Hy H. apply Z.bits_inj'. intros i Hi.
  specialize (H (Z.to_nat i)). unfold row_level in H.
  now rewrite Z2Nat.id in H by assumption.
Qed.

(** ** Debounce engine: the second loop *)

Section DebounceProperties.

Variable k_cyc_to_us_floor32 : Z → Z.
Variable cfg : input_kbd_matrix_common_config.

Lemma key_done_S c a c' r' :
  key_done cfg c (S a) c' r'
  = key_done cfg c a c' r' || ((c' =? c)%nat && (r' =? a)%nat).
Proof.
  unfold key_done.
  destruct (Nat.ltb_spec c' c), (Nat.eqb_spec c' c),
    (Nat.ltb_spec r' (row_size cfg)), (Nat.ltb_spec r' (S a)),
    (Nat.ltb_spec r' a), (Nat.eqb_spec r' a); simpl; try reflexivity; lia.
Qed.

Lemma key_done_self c a : key_done cfg c a c a = false.
Proof.
  unfold key_done. rewrite !Nat.ltb_irrefl. simpl. apply andb_false_r.
Qed.

Lemma key_done_next_column c c' r' :
  key_done cfg (S c) 0 c' r' = key_done cfg c (row_size cfg) c' r'.
Proof.
  unfold key_done.
  destruct (Nat.ltb_spec c' (S c)), (Nat.ltb_spec c' c), (Nat.eqb_spec c' c),
    (Nat.eqb_spec c' (S c)), (Nat.ltb_spec r' (row_size cfg));
    simpl; try reflexivity; lia.
Qed.

Lemma reports_upto_S cycles_now m c a :
  reports_upto k_cyc_to_us_floor32 cfg cycles_now m c (S a)
  = reports_upto k_cyc_to_us_floor32 cfg cycles_now m c a
    ++ key_reports k_cyc_to_us_floor32 cfg cycles_now m c a.
Proof.
  unfold reports_upto. rewrite seq_S, flat_map_app. simpl.
  now rewrite app_nil_r, app_assoc.
Qed.

Lemma reports_upto_next_column cycles_now m c :
  reports_upto k_cyc_to_us_floor32 cfg cycles_now m (S c) 0
  = reports_upto k_cyc_to_us_floor32 cfg cycles_now m c (row_size cfg).
Proof.
  unfold reports_upto. rewrite seq_S, flat_map_app. simpl.
  now rewrite !app_nil_r.
Qed.

(** A key whose window does not close leaves everything as it is. *)
Lemma debounce_inv_skip cycles_now m1 c a s :
  window_closes k_cyc_to_us_floor32 cfg cycles_now m1 c a = false →
  debounce_inv k_cyc_to_us_floor32 cfg cycles_now m1 c a s →
  debounce_inv k_cyc_to_us_floor32 cfg cycles_now m1 c (S a) s.
Proof.
  intros Hclose [Hn Hp Hi Hk Hx Hwf Hst Hun Hrep].
  assert (Hconf : key_confirmed k_cyc_to_us_floor32 cfg cycles_now m1 c a = false)
    by (unfold key_confirmed; now rewrite Hclose).
  constructor; try assumption.
  - intros c' r'. rewrite Hst, key_done_S.
    destruct (Nat.eqb_spec c' c) as [-> | Hc], (Nat.eqb_spec r' a) as [-> | Hr];
      simpl; rewrite ?orb_false_r; try reflexivity.
    now rewrite Hconf, !andb_false_r.
  - intros c' r'. rewrite Hun, key_done_S.
    destruct (Nat.eqb_spec c' c) as [-> | Hc], (Nat.eqb_spec r' a) as [-> | Hr];
      simpl; rewrite ?orb_false_r; try reflexivity.
    now rewrite Hclose, !andb_false_r.
  - rewrite Hrep, reports_upto_S. unfold key_reports. rewrite Hconf.
    now rewrite app_nil_r.
Qed.

Lemma kbd_matrix_wf_set_unstable m c x :
  kbd_matrix_wf cfg m → 0 ≤ x < 256 →
  kbd_matrix_wf cfg
    (set_unstable_state (<[c := x]> (matrix_unstable_state m)) m).
Proof.
  intros [Hn Hp Hu Hs] Hx. constructor; simpl; try assumption.
  now apply uint8_array_insert.
Qed.

Lemma kbd_matrix_wf_set_stable m c x :
  kbd_matrix_wf cfg m → 0 ≤ x < 256 →
  kbd_matrix_wf cfg (set_stable_state (<[c := x]> (matrix_stable_state m)) m).
Proof.
  intros [Hn Hp Hu Hs] Hx. constructor; simpl; try assumption.
  now apply uint8_array_insert.
Qed.

(** The test of line 169 asks whether the stable and the raw level of the
    key differ. *)
Lemma stable_test_level m c r :
  kbd_matrix_wf cfg m →
  (Z.land (matrix_stable_state m !!! c) (key_mask r) =? key_row_bit m c r)
  = Bool.eqb (row_level (matrix_stable_state m !!! c) r)
             (row_level (matrix_new_state m !!! c) r).
Proof.
  intros Hwf. rewrite (key_row_bit_level cfg) by assumption.
  rewrite land_key_mask
    by apply (uint8_array_lookup _ _ c (wf_stable_state _ _ Hwf)).
  destruct (Bool.eqb _ _) eqn:Heq.
  - apply Bool.eqb_prop in Heq. rewrite Heq. apply Z.eqb_refl.
  - apply Z.eqb_neq. intros H. apply level_bit_inj in H. rewrite H in Heq.
    now rewrite Bool.eqb_reflx in Heq.
Qed.

(** One key of the second loop keeps the invariant. *)
Lemma debounce_key_step cycles_now m1 c a s :
  kbd_matrix_wf cfg m1 → (c < col_size cfg)%nat →
  debounce_inv k_cyc_to_us_floor32 cfg cycles_now m1 c a s →
  debounce_inv k_cyc_to_us_floor32 cfg cycles_now m1 c (S a)
    (debounce_key k_cyc_to_us_floor32 cfg cycles_now c
                  (matrix_unstable_state m1 !!! c) s a).
Proof.
  intros Hwf1 Hc Hinv. pose proof Hinv as [Hn Hp Hi Hk Hx Hwf Hst Hun Hrep].
  destruct s as [m evs]. simpl in Hn, Hp, Hi, Hk, Hx, Hwf, Hst, Hun, Hrep.
  assert (Hrb : key_row_bit m c a = key_row_bit m1 c a)
    by (unfold key_row_bit; now rewrite Hn).
  assert (Hdebt : key_debt k_cyc_to_us_floor32 cfg cycles_now m c a
                  = key_debt k_cyc_to_us_floor32 cfg cycles_now m1 c a)
    by (unfold key_debt; now rewrite Hi, Hk).
  unfold debounce_key. rewrite Hrb, Hdebt.
  destruct (window_closes k_cyc_to_us_floor32 cfg cycles_now m1 c a) eqn:Hclose.
  2: { replace (if Z.land _ _ =? 0 then _ else _) with (m, evs);
         [now apply debounce_inv_skip|].
       unfold window_closes, key_unstable in Hclose.
       destruct (Z.land _ _ =? 0); [reflexivity|]. simpl in Hclose.
       destruct (_ <? _); [reflexivity | discriminate]. }
  pose proof Hclose as Hclose'. unfold window_closes in Hclose'.
  apply andb_true_iff in Hclose' as [Hu Hd].
  pose proof Hu as Hu'. unfold key_unstable in Hu'.
  apply negb_true_iff in Hu', Hd. rewrite Hu', Hd.
  rewrite (key_unstable_level cfg) in Hu by assumption.
  assert (Ha8 : (a < 8)%nat).
  { eapply row_level_high; [|exact Hu].
    apply (uint8_array_lookup _ _ c (wf_unstable_state _ _ Hwf1)). }
  assert (Hlenu : (c < length (matrix_unstable_state m))%nat)
    by (destruct (wf_unstable_state _ _ Hwf) as [-> _]; assumption).
  assert (Hlens : (c < length (matrix_stable_state m))%nat)
    by (destruct (wf_stable_state _ _ Hwf) as [-> _]; assumption).
  pose proof (uint8_array_lookup _ _ c (wf_unstable_state _ _ Hwf)) as Hur.
  pose proof (uint8_array_lookup _ _ c (wf_stable_state _ _ Hwf)) as Hsr.
  assert (Htest : (Z.land (matrix_stable_state m !!! c) (key_mask a)
                   =? key_row_bit m1 c a)
                  = (Z.land (matrix_stable_state m1 !!! c) (key_mask a)
                     =? key_row_bit m1 c a)).
  { rewrite <- Hrb at 1. rewrite !stable_test_level by assumption.
    now rewrite Hst, key_done_self, Hn, xorb_false_r. }
  assert (Hconf : key_confirmed k_cyc_to_us_floor32 cfg cycles_now m1 c a
                  = negb (Z.land (matrix_stable_state m1 !!! c) (key_mask a)
                          =? key_row_bit m1 c a))
    by (unfold key_confirmed; now rewrite Hclose).
  assert (Hunst : ∀ c' r',
    row_level (<[c := uint8 (Z.land (matrix_unstable_state m !!! c)
                                    (Z.lnot (key_row_bit m1 c a)))]>
                 (matrix_unstable_state m) !!! c') r'
    = row_level (matrix_unstable_state m1 !!! c') r'
      && negb (key_done cfg c (S a) c' r'
               && window_closes k_cyc_to_us_floor32 cfg cycles_now m1 c' r'
               && row_level (matrix_new_state m1 !!! c') r')).
  { intros c' r'. rewrite key_done_S.
    destruct (Nat.eqb_spec c' c) as [-> | Hne].
    - rewrite list_lookup_total_insert_eq by assumption.
      rewrite (key_row_bit_level cfg) by assumption.
      rewrite unstable_clear_bits by assumption. rewrite Hun.
      destruct (Nat.eqb_spec r' a) as [-> | Hr]; simpl.
      + rewrite key_done_self, Hclose. simpl.
        now rewrite !andb_true_r.
      + now rewrite !andb_false_r, orb_false_r, andb_true_r.
    - rewrite list_lookup_total_insert_ne by auto. rewrite Hun. simpl.
      now rewrite orb_false_r. }
  cbn zeta. simpl matrix_stable_state. rewrite Htest.
  destruct (Z.land (matrix_stable_state m1 !!! c) (key_mask a)
            =? key_row_bit m1 c a) eqn:Hb; simpl in Hconf.
  - constructor; simpl; try assumption.
    + apply kbd_matrix_wf_set_unstable; [assumption | apply uint8_range].
    + intros c' r'. rewrite Hst, key_done_S.
      destruct (Nat.eqb_spec c' c) as [-> | Hc'],
        (Nat.eqb_spec r' a) as [-> | Hr];
        simpl; rewrite ?orb_false_r; try reflexivity.
      now rewrite Hconf, !andb_false_r.
    + rewrite Hrep, reports_upto_S. unfold key_reports. rewrite Hconf.
      now rewrite app_nil_r.
  - constructor; simpl; try assumption.
    + apply (kbd_matrix_wf_set_stable (set_unstable_state _ m));
        [|apply uint8_range].
      apply kbd_matrix_wf_set_unstable; [assumption | apply uint8_range].
    + intros c' r'. rewrite key_done_S.
      destruct (Nat.eqb_spec c' c) as [-> | Hc'].
      * rewrite list_lookup_total_insert_eq by assumption.
        rewrite stable_flip_bits by assumption. rewrite Hst.
        destruct (Nat.eqb_spec r' a) as [-> | Hr]; simpl.
        -- rewrite key_done_self, Hconf. simpl. now rewrite xorb_false_r.
        -- now rewrite orb_false_r, xorb_false_r.
      * rewrite list_lookup_total_insert_ne by auto. rewrite Hst. simpl.
        now rewrite orb_false_r.
    + rewrite Hrep, reports_upto_S. unfold key_reports. now rewrite Hconf.
Qed.

Lemma debounce_rows cycles_now m1 c n : ∀ a s,
  kbd_matrix_wf cfg m1 → (c < col_size cfg)%nat →
  debounce_inv k_cyc_to_us_floor32 cfg cycles_now m1 c a s →
  debounce_inv k_cyc_to_us_floor32 cfg cycles_now m1 c (a + n)
    (fold_left (debounce_key k_cyc_to_us_floor32 cfg cycles_now c
                             (matrix_unstable_state m1 !!! c))
               (seq a n) s).
Proof.
  induction n as [|n IH]; intros a s Hwf1 Hc Hinv; simpl.
  - now rewrite Nat.add_0_r.
  - rewrite Nat.add_succ_r. apply (IH (S a)); try assumption.
    now apply debounce_key_step.
Qed.

Lemma debounce_skip_rows cycles_now m1 c s n : ∀ a,
  (∀ r, window_closes k_cyc_to_us_floor32 cfg cycles_now m1 c r = false) →
  debounce_inv k_cyc_to_us_floor32 cfg cycles_now m1 c a s →
  debounce_inv k_cyc_to_us_floor32 cfg cycles_now m1 c (a + n) s.
Proof.
  induction n as [|n IH]; intros a Hno Hinv.
  - now rewrite Nat.add_0_r.
  - rewrite Nat.add_succ_r. apply (IH (S a)); [assumption|].
    now apply debounce_inv_skip.
Qed.

Lemma debounce_inv_next_column cycles_now m1 c s :
  debounce_inv k_cyc_to_us_floor32 cfg cycles_now m1 c (row_size cfg) s →
  debounce_inv k_cyc_to_us_floor32 cfg cycles_now m1 (S c) 0 s.
Proof.
  intros [Hn Hp Hi Hk Hx Hwf Hst Hun Hrep]. constructor; try assumption.
  - intros c' r'. now rewrite key_done_next_column.
  - intros c' r'. now rewrite key_done_next_column.
  - now rewrite reports_upto_next_column.
Qed.

(** When the loop reaches a column, its unstable mask is still the one the
    loop started with. *)
Lemma debounce_inv_deb_col cycles_now m1 c s :
  kbd_matrix_wf cfg m1 →
  debounce_inv k_cyc_to_us_floor32 cfg cycles_now m1 c 0 s →
  matrix_unstable_state s.1 !!! c = matrix_unstable_state m1 !!! c.
Proof.
  intros Hwf1 [Hn Hp Hi Hk Hx Hwf Hst Hun Hrep].
  pose proof (uint8_array_lookup _ _ c (wf_unstable_state _ _ Hwf)).
  pose proof (uint8_array_lookup _ _ c (wf_unstable_state _ _ Hwf1)).
  apply row_level_ext; [lia | lia |]. intros r. rewrite Hun.
  unfold key_done. rewrite Nat.ltb_irrefl. simpl.
  now rewrite andb_false_r, andb_true_r.
Qed.

Lemma debounce_column_step cycles_now m1 c s :
  kbd_matrix_wf cfg m1 → (c < col_size cfg)%nat →
  debounce_inv k_cyc_to_us_floor32 cfg cycles_now m1 c 0 s →
  debounce_inv k_cyc_to_us_floor32 cfg cycles_now m1 (S c) 0
    (debounce_column k_cyc_to_us_floor32 cfg cycles_now s c).
Proof.
  intros Hwf1 Hc Hinv. unfold debounce_column.
  rewrite (debounce_inv_deb_col _ _ _ _ Hwf1 Hinv).
  apply debounce_inv_next_column.
  destruct (Z.eqb_spec (matrix_unstable_state m1 !!! c) 0) as [H0 | _].
  - apply (debounce_skip_rows _ _ _ _ (row_size cfg) 0); [|assumption].
    intros r. unfold window_closes, key_unstable. now rewrite H0.
  - now apply (debounce_rows _ _ _ (row_size cfg) 0).
Qed.

Lemma debounce_columns cycles_now m1 n : ∀ c s,
  kbd_matrix_wf cfg m1 → (c + n ≤ col_size cfg)%nat →
  debounce_inv k_cyc_to_us_floor32 cfg cycles_now m1 c 0 s →
  debounce_inv k_cyc_to_us_floor32 cfg cycles_now m1 (c + n) 0
    (fold_left (debounce_column k_cyc_to_us_floor32 cfg cycles_now)
               (seq c n) s).
Proof.
  induction n as [|n IH]; intros c s Hwf1 Hle Hinv; simpl.
  - now rewrite Nat.add_0_r.
  - rewrite Nat.add_succ_r. apply (IH (S c)); [assumption | lia |].
    apply debounce_column_step; [assumption | lia | assumption].
Qed.

Lemma debounce_inv_start cycles_now m1 :
  kbd_matrix_wf cfg m1 →
  debounce_inv k_cyc_to_us_floor32 cfg cycles_now m1 0 0 (m1, []).
Proof.
  intros Hwf1. constructor; simpl; try reflexivity; try assumption.
  - intros c' r'. unfold key_done. rewrite Nat.eqb_sym.
    destruct (Nat.eqb_spec 0 c'); simpl; now rewrite xorb_false_r.
  - intros c' r'. unfold key_done.
    destruct (Nat.eqb_spec c' 0); simpl; now rewrite andb_true_r.
Qed.

(** *** The first loop *)

Lemma stamp_keys_frame c row_changed l : ∀ m,
  let m' := fold_left (stamp_key cfg c row_changed) l m in
  matrix_new_state m' = matrix_new_state m
  ∧ matrix_previous_state m' = matrix_previous_state m
  ∧ matrix_unstable_state m' = matrix_unstable_state m
  ∧ matrix_stable_state m' = matrix_stable_state m
  ∧ scan_clk_cycle m' = scan_clk_cycle m
  ∧ scan_cycles_idx m' = scan_cycles_idx m.
Proof.
  induction l as [|r l IH]; intros m; simpl; [repeat split|].
  destruct (IH (stamp_key cfg c row_changed m r)) as (H1 & H2 & H3 & H4 & H5 & H6).
  rewrite H1, H2, H3, H4, H5, H6. unfold stamp_key.
  destruct (Z.land row_changed (BIT r) =? 0); repeat split.
Qed.

Lemma gather_column_frame m c :
  let m' := gather_column cfg m c in
  matrix_new_state m' = matrix_new_state m
  ∧ matrix_stable_state m' = matrix_stable_state m
  ∧ scan_clk_cycle m' = scan_clk_cycle m
  ∧ scan_cycles_idx m' = scan_cycles_idx m
  ∧ (kbd_matrix_wf cfg m → kbd_matrix_wf cfg m').
Proof.
  unfold gather_column.
  set (rc := uint8 (Z.lxor (matrix_new_state m !!! c)
                           (matrix_previous_state m !!! c))).
  destruct (rc =? 0); [split_frame; auto|].
  destruct (stamp_keys_frame c rc (seq 0 (row_size cfg)) m)
    as (H1 & H2 & H3 & H4 & H5 & H6).
  cbn zeta. simpl. rewrite H1, H3, H4, H5, H6.
  split_frame; try reflexivity.
  intros [Hn Hp Hu Hs]. constructor; simpl; rewrite ?H1, ?H2, ?H3, ?H4;
    try assumption.
  - apply uint8_array_insert; [assumption|].
    now apply (uint8_array_lookup _ _ c Hn).
  - apply uint8_array_insert; [assumption | apply uint8_range].
Qed.

Lemma gather_columns_frame l : ∀ m,
  let m' := fold_left (gather_column cfg) l m in
  matrix_new_state m' = matrix_new_state m
  ∧ matrix_stable_state m' = matrix_stable_state m
  ∧ scan_clk_cycle m' = scan_clk_cycle m
  ∧ scan_cycles_idx m' = scan_cycles_idx m
  ∧ (kbd_matrix_wf cfg m → kbd_matrix_wf cfg m').
Proof.
  induction l as [|c l IH]; intros m; simpl; [split_frame; auto|].
  destruct (IH (gather_column cfg m c)) as (H1 & H2 & H3 & H4 & H5).
  destruct (gather_column_frame m c) as (G1 & G2 & G3 & G4 & G5).
  rewrite H1, H2, H3, H4, G1, G2, G3, G4. split_frame; auto.
Qed.

(** The first loop and the write of line 106: the snapshot, the stable
    state and the cursor are kept, and the ring only changes at the
    cursor. *)
Lemma gather_changes_frame cycles_now m :
  let m1 := gather_changes cfg cycles_now m in
  matrix_new_state m1 = matrix_new_state m
  ∧ matrix_stable_state m1 = matrix_stable_state m
  ∧ scan_clk_cycle m1
    = <[Z.to_nat (scan_cycles_idx m) := cycles_now]> (scan_clk_cycle m)
  ∧ scan_cycles_idx m1 = scan_cycles_idx m
  ∧ (kbd_matrix_wf cfg m → kbd_matrix_wf cfg m1).
Proof.
  unfold gather_changes.
  destruct (gather_columns_frame (seq 0 (col_size cfg))
              (set_scan_clk_cycle
                 (<[Z.to_nat (scan_cycles_idx m) := cycles_now]>
                    (scan_clk_cycle m)) m))
    as (H1 & H2 & H3 & H4 & H5).
  cbn zeta. rewrite H1, H2, H3, H4. split_frame; try reflexivity.
  intros Hwf. apply H5. destruct Hwf. now constructor.
Qed.

(** The second loop on the whole matrix. *)
Lemma update_state_at_inv cycles_now m :
  kbd_matrix_wf cfg m →
  debounce_inv k_cyc_to_us_floor32 cfg cycles_now
    (gather_changes cfg cycles_now m) (col_size cfg) 0
    (update_state_at k_cyc_to_us_floor32 cfg cycles_now m).
Proof.
  intros Hwf.
  destruct (gather_changes_frame cycles_now m) as (_ & _ & _ & _ & Hwf1).
  specialize (Hwf1 Hwf). unfold update_state_at.
  apply (debounce_columns cycles_now _ (col_size cfg) 0);
    [assumption | lia |]. now apply debounce_inv_start.
Qed.

End DebounceProperties.

(** The second loop keeps the ring and its cursor, whatever the state. *)
Lemma debounce_key_ring k cfg cycles_now c deb_col s r :
  scan_clk_cycle (debounce_key k cfg cycles_now c deb_col s r).1
  = scan_clk_cycle s.1
  ∧ scan_cycles_idx (debounce_key k cfg cycles_now c deb_col s r).1
    = scan_cycles_idx s.1.
Proof.
  destruct s as [m evs]. unfold debounce_key.
  destruct (Z.land deb_col _ =? 0); [now split|].
  destruct (_ <? _); [now split|]. cbn zeta.
  destruct (_ =? _); now split.
Qed.

Lemma debounce_column_ring k cfg cycles_now s c :
  scan_clk_cycle (debounce_column k cfg cycles_now s c).1 = scan_clk_cycle s.1
  ∧ scan_cycles_idx (debounce_column k cfg cycles_now s c).1
    = scan_cycles_idx s.1.
Proof.
  unfold debounce_column. destruct (_ =? 0); [now split|].
  generalize (matrix_unstable_state s.1 !!! c). intros deb_col.
  generalize (seq 0 (row_size cfg)). intros l. revert s.
  induction l as [|r l IH]; intros s; simpl; [now split|].
  destruct (IH (debounce_key k cfg cycles_now c deb_col s r)) as [-> ->].
  apply debounce_key_ring.
Qed.

Lemma debounce_columns_ring k cfg cycles_now l : ∀ s,
  scan_clk_cycle (fold_left (debounce_column k cfg cycles_now) l s).1
  = scan_clk_cycle s.1
  ∧ scan_cycles_idx (fold_left (debounce_column k cfg cycles_now) l s).1
    = scan_cycles_idx s.1.
Proof.
  induction l as [|c l IH]; intros s; simpl; [now split|].
  destruct (IH (debounce_column k cfg cycles_now s c)) as [-> ->].
  apply debounce_column_ring.
Qed.

Lemma update_state_at_ring k cfg cycles_now m :
  scan_clk_cycle (update_state_at k cfg cycles_now m).1
  = scan_clk_cycle (gather_changes cfg cycles_now m)
  ∧ scan_cycles_idx (update_state_at k cfg cycles_now m).1
    = scan_cycles_idx (gather_changes cfg cycles_now m).
Proof.
  unfold update_state_at.
  apply (debounce_columns_ring k cfg cycles_now (seq 0 (col_size cfg))
           (gather_changes cfg cycles_now m, [])).
Qed.

(** ** The reports of one update *)

Lemma flat_map_flat_map {A B C} (f : A → list B) (g : B → list C) l :
  flat_map g (flat_map f l) = flat_map (λ x, flat_map g (f x)) l.
Proof.
  induction l as [|x l IH]; simpl; [reflexivity|].
  now rewrite flat_map_app, IH.
Qed.

Lemma map_of_flat_map {A B C} (f : A → list B) (g : B → C) l :
  map g (flat_map f l) = flat_map (λ x, map g (f x)) l.
Proof.
  induction l as [|x l IH]; simpl; [reflexivity|].
  now rewrite map_app, IH.
Qed.

Lemma reports_of_keys_transitions l :
  reports_of_keys l = reports_of_transitions (map transition_of_key l).
Proof.
  unfold reports_of_keys, reports_of_transitions.
  induction l as [|k l IH]; simpl; [reflexivity|]. now rewrite IH.
Qed.

Lemma transitions_of_reports l : ∀ rest,
  transitions_of (reports_of_keys l ++ rest)
  = map transition_of_key l ++ transitions_of rest.
Proof.
  induction l as [|[[c r] v] l IH]; intros rest; simpl; [reflexivity|].
  now rewrite IH.
Qed.

(** In a list built column by column (or row by row), the part of one
    index is found by filtering when no other index contributes. *)
Lemma filter_flat_map_seq {A} (P : A → bool) (f : nat → list A) x n : ∀ a,
  (∀ y, y ≠ x → List.filter P (f y) = []) →
  List.filter P (flat_map f (seq a n))
  = if ((a <=? x) && (x <? a + n))%nat then List.filter P (f x) else [].
Proof.
  induction n as [|n IH]; intros a Hother; simpl.
  - rewrite Nat.add_0_r.
    destruct (Nat.leb_spec a x), (Nat.ltb_spec x a); simpl;
      (reflexivity || lia).
  - rewrite List.filter_app, (IH (S a) Hother).
    replace (S a + n)%nat with (a + S n)%nat by lia.
    destruct (Nat.eq_dec a x) as [-> | Hne].
    + rewrite Nat.leb_refl.
      destruct (Nat.leb_spec (S x) x); [lia|].
      destruct (Nat.ltb_spec x (x + S n)); [|lia]. apply app_nil_r.
    + rewrite (Hother a Hne).
      destruct (Nat.leb_spec (S a) x), (Nat.leb_spec a x),
        (Nat.ltb_spec x (a + S n)); simpl; (reflexivity || lia).
Qed.

Section UpdateProperties.

Variable k_cyc_to_us_floor32 : Z → Z.
Variable cfg : input_kbd_matrix_common_config.

Lemma column_reports_keys cycles_now m :
  flat_map (column_reports k_cyc_to_us_floor32 cfg cycles_now m)
           (seq 0 (col_size cfg))
  = reports_of_keys (confirmed_keys k_cyc_to_us_floor32 cfg cycles_now m).
Proof.
  unfold reports_of_keys, confirmed_keys, column_reports.
  rewrite flat_map_flat_map. apply flat_map_ext. intros c.
  rewrite flat_map_flat_map. apply flat_map_ext. intros r.
  unfold key_reports. destruct (key_confirmed _ _ _ _ _ _); reflexivity.
Qed.

(** The reports of one update are those of the confirmed keys, in the
    order of the loops. *)
Lemma update_state_reports cycles_now m :
  kbd_matrix_wf cfg m →
  (update_state_at k_cyc_to_us_floor32 cfg cycles_now m).2
  = reports_of_keys
      (confirmed_keys k_cyc_to_us_floor32 cfg cycles_now
                      (gather_changes cfg cycles_now m)).
Proof.
  intros Hwf.
  destruct (update_state_at_inv k_cyc_to_us_floor32 cfg cycles_now m Hwf)
    as [_ _ _ _ _ _ _ _ Hrep].
  rewrite Hrep. unfold reports_upto. simpl. rewrite app_nil_r.
  apply column_reports_keys.
Qed.

Lemma update_state_transitions cycles_now m :
  kbd_matrix_wf cfg m →
  transitions_of (update_state_at k_cyc_to_us_floor32 cfg cycles_now m).2
  = map transition_of_key
      (confirmed_keys k_cyc_to_us_floor32 cfg cycles_now
                      (gather_changes cfg cycles_now m)).
Proof.
  intros Hwf. rewrite update_state_reports by assumption.
  rewrite <- (app_nil_r (reports_of_keys _)), transitions_of_reports.
  apply app_nil_r.
Qed.

(** The transitions of one key among those of the confirmed keys. *)
Lemma transitions_for_confirmed cycles_now m c r :
  transitions_for c r
    (map transition_of_key
         (confirmed_keys k_cyc_to_us_floor32 cfg cycles_now m))
  = if ((c <? col_size cfg) && (r <? row_size cfg))%nat
       && key_confirmed k_cyc_to_us_floor32 cfg cycles_now m c r
    then [(Z.of_nat c, Z.of_nat r, key_row_bit m c r)] else [].
Proof.
  unfold transitions_for, confirmed_keys.
  rewrite map_of_flat_map.
  rewrite (filter_flat_map_seq _ _ c).
  - simpl. destruct (Nat.ltb_spec c (col_size cfg)); simpl; [|reflexivity].
    rewrite map_of_flat_map, (filter_flat_map_seq _ _ r).
    + simpl. destruct (Nat.ltb_spec r (row_size cfg)); simpl; [|reflexivity].
      destruct (key_confirmed _ _ _ _ _ _); simpl; [|reflexivity].
      now rewrite !Z.eqb_refl.
    + intros r' Hr'. destruct (key_confirmed _ _ _ _ _ _); simpl;
        [|reflexivity].
      destruct (Z.eqb_spec (Z.of_nat r') (Z.of_nat r)); [lia|].
      now rewrite andb_false_r.
  - intros c' Hc'. rewrite map_of_flat_map.
    induction (seq 0 (row_size cfg)) as [|r' l IH]; simpl; [reflexivity|].
    rewrite List.filter_app, IH.
    destruct (key_confirmed _ _ _ _ _ _); simpl; [|reflexivity].
    destruct (Z.eqb_spec (Z.of_nat c') (Z.of_nat c)); [lia | reflexivity].
Qed.

Lemma key_done_all c r :
  key_done cfg (col_size cfg) 0 c r
  = ((c <? col_size cfg) && (r <? row_size cfg))%nat.
Proof. unfold key_done. simpl. now rewrite andb_false_r, orb_false_r. Qed.

(** The stable state after one update: the bits of the confirmed keys are
    flipped, the others kept. *)
Lemma update_state_stable cycles_now m c r :
  kbd_matrix_wf cfg m →
  row_level
    (matrix_stable_state
       (update_state_at k_cyc_to_us_floor32 cfg cycles_now m).1 !!! c) r
  = xorb (row_level (matrix_stable_state m !!! c) r)
         (((c <? col_size cfg) && (r <? row_size cfg))%nat
          && key_confirmed k_cyc_to_us_floor32 cfg cycles_now
                           (gather_changes cfg cycles_now m) c r).
Proof.
  intros Hwf.
  destruct (update_state_at_inv k_cyc_to_us_floor32 cfg cycles_now m Hwf)
    as [_ _ _ _ _ _ Hst _ _].
  destruct (gather_changes_frame cfg cycles_now m) as (_ & Hs & _).
  now rewrite Hst, key_done_all, Hs.
Qed.

(** The unstable state after one update: line 166 clears the bit of a key
    whose window closed when the raw level is pressed, and of no other. *)
Lemma update_state_unstable cycles_now m c r :
  kbd_matrix_wf cfg m →
  row_level
    (matrix_unstable_state
       (update_state_at k_cyc_to_us_floor32 cfg cycles_now m).1 !!! c) r
  = row_level (matrix_unstable_state (gather_changes cfg cycles_now m) !!! c) r
    && negb (((c <? col_size cfg) && (r <? row_size cfg))%nat
             && window_closes k_cyc_to_us_floor32 cfg cycles_now
                              (gather_changes cfg cycles_now m) c r
             && row_level (matrix_new_state m !!! c) r).
Proof.
  intros Hwf.
  destruct (update_state_at_inv k_cyc_to_us_floor32 cfg cycles_now m Hwf)
    as [_ _ _ _ _ _ _ Hun _].
  destruct (gather_changes_frame cfg cycles_now m) as (Hn & _).
  now rewrite Hun, key_done_all, Hn.
Qed.

Lemma key_confirmed_level cycles_now m c r :
  kbd_matrix_wf cfg m →
  key_confirmed k_cyc_to_us_floor32 cfg cycles_now m c r
  = window_closes k_cyc_to_us_floor32 cfg cycles_now m c r
    && xorb (row_level (matrix_stable_state m !!! c) r)
            (row_level (matrix_new_state m !!! c) r).
Proof.
  intros Hwf. unfold key_confirmed.
  rewrite (stable_test_level cfg) by assumption.
  now destruct (row_level _ r), (row_level _ r).
Qed.

(** C6: when the debounce window of key [(c, r)] closes (the key is marked
    unstable and the elapsed time computed for it is not below the
    threshold), then: if its raw level equals its bit of the stable state,
    that bit is kept and no transition is reported for the key; otherwise
    the bit is flipped and exactly one transition is reported for the key,
    (c, r, level), whose level is non-zero exactly when the raw level is
    pressed. *)
Theorem window_close_reports_change_once cycles_now m c r :
  kbd_matrix_wf cfg m → (c < col_size cfg)%nat → (r < row_size cfg)%nat →
  window_closes k_cyc_to_us_floor32 cfg cycles_now
                (gather_changes cfg cycles_now m) c r = true →
  let res := update_state_at k_cyc_to_us_floor32 cfg cycles_now m in
  let raw := row_level (matrix_new_state m !!! c) r in
  let stable := row_level (matrix_stable_state m !!! c) r in
  (raw = stable →
   row_level (matrix_stable_state res.1 !!! c) r = stable
   ∧ transitions_for c r (transitions_of res.2) = [])
  ∧ (raw ≠ stable →
     row_level (matrix_stable_state res.1 !!! c) r = negb stable
     ∧ transitions_for c r (transitions_of res.2)
       = [(Z.of_nat c, Z.of_nat r, level_bit raw r)]
     ∧ (level_bit raw r ≠ 0 ↔ raw = true)).
Proof.
  intros Hwf Hc Hr Hclose res raw stable. subst res.
  destruct (gather_changes_frame cfg cycles_now m) as (Hn & Hs & _ & _ & Hwf1).
  specialize (Hwf1 Hwf).
  assert (Hconf : key_confirmed k_cyc_to_us_floor32 cfg cycles_now
                    (gather_changes cfg cycles_now m) c r = xorb stable raw)
    by (rewrite key_confirmed_level, Hclose, Hs, Hn by assumption;
        reflexivity).
  assert (Hin : ((c <? col_size cfg) && (r <? row_size cfg))%nat = true).
  { destruct (Nat.ltb_spec c (col_size cfg)), (Nat.ltb_spec r (row_size cfg));
      (reflexivity || lia). }
  rewrite update_state_stable, update_state_transitions,
    transitions_for_confirmed, Hin, Hconf by assumption.
  rewrite (key_row_bit_level cfg), Hn by assumption. fold raw. fold stable.
  simpl. split.
  - intros ->. rewrite xorb_nilpotent. split; [apply xorb_false_r|reflexivity].
  - intros Hne. assert (Hx : xorb stable raw = true)
      by (destruct stable, raw; (reflexivity || congruence)).
    rewrite Hx. split; [apply xorb_true_r|]. split; [reflexivity|].
    unfold level_bit. destruct raw.
    + assert (0 < 2 ^ Z.of_nat r) by (apply Z.pow_pos_nonneg; lia).
      split; [reflexivity | lia].
    + split; [congruence | discriminate].
Qed.

End UpdateProperties.

(** ** One scan cycle *)

Section CycleProperties.

Context {W : Type}.
Variable api : input_kbd_matrix_api W.
Variable k_busy_wait : Z → W → W.
Variable k_cycle_get_32 : W → Z * W.
Variable k_cyc_to_us_floor32 : Z → Z.
Variable INPUT_KBD_MATRIX_SCAN_OCURRENCES : Z.
Variable cfg : input_kbd_matrix_common_config.

Local Abbreviation scan := (input_kbd_matrix_scan api k_busy_wait cfg).
Local Abbreviation advance :=
  (advance_and_scan api k_busy_wait INPUT_KBD_MATRIX_SCAN_OCURRENCES cfg).
Local Abbreviation check_key_events :=
  (input_kbd_matrix_check_key_events api k_busy_wait k_cycle_get_32
     k_cyc_to_us_floor32 INPUT_KBD_MATRIX_SCAN_OCURRENCES cfg).
Local Abbreviation next_idx :=
  (next_scan_cycles_idx INPUT_KBD_MATRIX_SCAN_OCURRENCES).

(** A scan only replaces the snapshot. *)
Lemma scan_frame w m :
  ∃ new_state, (scan w m).1.2 = set_new_state new_state m.
Proof.
  unfold input_kbd_matrix_scan.
  destruct (fold_left _ _ _) as [[w' ns] ke]. simpl. now exists ns.
Qed.

Lemma advance_and_scan_frame w m :
  ∃ new_state,
    (advance w m).1.2
    = set_new_state new_state
        (set_scan_cycles_idx (next_idx (scan_cycles_idx m)) m).
Proof. unfold advance_and_scan. apply scan_frame. Qed.

Lemma advance_and_scan_wf w m :
  kbd_matrix_wf cfg m → kbd_matrix_wf cfg (advance w m).1.2.
Proof.
  intros Hwf. unfold advance_and_scan.
  set (m0 := set_scan_cycles_idx _ m).
  assert (Hlen : length (matrix_new_state m0) = col_size cfg)
    by exact (proj1 (wf_new_state _ _ Hwf)).
  destruct (input_kbd_matrix_scan_spec api k_busy_wait cfg w m0 Hlen)
    as [w' ->].
  destruct Hwf as [Hn Hp Hu Hs]. constructor; simpl; try assumption.
  split; [apply sensed_rows_length | apply sensed_rows_range].
Qed.

(** The two ways a cycle ends: vetoed by the ghosting check, or with the
    update run on the scanned state at the time read from the counter. *)
Lemma check_key_events_cases w m :
  let s := advance w m in
  (ghostkey_check cfg && input_kbd_matrix_ghosting cfg s.1.2 = true
   ∧ check_key_events w m = (s.1.1, s.1.2, [], s.2))
  ∨ (ghostkey_check cfg && input_kbd_matrix_ghosting cfg s.1.2 = false
     ∧ check_key_events w m
       = ((k_cycle_get_32 s.1.1).2,
          (update_state_at k_cyc_to_us_floor32 cfg
             (uint32 (k_cycle_get_32 s.1.1).1) s.1.2).1,
          (update_state_at k_cyc_to_us_floor32 cfg
             (uint32 (k_cycle_get_32 s.1.1).1) s.1.2).2,
          s.2)).
Proof.
  unfold input_kbd_matrix_check_key_events.
  destruct (advance w m) as [[w1 m1] key]. simpl.
  destruct (ghostkey_check cfg && input_kbd_matrix_ghosting cfg m1);
    [left; split; reflexivity | right; split; [reflexivity|]].
  unfold input_kbd_matrix_update_state.
  destruct (k_cycle_get_32 w1) as [now w2]. simpl.
  now destruct (update_state_at _ _ _ _).
Qed.

Lemma confirmed_keys_in_range cycles_now m k :
  In k (confirmed_keys k_cyc_to_us_floor32 cfg cycles_now m) →
  (k.1.1 < col_size cfg)%nat ∧ (k.1.2 < row_size cfg)%nat.
Proof.
  unfold confirmed_keys. intros H.
  apply in_flat_map in H as (c & Hc & H).
  apply in_flat_map in H as (r & Hr & H).
  apply in_seq in Hc, Hr.
  destruct (key_confirmed _ _ _ _ _ _); [|contradiction].
  destruct H as [<- | []]. simpl. lia.
Qed.

(** C9: the stable state is written by the update of the debounce engine
    and by nothing else in a cycle. A scan keeps it; a cycle vetoed by the
    ghosting check keeps it and reports nothing; and in any cycle every
    reported transition is about a key of the matrix, and the transitions
    reported for a key are exactly one when its bit of the stable state
    was flipped by the cycle (carrying the new level) and none when the
    bit was kept; the reports of the cycle are those transitions and
    nothing else. *)
Theorem stable_state_flips_match_transitions w m :
  kbd_matrix_wf cfg m →
  let res := check_key_events w m in
  matrix_stable_state (scan w m).1.2 = matrix_stable_state m
  ∧ (ghostkey_check cfg && input_kbd_matrix_ghosting cfg (advance w m).1.2
     = true →
     matrix_stable_state res.1.1.2 = matrix_stable_state m ∧ res.1.2 = [])
  ∧ res.1.2 = reports_of_transitions (transitions_of res.1.2)
  ∧ (∀ t, In t (transitions_of res.1.2) →
          ∃ c r, (c < col_size cfg)%nat ∧ (r < row_size cfg)%nat
                 ∧ t.1 = (Z.of_nat c, Z.of_nat r))
  ∧ (∀ c r,
       transitions_for c r (transitions_of res.1.2)
       = if xorb (row_level (matrix_stable_state res.1.1.2 !!! c) r)
                 (row_level (matrix_stable_state m !!! c) r)
         then [(Z.of_nat c, Z.of_nat r,
                level_bit (row_level (matrix_stable_state res.1.1.2 !!! c) r) r)]
         else []).
Proof.
  intros Hwf res.
  destruct (scan_frame w m) as [ns Hscan].
  destruct (advance_and_scan_frame w m) as [ns' Hadv].
  pose proof (advance_and_scan_wf w m Hwf) as Hwfs.
  assert (Hstable : matrix_stable_state (advance w m).1.2
                    = matrix_stable_state m) by now rewrite Hadv.
  split; [now rewrite Hscan|].
  subst res.
  destruct (check_key_events_cases w m) as [[Hveto ->] | [Hrun ->]]; simpl.
  - split; [intros _; now split|]. split; [reflexivity|].
    split; [intros t []|].
    intros c r. rewrite Hstable. now rewrite xorb_nilpotent.
  - rewrite Hrun. split; [discriminate|].
    set (now := uint32 (k_cycle_get_32 (advance w m).1.1).1).
    destruct (gather_changes_frame cfg now (advance w m).1.2)
      as (Hn & Hs & _ & _ & Hwf1). specialize (Hwf1 Hwfs).
    rewrite update_state_transitions by assumption.
    split; [rewrite update_state_reports by assumption;
            apply reports_of_keys_transitions|].
    split.
    + intros t Ht. apply in_map_iff in Ht as (k & <- & Hk).
      apply confirmed_keys_in_range in Hk. exists k.1.1, k.1.2.
      split; [lia|]. split; [lia | reflexivity].
    + intros c r. rewrite transitions_for_confirmed.
      rewrite update_state_stable by assumption. rewrite Hstable.
      rewrite key_confirmed_level by assumption. rewrite Hs, Hn, Hstable.
      rewrite (key_row_bit_level cfg) by assumption. rewrite Hn.
      set (inside := ((c <? col_size cfg) && (r <? row_size cfg))%nat).
      set (closes := window_closes _ _ _ _ _ _).
      destruct inside, closes,
        (row_level (matrix_stable_state m !!! c) r),
        (row_level (matrix_new_state (advance w m).1.2 !!! c) r);
        reflexivity.
Qed.

Lemma next_scan_cycles_idx_mod idx :
  0 < INPUT_KBD_MATRIX_SCAN_OCURRENCES ≤ 256 →
  0 ≤ idx < INPUT_KBD_MATRIX_SCAN_OCURRENCES →
  next_idx idx = (idx + 1) mod INPUT_KBD_MATRIX_SCAN_OCURRENCES.
Proof.
  intros HN Hidx. unfold next_scan_cycles_idx, uint8.
  destruct (Z.eq_dec (idx + 1) 256) as [H256 | Hne].
  - rewrite H256. replace INPUT_KBD_MATRIX_SCAN_OCURRENCES with 256 by lia.
    reflexivity.
  - rewrite (Z.mod_small (idx + 1) 256) by lia.
    destruct (Z.leb_spec INPUT_KBD_MATRIX_SCAN_OCURRENCES (idx + 1)).
    + replace (idx + 1) with INPUT_KBD_MATRIX_SCAN_OCURRENCES by lia.
      now rewrite Z.mod_same by lia.
    + now rewrite Z.mod_small by lia.
Qed.

Lemma next_scan_cycles_idx_range idx : 0 ≤ next_idx idx < 256.
Proof.
  unfold next_scan_cycles_idx.
  destruct (_ <=? _); [lia | apply uint8_range].
Qed.

(** C10: with a ring of at least two and at most 256 slots and the cursor
    inside it, every cycle advances the cursor modulo the ring capacity,
    and the scan already runs with the advanced cursor; the timestamp of
    the cycle is written at the cursor when the update runs, and the whole
    ring, the slot at the advanced cursor included, is kept when the
    ghosting check vetoes the cycle; and in the cycle that follows a vetoed
    one, and in any later cycle for which the slot has not been written
    since, the elapsed time computed for a key whose stamp index is the
    slot of the vetoed cycle comes from the value that slot had before the
    vetoed cycle. *)
Theorem vetoed_cycle_keeps_stale_timestamp w m :
  1 < INPUT_KBD_MATRIX_SCAN_OCURRENCES ≤ 256 →
  0 ≤ scan_cycles_idx m < INPUT_KBD_MATRIX_SCAN_OCURRENCES →
  let s := advance w m in
  let res := check_key_events w m in
  let cursor :=
    (scan_cycles_idx m + 1) mod INPUT_KBD_MATRIX_SCAN_OCURRENCES in
  scan_cycles_idx s.1.2 = cursor
  ∧ scan_cycles_idx res.1.1.2 = cursor
  ∧ (ghostkey_check cfg && input_kbd_matrix_ghosting cfg s.1.2 = false →
     scan_clk_cycle res.1.1.2
     = <[Z.to_nat cursor := uint32 (k_cycle_get_32 s.1.1).1]>
         (scan_clk_cycle m))
  ∧ (ghostkey_check cfg && input_kbd_matrix_ghosting cfg s.1.2 = true →
     scan_clk_cycle res.1.1.2 = scan_clk_cycle m
     ∧ scan_clk_cycle res.1.1.2 !!! Z.to_nat cursor
       = scan_clk_cycle m !!! Z.to_nat cursor
     ∧ let s2 := advance res.1.1.1 res.1.1.2 in
       let now2 := uint32 (k_cycle_get_32 s2.1.1).1 in
       let m1 := gather_changes cfg now2 s2.1.2 in
       ∀ c r,
         uint8 (scan_cycle_idx m1 !!! cyc_idx cfg c r) = cursor →
         key_debt k_cyc_to_us_floor32 cfg now2 m1 c r
         = uint32 (k_cyc_to_us_floor32
                     (uint32 (now2
                              - uint8 (scan_clk_cycle m !!! Z.to_nat cursor)))))
  ∧ (∀ now' m' c r,
       0 ≤ scan_cycles_idx m' → scan_cycles_idx m' ≠ cursor →
       scan_clk_cycle m' !!! Z.to_nat cursor
       = scan_clk_cycle m !!! Z.to_nat cursor →
       uint8 (scan_cycle_idx (gather_changes cfg now' m') !!! cyc_idx cfg c r)
       = cursor →
       key_debt k_cyc_to_us_floor32 cfg now' (gather_changes cfg now' m') c r
       = uint32 (k_cyc_to_us_floor32
                   (uint32 (now'
                            - uint8 (scan_clk_cycle m !!! Z.to_nat cursor))))).
Proof.
  intros HN Hidx s res cursor.
  assert (Hcursor : 0 ≤ cursor < INPUT_KBD_MATRIX_SCAN_OCURRENCES)
    by (apply Z.mod_pos_bound; lia).
  assert (Hlater : ∀ now' m' c r,
       0 ≤ scan_cycles_idx m' → scan_cycles_idx m' ≠ cursor →
       scan_clk_cycle m' !!! Z.to_nat cursor
       = scan_clk_cycle m !!! Z.to_nat cursor →
       uint8 (scan_cycle_idx (gather_changes cfg now' m') !!! cyc_idx cfg c r)
       = cursor →
       key_debt k_cyc_to_us_floor32 cfg now' (gather_changes cfg now' m') c r
       = uint32 (k_cyc_to_us_floor32
                   (uint32 (now'
                            - uint8 (scan_clk_cycle m !!! Z.to_nat cursor))))).
  { intros now' m' c r Hpos Hne Hslot Hstamp.
    destruct (gather_changes_frame cfg now' m') as (_ & _ & Hring & _).
    unfold key_debt. rewrite Hstamp, Hring.
    rewrite list_lookup_total_insert_ne by lia. now rewrite Hslot. }
  cut (scan_cycles_idx s.1.2 = cursor
  ∧ scan_cycles_idx res.1.1.2 = cursor
  ∧ (ghostkey_check cfg && input_kbd_matrix_ghosting cfg s.1.2 = false →
     scan_clk_cycle res.1.1.2
     = <[Z.to_nat cursor := uint32 (k_cycle_get_32 s.1.1).1]>
         (scan_clk_cycle m))
  ∧ (ghostkey_check cfg && input_kbd_matrix_ghosting cfg s.1.2 = true →
     scan_clk_cycle res.1.1.2 = scan_clk_cycle m
     ∧ scan_clk_cycle res.1.1.2 !!! Z.to_nat cursor
       = scan_clk_cycle m !!! Z.to_nat cursor
     ∧ let s2 := advance res.1.1.1 res.1.1.2 in
       let now2 := uint32 (k_cycle_get_32 s2.1.1).1 in
       let m1 := gather_changes cfg now2 s2.1.2 in
       ∀ c r,
         uint8 (scan_cycle_idx m1 !!! cyc_idx cfg c r) = cursor →
         key_debt k_cyc_to_us_floor32 cfg now2 m1 c r
         = uint32 (k_cyc_to_us_floor32
                     (uint32 (now2
                              - uint8 (scan_clk_cycle m !!! Z.to_nat cursor)))))).
  { intros (H1 & H2 & H3 & H4). split_frame; assumption. }
  assert (Hnext : next_idx (scan_cycles_idx m) = cursor)
    by (apply next_scan_cycles_idx_mod; lia).
  destruct (advance_and_scan_frame w m) as [ns Hadv].
  assert (Hcur : scan_cycles_idx s.1.2 = cursor)
    by (subst s; now rewrite Hadv).
  assert (Hclk : scan_clk_cycle s.1.2 = scan_clk_cycle m)
    by (subst s; now rewrite Hadv).
  split; [assumption|]. subst res.
  destruct (check_key_events_cases w m) as [[Hveto ->] | [Hrun ->]];
    fold s; fold s in Hveto || fold s in Hrun; simpl.
  - split; [assumption|]. split; [rewrite Hveto; discriminate|].
    intros _. split; [assumption|]. split; [now rewrite Hclk|].
    intros c r Hstamp.
    set (s2 := advance s.1.1 s.1.2) in *.
    set (now2 := uint32 (k_cycle_get_32 s2.1.1).1) in *.
    destruct (advance_and_scan_frame s.1.1 s.1.2) as [ns2 Hadv2].
    fold s2 in Hadv2.
    destruct (gather_changes_frame cfg now2 s2.1.2) as (_ & _ & Hring & _).
    unfold key_debt. rewrite Hstamp, Hring, Hadv2. simpl.
    rewrite Hcur, Hclk.
    assert (Hnext2 : next_idx cursor
                     = (cursor + 1) mod INPUT_KBD_MATRIX_SCAN_OCURRENCES)
      by (apply next_scan_cycles_idx_mod; lia).
    assert (Hdiff : next_idx cursor ≠ cursor).
    { rewrite Hnext2.
      destruct (Z.eq_dec (cursor + 1) INPUT_KBD_MATRIX_SCAN_OCURRENCES)
        as [Heq | Hne].
      - rewrite Heq, Z.mod_same by lia. lia.
      - rewrite Z.mod_small by lia. lia. }
    pose proof (next_scan_cycles_idx_range cursor).
    rewrite list_lookup_total_insert_ne by lia. reflexivity.
  - destruct (gather_changes_frame cfg (uint32 (k_cycle_get_32 s.1.1).1) s.1.2)
      as (_ & _ & Hring & Hx & _).
    destruct (update_state_at_ring k_cyc_to_us_floor32 cfg
                (uint32 (k_cycle_get_32 s.1.1).1) s.1.2) as (Hk & Hi).
    rewrite Hi, Hk, Hx, Hring, Hcur, Hclk.
    split; [reflexivity|]. split; [reflexivity|]. rewrite Hrun. discriminate.
Qed.

End CycleProperties.

(** ** Polling loop *)

Section SleepProperties.

Variable k_cyc_to_us_floor32 : Z → Z.
Variable cfg : input_kbd_matrix_common_config.

Lemma wait_period_le cycles_diff :
  wait_period k_cyc_to_us_floor32 cfg cycles_diff ≤ poll_period_us cfg.
Proof. unfold wait_period, USEC_PER_MSEC. case_ltb. Qed.

Lemma wait_period_ge cycles_diff :
  USEC_PER_MSEC ≤ poll_period_us cfg →
  USEC_PER_MSEC ≤ wait_period k_cyc_to_us_floor32 cfg cycles_diff.
Proof. unfold wait_period, USEC_PER_MSEC. intros H. case_ltb. Qed.

(** C2, as the code has it: the sleep of a cycle is never more than
    [poll_period_us], and at least one millisecond when [poll_period_us]
    is; when the processing time does not exceed [poll_period_us] the sleep
    is what is left of the period, raised to one millisecond when less is
    left; when the processing time exceeds [poll_period_us], or when for
    any reason the computed 32-bit difference exceeds [poll_period_us], the
    full [poll_period_us] is slept. *)
Theorem wait_period_clamped cycles_diff :
  0 ≤ poll_period_us cfg < 4294967296 →
  let elapsed := uint32 (k_cyc_to_us_floor32 cycles_diff) in
  let sleep := wait_period k_cyc_to_us_floor32 cfg cycles_diff in
  sleep ≤ poll_period_us cfg
  ∧ (USEC_PER_MSEC ≤ poll_period_us cfg → USEC_PER_MSEC ≤ sleep)
  ∧ (elapsed ≤ poll_period_us cfg →
     sleep = Z.min (poll_period_us cfg)
                   (Z.max (poll_period_us cfg - elapsed) USEC_PER_MSEC))
  ∧ (poll_period_us cfg < elapsed → sleep = poll_period_us cfg)
  ∧ (poll_period_us cfg < uint32 (poll_period_us cfg - elapsed) →
     sleep = poll_period_us cfg).
Proof.
  intros Hp elapsed sleep. subst sleep. unfold wait_period. fold elapsed.
  pose proof (uint32_range (k_cyc_to_us_floor32 cycles_diff)) as He.
  fold elapsed in He.
  pose proof (uint32_range (poll_period_us cfg - elapsed)) as Hw.
  unfold USEC_PER_MSEC.
  split_frame.
  - case_ltb.
  - intros H1000.
    case_ltb.
  - intros Hle. rewrite uint32_small by lia.
    case_ltb.
  - intros Hlt.
    assert (Hwrap : uint32 (poll_period_us cfg - elapsed)
                    = poll_period_us cfg - elapsed + 4294967296).
    { unfold uint32. symmetry.
      apply (Z.mod_unique _ _ (-1)); lia. }
    rewrite Hwrap.
    case_ltb.
  - intros Hlt.
    case_ltb.
Qed.

End SleepProperties.

Section PollProperties.

Context {W T : Type}.
Variable api : input_kbd_matrix_api W.
Variable k_busy_wait : Z → W → W.
Variable k_cycle_get_32 : W → Z * W.
Variable k_cyc_to_us_floor32 : Z → Z.
Variable k_usleep : Z → W → W.
Variable sys_timepoint_calc : Z → W → T * W.
Variable sys_timepoint_expired : T → W → bool * W.
Variable INPUT_KBD_MATRIX_SCAN_OCURRENCES : Z.
Variable cfg : input_kbd_matrix_common_config.

Local Abbreviation advance :=
  (advance_and_scan api k_busy_wait INPUT_KBD_MATRIX_SCAN_OCURRENCES cfg).
Local Abbreviation check_key_events :=
  (input_kbd_matrix_check_key_events api k_busy_wait k_cycle_get_32
     k_cyc_to_us_floor32 INPUT_KBD_MATRIX_SCAN_OCURRENCES cfg).
Local Abbreviation decide :=
  (poll_decide api k_busy_wait k_cycle_get_32 k_cyc_to_us_floor32
     sys_timepoint_calc sys_timepoint_expired
     INPUT_KBD_MATRIX_SCAN_OCURRENCES cfg).
Local Abbreviation sleep :=
  (poll_sleep (T := T) k_cycle_get_32 k_cyc_to_us_floor32 k_usleep cfg).
Local Abbreviation iteration :=
  (poll_iteration api k_busy_wait k_cycle_get_32 k_cyc_to_us_floor32 k_usleep
     sys_timepoint_calc sys_timepoint_expired
     INPUT_KBD_MATRIX_SCAN_OCURRENCES cfg).
Local Abbreviation world_at_decision :=
  (decision_world (T := T) api k_busy_wait k_cycle_get_32 k_cyc_to_us_floor32
     INPUT_KBD_MATRIX_SCAN_OCURRENCES cfg).
Local Abbreviation active :=
  (cycle_active (T := T) api k_busy_wait k_cycle_get_32 k_cyc_to_us_floor32
     INPUT_KBD_MATRIX_SCAN_OCURRENCES cfg).

(** The state at the decision, when the cycle saw a key and when not. *)
Lemma poll_decide_active s :
  active s = true →
  ∃ start,
    decide s
    = (start,
       {| poll_time_end :=
            (sys_timepoint_calc (poll_timeout_ms cfg) (world_at_decision s)).1;
          poll_world :=
            (sys_timepoint_calc (poll_timeout_ms cfg) (world_at_decision s)).2;
          poll_matrix :=
            (check_key_events (k_cycle_get_32 (poll_world s)).2
                              (poll_matrix s)).1.1.2;
          poll_reports :=
            poll_reports s
            ++ (check_key_events (k_cycle_get_32 (poll_world s)).2
                                 (poll_matrix s)).1.2 |},
       true, false).
Proof.
  unfold cycle_active, decision_world, poll_decide. intros Hact.
  destruct (k_cycle_get_32 (poll_world s)) as [start w]. simpl in *.
  destruct (check_key_events w (poll_matrix s)) as [[[w1 m1] evs] key].
  simpl in *. subst key.
  destruct (sys_timepoint_calc _ w1) as [tp w2]. simpl. now eexists.
Qed.

Lemma poll_decide_quiet s :
  active s = false →
  ∃ start,
    decide s
    = (start,
       {| poll_time_end := poll_time_end s;
          poll_world :=
            (sys_timepoint_expired (poll_time_end s) (world_at_decision s)).2;
          poll_matrix :=
            (check_key_events (k_cycle_get_32 (poll_world s)).2
                              (poll_matrix s)).1.1.2;
          poll_reports :=
            poll_reports s
            ++ (check_key_events (k_cycle_get_32 (poll_world s)).2
                                 (poll_matrix s)).1.2 |},
       false,
       (sys_timepoint_expired (poll_time_end s) (world_at_decision s)).1).
Proof.
  unfold cycle_active, decision_world, poll_decide. intros Hact.
  destruct (k_cycle_get_32 (poll_world s)) as [start w]. simpl in *.
  destruct (check_key_events w (poll_matrix s)) as [[[w1 m1] evs] key].
  simpl in *. subst key.
  destruct (sys_timepoint_expired _ w1) as [ex w2]. simpl. now eexists.
Qed.

Lemma poll_sleep_frame start s :
  poll_time_end (sleep start s) = poll_time_end s
  ∧ poll_matrix (sleep start s) = poll_matrix s
  ∧ poll_reports (sleep start s) = poll_reports s.
Proof.
  unfold poll_sleep. destruct (k_cycle_get_32 (poll_world s)). now split.
Qed.

(** An iteration breaks exactly when its cycle saw no key and the deadline
    has expired at the decision. *)
Lemma poll_iteration_breaks s :
  (∃ s', iteration s = inl s') ↔
  active s = false
  ∧ (sys_timepoint_expired (poll_time_end s) (world_at_decision s)).1 = true.
Proof.
  unfold poll_iteration. destruct (active s) eqn:Hact.
  - destruct (poll_decide_active s Hact) as [start ->].
    split; [intros [s' [=]] | intros [[=] _]].
  - destruct (poll_decide_quiet s Hact) as [start ->].
    destruct (sys_timepoint_expired _ _).1;
      split; [eauto | eauto | intros [s' [=]] | intros [_ [=]]].
Qed.

(** An iteration whose cycle saw a key goes on with a fresh deadline. *)
Lemma poll_iteration_active s :
  active s = true →
  ∃ s', iteration s = inr s'
        ∧ poll_time_end s'
          = (sys_timepoint_calc (poll_timeout_ms cfg) (world_at_decision s)).1.
Proof.
  intros Hact. unfold poll_iteration.
  destruct (poll_decide_active s Hact) as [start ->].
  eexists. split; [reflexivity|].
  now destruct (poll_sleep_frame start
                  {| poll_time_end :=
                       (sys_timepoint_calc (poll_timeout_ms cfg)
                                           (world_at_decision s)).1;
                     poll_world :=
                       (sys_timepoint_calc (poll_timeout_ms cfg)
                                           (world_at_decision s)).2;
                     poll_matrix :=
                       (check_key_events (k_cycle_get_32 (poll_world s)).2
                                         (poll_matrix s)).1.1.2;
                     poll_reports :=
                       poll_reports s
                       ++ (check_key_events (k_cycle_get_32 (poll_world s)).2
                                            (poll_matrix s)).1.2 |})
    as (-> & _).
Qed.

(** C4: in a cycle where the ghosting check is enabled and the detector
    reports ghosting on the scanned snapshot, the update of the debounce
    engine does not run: the previous, unstable and stable states, the
    per-key stamp indices and the timestamp ring are those of before the
    cycle and no report is made; the flag returned is the one of the scan,
    and when it says that a key is active the polling loop goes on with a
    deadline computed afresh. *)
Theorem ghosting_veto_skips_update s :
  let w := (k_cycle_get_32 (poll_world s)).2 in
  let m := poll_matrix s in
  let res := check_key_events w m in
  ghostkey_check cfg = true →
  input_kbd_matrix_ghosting cfg (advance w m).1.2 = true →
  matrix_previous_state res.1.1.2 = matrix_previous_state m
  ∧ matrix_unstable_state res.1.1.2 = matrix_unstable_state m
  ∧ matrix_stable_state res.1.1.2 = matrix_stable_state m
  ∧ scan_cycle_idx res.1.1.2 = scan_cycle_idx m
  ∧ scan_clk_cycle res.1.1.2 = scan_clk_cycle m
  ∧ res.1.2 = []
  ∧ res.2 = (advance w m).2
  ∧ (res.2 = true →
     ∃ s', iteration s = inr s'
           ∧ poll_time_end s'
             = (sys_timepoint_calc (poll_timeout_ms cfg) res.1.1.1).1
           ∧ poll_reports s' = poll_reports s
           ∧ matrix_stable_state (poll_matrix s') = matrix_stable_state m).
Proof.
  intros w m res Hcheck Hghost.
  destruct (advance_and_scan_frame api k_busy_wait
              INPUT_KBD_MATRIX_SCAN_OCURRENCES cfg w m) as [ns Hadv].
  destruct (check_key_events_cases api k_busy_wait k_cycle_get_32
              k_cyc_to_us_floor32 INPUT_KBD_MATRIX_SCAN_OCURRENCES cfg w m)
    as [[_ Hres] | [Hno _]];
    [|rewrite Hcheck, Hghost in Hno; discriminate].
  assert (Hm : res.1.1.2 = (advance w m).1.2) by (subst res; now rewrite Hres).
  assert (Hevs : res.1.2 = []) by (subst res; now rewrite Hres).
  assert (Hflag : res.2 = (advance w m).2) by (subst res; now rewrite Hres).
  rewrite Hm, Hadv. simpl. split_frame; try reflexivity; try assumption.
  intros Hact.
  assert (Hactive : active s = true) by exact Hact.
  unfold poll_iteration.
  destruct (poll_decide_active s Hactive) as [start ->].
  eexists. split; [reflexivity|].
  match goal with
  | |- context [sleep start ?st] =>
      destruct (poll_sleep_frame start st) as (-> & -> & ->)
  end.
  simpl. fold w m res. rewrite Hevs, Hm, Hadv, app_nil_r. now split_frame.
Qed.

End PollProperties.

(** ** Leaving the polling loop *)

Section IdleTiming.

Context {W : Type}.
Variable api : input_kbd_matrix_api W.
Variable k_busy_wait : Z → W → W.
Variable k_cycle_get_32 : W → Z * W.
Variable k_cyc_to_us_floor32 : Z → Z.
Variable k_usleep : Z → W → W.
Variable sys_timepoint_calc : Z → W → Z * W.
Variable sys_timepoint_expired : Z → W → bool * W.
Variable INPUT_KBD_MATRIX_SCAN_OCURRENCES : Z.
Variable cfg : input_kbd_matrix_common_config.
Variable clock : W → Z.

Local Abbreviation scan := (input_kbd_matrix_scan api k_busy_wait cfg).
Local Abbreviation check_key_events :=
  (input_kbd_matrix_check_key_events api k_busy_wait k_cycle_get_32
     k_cyc_to_us_floor32 INPUT_KBD_MATRIX_SCAN_OCURRENCES cfg).
Local Abbreviation iteration :=
  (poll_iteration api k_busy_wait k_cycle_get_32 k_cyc_to_us_floor32 k_usleep
     sys_timepoint_calc sys_timepoint_expired
     INPUT_KBD_MATRIX_SCAN_OCURRENCES cfg).
Local Abbreviation loop :=
  (poll_loop api k_busy_wait k_cycle_get_32 k_cyc_to_us_floor32 k_usleep
     sys_timepoint_calc sys_timepoint_expired
     INPUT_KBD_MATRIX_SCAN_OCURRENCES cfg).
Local Abbreviation poll :=
  (input_kbd_matrix_poll api k_busy_wait k_cycle_get_32 k_cyc_to_us_floor32
     k_usleep sys_timepoint_calc sys_timepoint_expired
     INPUT_KBD_MATRIX_SCAN_OCURRENCES cfg).
Local Abbreviation world_at_decision :=
  (decision_world (T := Z) api k_busy_wait k_cycle_get_32 k_cyc_to_us_floor32
     INPUT_KBD_MATRIX_SCAN_OCURRENCES cfg).
Local Abbreviation active :=
  (cycle_active (T := Z) api k_busy_wait k_cycle_get_32 k_cyc_to_us_floor32
     INPUT_KBD_MATRIX_SCAN_OCURRENCES cfg).

Section ClockSteps.

Variable R : Z → Z → Prop.
Hypothesis R_refl : ∀ x, R x x.
Hypothesis R_trans : ∀ x y z, R x y → R y z → R x z.
Hypothesis steps : clock_steps clock R api k_busy_wait k_cycle_get_32.

Lemma scan_columns_clock l : ∀ w ns ke,
  R (clock w)
    (clock (fold_left (scan_column api k_busy_wait cfg) l (w, ns, ke)).1.1).
Proof.
  induction l as [|col l IH]; intros w ns ke; simpl; [apply R_refl|].
  destruct (read_row api _) as [raw w1] eqn:Hread.
  eapply R_trans; [|apply IH].
  eapply R_trans; [apply (clock_drive_column _ _ _ _ _ steps (DRIVE_COLUMN col))|].
  eapply R_trans; [apply (clock_busy_wait _ _ _ _ _ steps (settle_time_us cfg))|].
  pose proof (clock_read_row _ _ _ _ _ steps
                (k_busy_wait (settle_time_us cfg)
                             (drive_column api (DRIVE_COLUMN col) w))) as H.
  now rewrite Hread in H.
Qed.

Lemma scan_clock w m : R (clock w) (clock (scan w m).1.1).
Proof.
  unfold input_kbd_matrix_scan.
  pose proof (scan_columns_clock (seq 0 (col_size cfg)) w
                                 (matrix_new_state m) 0) as H.
  destruct (fold_left _ _ _) as [[w1 ns] ke]. simpl in *.
  eapply R_trans; [exact H|]. apply (clock_drive_column _ _ _ _ _ steps).
Qed.

Lemma check_key_events_clock w m :
  R (clock w) (clock (check_key_events w m).1.1.1).
Proof.
  destruct (check_key_events_cases api k_busy_wait k_cycle_get_32
              k_cyc_to_us_floor32 INPUT_KBD_MATRIX_SCAN_OCURRENCES cfg w m)
    as [[_ ->] | [_ ->]]; simpl.
  - apply scan_clock.
  - eapply R_trans; [apply scan_clock|].
    apply (clock_cycle_get _ _ _ _ _ steps).
Qed.

Lemma decision_world_clock (s : poll_state) :
  R (clock (poll_world s)) (clock (world_at_decision s)).
Proof.
  unfold decision_world.
  eapply R_trans; [apply (clock_cycle_get _ _ _ _ _ steps)|].
  apply check_key_events_clock.
Qed.

End ClockSteps.

(** With no key sensed, a scan cycle reports no activity. *)
Lemma scan_columns_quiet l : ∀ w ns,
  no_key_sensed api →
  (fold_left (scan_column api k_busy_wait cfg) l (w, ns, 0)).2 = 0.
Proof.
  induction l as [|col l IH]; intros w ns Hquiet; simpl; [reflexivity|].
  pose proof (Hquiet (k_busy_wait (settle_time_us cfg)
                        (drive_column api (DRIVE_COLUMN col) w))) as H0.
  destruct (read_row api _) as [raw w1]. simpl in H0. rewrite H0.
  now apply IH.
Qed.

Lemma cycle_quiet (s : poll_state) : no_key_sensed api → active s = false.
Proof.
  intros Hquiet. unfold cycle_active.
  set (w := (k_cycle_get_32 (poll_world s)).2).
  assert (Hscan : ∀ w m, (scan w m).2 = false).
  { intros w' m'. unfold input_kbd_matrix_scan.
    pose proof (scan_columns_quiet (seq 0 (col_size cfg)) w'
                                   (matrix_new_state m') Hquiet) as H.
    destruct (fold_left _ _ _) as [[w1 ns] ke]. simpl in *. now rewrite H. }
  destruct (check_key_events_cases api k_busy_wait k_cycle_get_32
              k_cyc_to_us_floor32 INPUT_KBD_MATRIX_SCAN_OCURRENCES cfg w
              (poll_matrix s)) as [[_ ->] | [_ ->]]; simpl; apply Hscan.
Qed.

Hypothesis kernel : timed_kernel clock sys_timepoint_calc sys_timepoint_expired.

(** An iteration that goes on: where it leaves the world and the
    deadline. *)
Lemma poll_iteration_goes_on s s' :
  iteration s = inr s' →
  (∃ cycles_diff,
     poll_world s'
     = k_usleep (wait_period k_cyc_to_us_floor32 cfg cycles_diff)
                (k_cycle_get_32 (world_at_decision s)).2)
  ∧ poll_time_end s'
    = (if active s
       then clock (world_at_decision s) + poll_timeout_ms cfg * USEC_PER_MSEC
       else poll_time_end s)
  ∧ (active s = false → clock (world_at_decision s) < poll_time_end s).
Proof.
  unfold poll_iteration. destruct (active s) eqn:Hact.
  - destruct (poll_decide_active api k_busy_wait k_cycle_get_32
                k_cyc_to_us_floor32 sys_timepoint_calc sys_timepoint_expired
                INPUT_KBD_MATRIX_SCAN_OCURRENCES cfg s Hact) as [start ->].
    rewrite (timepoint_calc_now _ _ _ kernel). simpl. intros [= <-].
    unfold poll_sleep. simpl.
    destruct (k_cycle_get_32 (world_at_decision s)) as [cur w2]. simpl.
    split; [eexists; reflexivity|]. split; [reflexivity | discriminate].
  - destruct (poll_decide_quiet api k_busy_wait k_cycle_get_32
                k_cyc_to_us_floor32 sys_timepoint_calc sys_timepoint_expired
                INPUT_KBD_MATRIX_SCAN_OCURRENCES cfg s Hact) as [start ->].
    rewrite (timepoint_expired_now _ _ _ kernel). simpl.
    destruct (Z.leb_spec (poll_time_end s) (clock (world_at_decision s)));
      [discriminate|]. intros [= <-].
    unfold poll_sleep. simpl.
    destruct (k_cycle_get_32 (world_at_decision s)) as [cur w2]. simpl.
    split; [eexists; reflexivity|]. split; [reflexivity | intros _; lia].
Qed.

(** An iteration that breaks: the cycle saw no key and the decision was
    taken at or after the deadline. *)
Lemma poll_iteration_break s s' :
  iteration s = inl s' →
  active s = false
  ∧ poll_time_end s ≤ clock (world_at_decision s)
  ∧ poll_world s' = world_at_decision s
  ∧ poll_time_end s' = poll_time_end s.
Proof.
  unfold poll_iteration. destruct (active s) eqn:Hact.
  - destruct (poll_decide_active api k_busy_wait k_cycle_get_32
                k_cyc_to_us_floor32 sys_timepoint_calc sys_timepoint_expired
                INPUT_KBD_MATRIX_SCAN_OCURRENCES cfg s Hact) as [start ->].
    discriminate.
  - destruct (poll_decide_quiet api k_busy_wait k_cycle_get_32
                k_cyc_to_us_floor32 sys_timepoint_calc sys_timepoint_expired
                INPUT_KBD_MATRIX_SCAN_OCURRENCES cfg s Hact) as [start ->].
    rewrite (timepoint_expired_now _ _ _ kernel). simpl.
    destruct (Z.leb_spec (poll_time_end s) (clock (world_at_decision s)));
      [|discriminate]. intros [= <-]. simpl. now split_frame.
Qed.

Lemma poll_iteration_quiet_expired s :
  active s = false → poll_time_end s ≤ clock (world_at_decision s) →
  ∃ s', iteration s = inl s'.
Proof.
  intros Hact Hexp.
  apply (poll_iteration_breaks api k_busy_wait k_cycle_get_32
           k_cyc_to_us_floor32 k_usleep sys_timepoint_calc
           sys_timepoint_expired INPUT_KBD_MATRIX_SCAN_OCURRENCES cfg).
  split; [assumption|]. rewrite (timepoint_expired_now _ _ _ kernel). simpl.
  now apply Z.leb_le.
Qed.

(** With no key sensed and time passing, the loop breaks, and no earlier
    than the deadline. *)
Lemma poll_loop_leaves n : ∀ s,
  no_key_sensed api →
  clock_steps clock Z.le api k_busy_wait k_cycle_get_32 →
  sleep_at_least clock k_usleep →
  USEC_PER_MSEC ≤ poll_period_us cfg →
  poll_time_end s - clock (poll_world s) ≤ Z.of_nat n →
  ∃ s', loop (S n) s = Some s' ∧ poll_time_end s ≤ clock (poll_world s').
Proof.
  induction n as [|n IH]; intros s Hquiet Hsteps Hsleep Hperiod Hleft.
  - pose proof (decision_world_clock Z.le Z.le_refl Z.le_trans Hsteps s).
    destruct (poll_iteration_quiet_expired s (cycle_quiet s Hquiet))
      as [s' Hs']; [lia|].
    exists s'. simpl. rewrite Hs'. split; [reflexivity|].
    apply poll_iteration_break in Hs' as (_ & Hexp & -> & _). assumption.
  - change (loop (S (S n)) s)
      with (match iteration s with
            | inl s' => Some s'
            | inr s' => loop (S n) s'
            end).
    destruct (iteration s) as [s' | s'] eqn:Hit.
    + exists s'. split; [reflexivity|].
      apply poll_iteration_break in Hit as (_ & Hexp & -> & _). assumption.
    + apply poll_iteration_goes_on in Hit as ([diff Hw] & Hend & _).
      rewrite (cycle_quiet s Hquiet) in Hend.
      pose proof (decision_world_clock Z.le Z.le_refl Z.le_trans Hsteps s).
      pose proof (clock_cycle_get _ _ _ _ _ Hsteps (world_at_decision s)).
      pose proof (Hsleep (wait_period k_cyc_to_us_floor32 cfg diff)
                         (k_cycle_get_32 (world_at_decision s)).2).
      pose proof (wait_period_ge k_cyc_to_us_floor32 cfg diff Hperiod).
      unfold USEC_PER_MSEC in *.
      destruct (IH s') as (s'' & Hloop & Hafter); try assumption.
      { rewrite Hend, Hw. lia. }
      exists s''. split; [assumption|]. now rewrite <- Hend.
Qed.

(** With no key sensed the loop breaks at or after the deadline, and, when
    a sleep lasts what is asked, either in its first iteration or less
    than a poll period and the time of a scan cycle and of a read of the
    counter after the deadline. *)
Lemma poll_loop_leaves_within d e n : ∀ s,
  no_key_sensed api →
  scan_cycle_takes clock api k_busy_wait k_cycle_get_32 k_cyc_to_us_floor32
    INPUT_KBD_MATRIX_SCAN_OCURRENCES cfg d →
  counter_read_takes clock k_cycle_get_32 e →
  sleep_exactly clock k_usleep →
  USEC_PER_MSEC ≤ poll_period_us cfg →
  poll_time_end s - clock (poll_world s) ≤ Z.of_nat n →
  ∃ s', loop (S n) s = Some s'
        ∧ poll_time_end s' = poll_time_end s
        ∧ poll_time_end s ≤ clock (poll_world s')
        ∧ (clock (poll_world s') ≤ clock (poll_world s) + d
           ∨ clock (poll_world s')
             < poll_time_end s + poll_period_us cfg + d + e).
Proof.
  induction n as [|n IH]; intros s Hquiet Hcycle Hread Hsleep Hperiod Hleft.
  - pose proof (Hcycle (poll_world s) (poll_matrix s)) as Hd.
    change (clock (poll_world s) ≤ clock (world_at_decision s)
            ≤ clock (poll_world s) + d) in Hd.
    destruct (poll_iteration_quiet_expired s (cycle_quiet s Hquiet))
      as [s' Hs']; [lia|].
    exists s'. simpl. rewrite Hs'. split; [reflexivity|].
    apply poll_iteration_break in Hs' as (_ & Hexp & -> & ->).
    split; [reflexivity|]. split; [assumption|]. left. lia.
  - pose proof (Hcycle (poll_world s) (poll_matrix s)) as Hd.
    change (clock (poll_world s) ≤ clock (world_at_decision s)
            ≤ clock (poll_world s) + d) in Hd.
    change (loop (S (S n)) s)
      with (match iteration s with
            | inl s' => Some s'
            | inr s' => loop (S n) s'
            end).
    destruct (iteration s) as [s' | s'] eqn:Hit.
    + exists s'. split; [reflexivity|].
      apply poll_iteration_break in Hit as (_ & Hexp & -> & ->).
      split; [reflexivity|]. split; [assumption|]. left. lia.
    + apply poll_iteration_goes_on in Hit as ([diff Hw] & Hend & Hbefore).
      rewrite (cycle_quiet s Hquiet) in Hend.
      specialize (Hbefore (cycle_quiet s Hquiet)).
      pose proof (Hread (world_at_decision s)) as He.
      pose proof (Hsleep (wait_period k_cyc_to_us_floor32 cfg diff)
                         (k_cycle_get_32 (world_at_decision s)).2) as Hz.
      rewrite <- Hw in Hz.
      pose proof (wait_period_ge k_cyc_to_us_floor32 cfg diff Hperiod).
      pose proof (wait_period_le k_cyc_to_us_floor32 cfg diff).
      unfold USEC_PER_MSEC in *.
      destruct (IH s') as (s'' & Hloop & Hkeep & Hafter & Hlate);
        try assumption.
      { rewrite Hend. lia. }
      exists s''. split; [assumption|]. rewrite Hkeep, Hend.
      rewrite Hend in Hafter, Hlate.
      split; [reflexivity|]. split; [assumption|]. right. lia.
Qed.


End IdleTiming.

(** ** The driver on the sample boards *)

(** C1: on the simulated board the only key is pressed in the first cycle
    and released from the second on. The release is stamped in the second
    cycle, at 1005050 cycles, and reported; in the fifth cycle, at 1020050
    cycles, the key is still marked unstable, its window closes again (the
    threshold is 10000) and its raw level is released, and line 166 leaves
    its bit of the unstable state set: [~row_bit] is all ones when the raw
    level is released. *)
Theorem unstable_bit_kept_on_release :
  let k := cyc_to_us_floor32 1000000 in
  match sim_poll_iterations 30 sample_cfg_1x1 4
          (sim_poll_start 1 1 [[1]; [0]; [0]; [0]; [0]]),
        sim_poll_iterations 30 sample_cfg_1x1 5
          (sim_poll_start 1 1 [[1]; [0]; [0]; [0]; [0]]) with
  | inr s4, inr s5 =>
      let m := set_scan_cycles_idx 5 (poll_matrix s4) in
      let m1 := gather_changes sample_cfg_1x1 1020050 m in
      matrix_new_state m = [0]
      ∧ matrix_unstable_state m = [1]
      ∧ scan_clk_cycle m !!! Z.to_nat (scan_cycle_idx m !!! 0%nat) = 1005050
      ∧ debounce_up_ms sample_cfg_1x1 ≤ k (1020050 - 1005050)
      ∧ window_closes k sample_cfg_1x1 1020050 m1 0 0 = true
      ∧ key_row_bit m1 0 0 = 0
      ∧ poll_matrix s5 = (update_state_at k sample_cfg_1x1 1020050 m).1
      ∧ transitions_of (poll_reports s5) = [(0, 0, 1); (0, 0, 0)]
      ∧ matrix_stable_state (poll_matrix s5) = [0]
      ∧ matrix_unstable_state (poll_matrix s5) = [1]
  | _, _ => False
  end.
Proof. vm_compute. split_frame; (reflexivity || discriminate). Qed.

(** C5: on the simulated board the only key toggles at every cycle, 5 ms
    apart, against thresholds of 10000; each of the four cycles reports a
    transition. Already the first cycle, which stamps the key at 1000050
    cycles and reads the counter at that same value, computes an elapsed
    time of 999936: the timestamp read back from the ring goes through a
    [uint8_t] (line 155) and only 1000050 mod 256 = 114 is subtracted. *)
Theorem toggling_key_reports_every_cycle :
  let k := cyc_to_us_floor32 1000000 in
  let first :=
    sim_check_key_events 30 sample_cfg_1x1 (sim_boot [[1]])
                         (kbd_matrix_init 1 1 30) in
  scan_clk_cycle first.1.1.2 !!! 1%nat = 1000050
  ∧ key_debt k sample_cfg_1x1 1000050 first.1.1.2 0 0 = 999936
  ∧ transitions_of first.1.2 = [(0, 0, 1)]
  ∧ match sim_poll_iterations 30 sample_cfg_1x1 4
            (sim_poll_start 1 1 [[1]; [0]; [1]; [0]]) with
    | inr s =>
        transitions_of (poll_reports s)
        = [(0, 0, 1); (0, 0, 0); (0, 0, 1); (0, 0, 0)]
        ∧ sim_now (poll_world s) = 1020000
    | inl _ => False
    end.
Proof. vm_compute. split_frame; reflexivity. Qed.

(** C2, as stated, fails: a cycle that took 6000 microseconds against a
    poll period of 5000 is followed by a sleep of the full 5000, not of one
    millisecond; and with a poll period of 500 microseconds a cycle that
    took 600 is followed by a sleep of 500, less than one millisecond. *)
Lemma overrun_sleep_counterexample :
  ¬ (poll_period_us sample_cfg_1x1 < uint32 (cyc_to_us_floor32 1000000 6000) →
     wait_period (cyc_to_us_floor32 1000000) sample_cfg_1x1 6000
     = USEC_PER_MSEC)
  ∧ ¬ (poll_period_us sample_cfg_fast
       < uint32 (cyc_to_us_floor32 1000000 600) →
       USEC_PER_MSEC
       ≤ wait_period (cyc_to_us_floor32 1000000) sample_cfg_fast 600).
Proof.
  split; intros H.
  - assert (Hlt : poll_period_us sample_cfg_1x1
                  < uint32 (cyc_to_us_floor32 1000000 6000))
      by (vm_compute; reflexivity).
    specialize (H Hlt). vm_compute in H. discriminate.
  - assert (Hlt : poll_period_us sample_cfg_fast
                  < uint32 (cyc_to_us_floor32 1000000 600))
      by (vm_compute; reflexivity).
    specialize (H Hlt). vm_compute in H. now apply H.
Qed.

(** The sleep after cycles of 6000, 4500, 50 and 7 microseconds on the
    one-key board. *)
Lemma wait_period_clamped_witness :
  0 ≤ poll_period_us sample_cfg_1x1 < 4294967296
  ∧ wait_period (cyc_to_us_floor32 1000000) sample_cfg_1x1 6000 = 5000
  ∧ wait_period (cyc_to_us_floor32 1000000) sample_cfg_1x1 4500 = 1000
  ∧ wait_period (cyc_to_us_floor32 1000000) sample_cfg_1x1 50 = 4950
  ∧ USEC_PER_MSEC ≤ wait_period (cyc_to_us_floor32 1000000) sample_cfg_1x1 7.
Proof.
  assert (Hp : 0 ≤ poll_period_us sample_cfg_1x1 < 4294967296)
    by (simpl; lia).
  split; [exact Hp|].
  destruct (wait_period_clamped (cyc_to_us_floor32 1000000) sample_cfg_1x1
                                6000 Hp) as (_ & _ & _ & Hover & Hwrap).
  destruct (wait_period_clamped (cyc_to_us_floor32 1000000) sample_cfg_1x1
                                4500 Hp) as (_ & _ & Hleft & _ & _).
  destruct (wait_period_clamped (cyc_to_us_floor32 1000000) sample_cfg_1x1
                                50 Hp) as (_ & _ & Hrest & _ & _).
  destruct (wait_period_clamped (cyc_to_us_floor32 1000000) sample_cfg_1x1
                                7 Hp) as (_ & Hfloor & _ & _ & _).
  split_frame.
  - apply Hover. vm_compute. reflexivity.
  - apply Hleft. vm_compute. discriminate.
  - apply Hrest. vm_compute. discriminate.
  - apply Hfloor. vm_compute. discriminate.
Defined.

Lemma kbd_matrix_init_wf ncol nrow n cfg :
  col_size cfg = ncol → kbd_matrix_wf cfg (kbd_matrix_init ncol nrow n).
Proof.
  intros <-.
  assert (H : uint8_array (col_size cfg) (replicate (col_size cfg) 0)).
  { split; [apply length_replicate|]. apply Forall_replicate. lia. }
  now constructor.
Qed.

Lemma sample_pressed_wf : kbd_matrix_wf sample_cfg_1x1 sample_pressed.
Proof.
  assert (H0 : uint8_array 1 [0]) by (split; [reflexivity | repeat constructor; lia]).
  assert (H1 : uint8_array 1 [1]) by (split; [reflexivity | repeat constructor; lia]).
  now constructor.
Qed.

Lemma sample_flicker_wf : kbd_matrix_wf sample_cfg_1x1 sample_flicker.
Proof.
  assert (H0 : uint8_array 1 [0]) by (split; [reflexivity | repeat constructor; lia]).
  assert (H1 : uint8_array 1 [1]) by (split; [reflexivity | repeat constructor; lia]).
  now constructor.
Qed.

(** A scan of the 2x2 board with one key pressed in each column. *)
Lemma scan_writes_snapshot_only_witness :
  length (matrix_new_state (kbd_matrix_init 2 2 30)) = col_size sample_cfg_2x2
  ∧ matrix_new_state
      (input_kbd_matrix_scan sim_api sim_advance sample_cfg_2x2
         (sim_boot [[1; 2]]) (kbd_matrix_init 2 2 30)).1.2
    = [1; 2]
  ∧ (input_kbd_matrix_scan sim_api sim_advance sample_cfg_2x2
       (sim_boot [[1; 2]]) (kbd_matrix_init 2 2 30)).2 = true.
Proof.
  assert (Hlen : length (matrix_new_state (kbd_matrix_init 2 2 30))
                 = col_size sample_cfg_2x2) by reflexivity.
  split; [exact Hlen|].
  destruct (scan_writes_snapshot_only sim_api sim_advance sample_cfg_2x2
              (sim_boot [[1; 2]]) (kbd_matrix_init 2 2 30) Hlen)
    as (_ & _ & Hsnap & Hflag & _).
  split; [exact Hsnap|]. apply Hflag. vm_compute. discriminate.
Defined.

(** A window that closes on a changed level, and one that closes on a
    flicker. *)
Lemma window_close_reports_change_once_witness :
  kbd_matrix_wf sample_cfg_1x1 sample_pressed
  ∧ window_closes (cyc_to_us_floor32 1000000) sample_cfg_1x1 20100
      (gather_changes sample_cfg_1x1 20100 sample_pressed) 0 0 = true
  ∧ transitions_for 0 0
      (transitions_of
         (update_state_at (cyc_to_us_floor32 1000000) sample_cfg_1x1 20100
                          sample_pressed).2)
    = [(0, 0, 1)]
  ∧ kbd_matrix_wf sample_cfg_1x1 sample_flicker
  ∧ window_closes (cyc_to_us_floor32 1000000) sample_cfg_1x1 20100
      (gather_changes sample_cfg_1x1 20100 sample_flicker) 0 0 = true
  ∧ transitions_for 0 0
      (transitions_of
         (update_state_at (cyc_to_us_floor32 1000000) sample_cfg_1x1 20100
                          sample_flicker).2)
    = [].
Proof.
  assert (Hclose : window_closes (cyc_to_us_floor32 1000000) sample_cfg_1x1
                     20100 (gather_changes sample_cfg_1x1 20100 sample_pressed)
                     0 0 = true) by (vm_compute; reflexivity).
  assert (Hclose' : window_closes (cyc_to_us_floor32 1000000) sample_cfg_1x1
                      20100 (gather_changes sample_cfg_1x1 20100 sample_flicker)
                      0 0 = true) by (vm_compute; reflexivity).
  split; [exact sample_pressed_wf|]. split; [exact Hclose|].
  destruct (window_close_reports_change_once (cyc_to_us_floor32 1000000)
              sample_cfg_1x1 20100 sample_pressed 0 0 sample_pressed_wf
              ltac:(simpl; lia) ltac:(simpl; lia) Hclose) as [_ Hflip].
  destruct (window_close_reports_change_once (cyc_to_us_floor32 1000000)
              sample_cfg_1x1 20100 sample_flicker 0 0 sample_flicker_wf
              ltac:(simpl; lia) ltac:(simpl; lia) Hclose') as [Hkeep _].
  destruct Hflip as (_ & Hone & _); [vm_compute; discriminate|].
  destruct Hkeep as (_ & Hnone); [vm_compute; reflexivity|].
  split; [exact Hone|]. split; [exact sample_flicker_wf|].
  split; [exact Hclose' | exact Hnone].
Defined.

(** The first cycle of the one-key board with its key pressed. *)
Lemma stable_state_flips_match_transitions_witness :
  kbd_matrix_wf sample_cfg_1x1 (kbd_matrix_init 1 1 30)
  ∧ transitions_for 0 0
      (transitions_of
         (sim_check_key_events 30 sample_cfg_1x1 (sim_boot [[1]])
                               (kbd_matrix_init 1 1 30)).1.2)
    = [(0, 0, 1)].
Proof.
  assert (Hwf : kbd_matrix_wf sample_cfg_1x1 (kbd_matrix_init 1 1 30))
    by now apply kbd_matrix_init_wf.
  split; [exact Hwf|].
  destruct (stable_state_flips_match_transitions sim_api sim_advance
              sim_cycle_get_32 (cyc_to_us_floor32 1000000) 30 sample_cfg_1x1
              (sim_boot [[1]]) (kbd_matrix_init 1 1 30) Hwf)
    as (_ & _ & _ & _ & Hfor).
  exact (Hfor 0%nat 0%nat).
Defined.

(** A vetoed cycle and a cycle that runs the update, on the 2x2 board. *)
Lemma vetoed_cycle_keeps_stale_timestamp_witness :
  1 < 30 ≤ 256
  ∧ 0 ≤ scan_cycles_idx (kbd_matrix_init 2 2 30) < 30
  ∧ scan_cycles_idx
      (sim_check_key_events 30 sample_cfg_2x2 (sim_boot [[3; 3]])
                            (kbd_matrix_init 2 2 30)).1.1.2 = 1
  ∧ scan_clk_cycle
      (sim_check_key_events 30 sample_cfg_2x2 (sim_boot [[3; 3]])
                            (kbd_matrix_init 2 2 30)).1.1.2
    = replicate 30 0
  ∧ scan_clk_cycle
      (sim_check_key_events 30 sample_cfg_2x2 (sim_boot [[1; 2]])
                            (kbd_matrix_init 2 2 30)).1.1.2
    = <[1%nat := 1000100]> (replicate 30 0).
Proof.
  assert (HN : 1 < 30 ≤ 256) by lia.
  assert (Hidx : 0 ≤ scan_cycles_idx (kbd_matrix_init 2 2 30) < 30)
    by (simpl; lia).
  split; [exact HN|]. split; [exact Hidx|].
  destruct (vetoed_cycle_keeps_stale_timestamp sim_api sim_advance
              sim_cycle_get_32 (cyc_to_us_floor32 1000000) 30 sample_cfg_2x2
              (sim_boot [[3; 3]]) (kbd_matrix_init 2 2 30) HN Hidx)
    as (_ & Hcursor & _ & Hveto & _).
  destruct (vetoed_cycle_keeps_stale_timestamp sim_api sim_advance
              sim_cycle_get_32 (cyc_to_us_floor32 1000000) 30 sample_cfg_2x2
              (sim_boot [[1; 2]]) (kbd_matrix_init 2 2 30) HN Hidx)
    as (_ & _ & Hrun & _).
  split; [exact Hcursor|].
  destruct Hveto as (Hring & _); [vm_compute; reflexivity|].
  split; [exact Hring|]. apply Hrun. vm_compute. reflexivity.
Defined.

(** A cycle of the 2x2 board with all four keys read pressed. *)
Lemma ghosting_veto_skips_update_witness :
  ghostkey_check sample_cfg_2x2 = true
  ∧ input_kbd_matrix_ghosting sample_cfg_2x2
      (advance_and_scan sim_api sim_advance 30 sample_cfg_2x2
         (sim_cycle_get_32 (poll_world (sim_poll_start 2 2 [[3; 3]]))).2
         (poll_matrix (sim_poll_start 2 2 [[3; 3]]))).1.2 = true
  ∧ (sim_check_key_events 30 sample_cfg_2x2
       (sim_cycle_get_32 (poll_world (sim_poll_start 2 2 [[3; 3]]))).2
       (poll_matrix (sim_poll_start 2 2 [[3; 3]]))).1.2 = []
  ∧ (sim_check_key_events 30 sample_cfg_2x2
       (sim_cycle_get_32 (poll_world (sim_poll_start 2 2 [[3; 3]]))).2
       (poll_matrix (sim_poll_start 2 2 [[3; 3]]))).2 = true.
Proof.
  assert (Hcheck : ghostkey_check sample_cfg_2x2 = true) by reflexivity.
  assert (Hghost : input_kbd_matrix_ghosting sample_cfg_2x2
      (advance_and_scan sim_api sim_advance 30 sample_cfg_2x2
         (sim_cycle_get_32 (poll_world (sim_poll_start 2 2 [[3; 3]]))).2
         (poll_matrix (sim_poll_start 2 2 [[3; 3]]))).1.2 = true)
    by (vm_compute; reflexivity).
  split; [exact Hcheck|]. split; [exact Hghost|].
  destruct (ghosting_veto_skips_update sim_api sim_advance sim_cycle_get_32
              (cyc_to_us_floor32 1000000) sim_advance sim_timepoint_calc
              sim_timepoint_expired 30 sample_cfg_2x2
              (sim_poll_start 2 2 [[3; 3]]) Hcheck Hghost)
    as (_ & _ & _ & _ & _ & Hnone & Hflag & _).
  split; [exact Hnone|].
  etransitivity; [exact Hflag | vm_compute; reflexivity].
Defined.

Lemma idle_timed_kernel :
  timed_kernel (λ w : Z, w) idle_timepoint_calc idle_timepoint_expired.
Proof. constructor; reflexivity. Qed.

(** On the idle board whose settle time takes time, a scan cycle takes
    the settle time once per column. *)
Lemma settling_scan_columns cfg l : ∀ w ns ke,
  (fold_left (scan_column idle_api settling_busy_wait cfg) l (w, ns, ke)).1.1
  = w + Z.of_nat (length l) * settle_time_us cfg.
Proof.
  induction l as [|col l IH]; intros w ns ke; simpl length; [simpl; lia|].
  cbn [fold_left]. unfold scan_column at 2. cbn.
  rewrite IH. unfold settling_busy_wait. lia.
Qed.

Lemma settling_scan_cycle_takes cfg :
  0 ≤ settle_time_us cfg →
  scan_cycle_takes (λ w : Z, w) idle_api settling_busy_wait idle_cycle_get_32
    (cyc_to_us_floor32 1000000) 30 cfg
    (Z.of_nat (col_size cfg) * settle_time_us cfg).
Proof.
  intros Hsettle w m.
  assert (Hscan : ∀ w m,
            (input_kbd_matrix_scan idle_api settling_busy_wait cfg w m).1.1
            = w + Z.of_nat (col_size cfg) * settle_time_us cfg).
  { intros w' m'. unfold input_kbd_matrix_scan.
    pose proof (settling_scan_columns cfg (seq 0 (col_size cfg)) w'
                  (matrix_new_state m') 0) as H.
    rewrite length_seq in H.
    destruct (fold_left _ _ _) as [[w1 ns] ke]. simpl in *. exact H. }
  destruct (check_key_events_cases idle_api settling_busy_wait
              idle_cycle_get_32 (cyc_to_us_floor32 1000000) 30
              cfg (idle_cycle_get_32 w).2 m)
    as [[_ ->] | [_ ->]]; cbn [fst snd idle_cycle_get_32];
    unfold advance_and_scan; cbn [fst snd]; rewrite Hscan; nia.
Qed.



(** * Further properties of the driver *)

(** ** Bits of [uint8_t] values *)

Lemma uint8_fixed x :
  0 ≤ x → (∀ r, row_level x r = true → (r < 8)%nat) → uint8 x = x.
Proof.
  intros Hx Hhigh. apply Z.bits_inj'. intros i Hi. rewrite uint8_testbit.
  destruct (Z.ltb_spec i 8); [reflexivity|]. simpl. symmetry.
  destruct (Z.testbit x i) eqn:Hb; [|reflexivity].
  specialize (Hhigh (Z.to_nat i)). unfold row_level in Hhigh.
  rewrite Z2Nat.id in Hhigh by assumption. specialize (Hhigh Hb). lia.
Qed.

Lemma uint8_lxor a b :
  0 ≤ a < 256 → 0 ≤ b < 256 → uint8 (Z.lxor a b) = Z.lxor a b.
Proof.
  intros Ha Hb. apply uint8_fixed; [apply Z.lxor_nonneg; lia|].
  intros r. unfold row_level. rewrite Z.lxor_spec.
  fold (row_level a r) (row_level b r).
  destruct (row_level a r) eqn:Hra; [intros _; now apply (row_level_high a)|].
  destruct (row_level b r) eqn:Hrb; [intros _; now apply (row_level_high b)|].
  discriminate.
Qed.

Lemma uint8_lor a b :
  0 ≤ a < 256 → 0 ≤ b < 256 → uint8 (Z.lor a b) = Z.lor a b.
Proof.
  intros Ha Hb. apply uint8_small. now apply lor_uint8.
Qed.

Lemma land_BIT x r : Z.land x (BIT r) = level_bit (row_level x r) r.
Proof.
  apply Z.bits_inj'. intros i _. unfold BIT.
  rewrite Z.land_spec, Z.shiftl_1_l, level_bit_bits, Z.pow2_bits_eqb by lia.
  destruct (Z.eqb_spec (Z.of_nat r) i) as [<- | Hne].
  - rewrite Z.eqb_refl. reflexivity.
  - destruct (Z.eqb_spec i (Z.of_nat r)); [lia|]. now rewrite !andb_false_r.
Qed.

Lemma land_BIT_test x r : (Z.land x (BIT r) =? 0) = negb (row_level x r).
Proof.
  rewrite land_BIT. unfold level_bit. destruct (row_level x r); [|reflexivity].
  assert (0 < 2 ^ Z.of_nat r) by (apply Z.pow_pos_nonneg; lia).
  destruct (Z.eqb_spec (2 ^ Z.of_nat r) 0); [lia | reflexivity].
Qed.

Lemma row_level_lxor a b r :
  row_level (Z.lxor a b) r = xorb (row_level a r) (row_level b r).
Proof. unfold row_level. apply Z.lxor_spec. Qed.

Lemma row_level_lor a b r :
  row_level (Z.lor a b) r = row_level a r || row_level b r.
Proof. unfold row_level. apply Z.lor_spec. Qed.

(** ** The per-key index *)

Lemma cyc_idx_small cfg c r :
  (col_size cfg * row_size cfg ≤ 256)%nat →
  (c < col_size cfg)%nat → (r < row_size cfg)%nat →
  cyc_idx cfg c r = (c * row_size cfg + r)%nat
  ∧ (cyc_idx cfg c r < col_size cfg * row_size cfg)%nat.
Proof.
  intros Hkeys Hc Hr.
  assert (Hlt : (c * row_size cfg + r < col_size cfg * row_size cfg)%nat) by nia.
  unfold cyc_idx.
  replace (Z.of_nat c * Z.of_nat (row_size cfg) + Z.of_nat r)
    with (Z.of_nat (c * row_size cfg + r)) by lia.
  rewrite uint8_small by lia. rewrite Nat2Z.id. split; [reflexivity | lia].
Qed.

Lemma cyc_idx_inj cfg c r c' r' :
  (col_size cfg * row_size cfg ≤ 256)%nat →
  (c < col_size cfg)%nat → (r < row_size cfg)%nat →
  (c' < col_size cfg)%nat → (r' < row_size cfg)%nat →
  cyc_idx cfg c r = cyc_idx cfg c' r' → c = c' ∧ r = r'.
Proof.
  intros Hkeys Hc Hr Hc' Hr' Heq.
  destruct (cyc_idx_small cfg c r Hkeys Hc Hr) as [E1 _].
  destruct (cyc_idx_small cfg c' r' Hkeys Hc' Hr') as [E2 _].
  rewrite E1, E2 in Heq.
  assert (Hdiv : ∀ x y, (y < row_size cfg)%nat →
                        ((x * row_size cfg + y) / row_size cfg = x)%nat).
  { intros x y Hy. rewrite Nat.div_add_l by lia.
    rewrite Nat.div_small by assumption. lia. }
  assert (Hcc : c = c')
    by (rewrite <- (Hdiv c r Hr), <- (Hdiv c' r' Hr'); now rewrite Heq).
  subst c'. split; [reflexivity | lia].
Qed.

(** ** The first loop *)

Section GatherProperties.

Variable cfg : input_kbd_matrix_common_config.

(** The stamps of lines 120-130 for the rows [a .. a + n - 1] of column
    [c]. *)
Lemma stamp_keys_spec c rc n : ∀ a m,
  (col_size cfg * row_size cfg ≤ 256)%nat →
  length (scan_cycle_idx m) = (col_size cfg * row_size cfg)%nat →
  (c < col_size cfg)%nat → (a + n ≤ row_size cfg)%nat →
  let m' := fold_left (stamp_key cfg c rc) (seq a n) m in
  length (scan_cycle_idx m') = length (scan_cycle_idx m)
  ∧ ∀ c' r', (c' < col_size cfg)%nat → (r' < row_size cfg)%nat →
      scan_cycle_idx m' !!! cyc_idx cfg c' r'
      = if (c' =? c)%nat && (a <=? r')%nat && (r' <? a + n)%nat
           && row_level rc r'
        then scan_cycles_idx m
        else scan_cycle_idx m !!! cyc_idx cfg c' r'.
Proof.
  induction n as [|n IH]; intros a m Hkeys Hlen Hc Han; simpl.
  - split; [reflexivity|]. intros c' r' _ _.
    replace (r' <? a + 0)%nat with (r' <? a)%nat by (f_equal; lia).
    destruct (Nat.leb_spec a r'), (Nat.ltb_spec r' a); try lia;
      now rewrite ?andb_false_r.
  - set (m1 := stamp_key cfg c rc m a).
    assert (Hcur : scan_cycles_idx m1 = scan_cycles_idx m)
      by (unfold m1, stamp_key; now destruct (_ =? 0)).
    assert (Hlen1 : length (scan_cycle_idx m1) = length (scan_cycle_idx m))
      by (unfold m1, stamp_key; destruct (_ =? 0); simpl;
          [reflexivity | apply length_insert]).
    destruct (IH (S a) m1 Hkeys ltac:(lia) Hc ltac:(lia)) as [Hl Hs].
    split; [lia|]. intros c' r' Hc' Hr'. rewrite (Hs c' r' Hc' Hr'), Hcur.
    replace (S a + n)%nat with (a + S n)%nat by lia.
    assert (Hm1 : scan_cycle_idx m1 !!! cyc_idx cfg c' r'
                  = if (c' =? c)%nat && (r' =? a)%nat && row_level rc r'
                    then scan_cycles_idx m
                    else scan_cycle_idx m !!! cyc_idx cfg c' r').
    { unfold m1, stamp_key. rewrite land_BIT_test.
      destruct (Nat.eqb_spec c' c) as [-> | Hne],
        (Nat.eqb_spec r' a) as [-> | Hra]; simpl.
      - destruct (row_level rc a); simpl; [|reflexivity].
        apply list_lookup_total_insert_eq.
        destruct (cyc_idx_small cfg c a Hkeys Hc ltac:(lia)). lia.
      - destruct (row_level rc a); simpl; [|reflexivity].
        apply list_lookup_total_insert_ne. intros Heq.
        apply cyc_idx_inj in Heq; (lia || assumption).
      - destruct (row_level rc a); simpl; [|reflexivity].
        apply list_lookup_total_insert_ne. intros Heq.
        apply cyc_idx_inj in Heq; (lia || assumption).
      - destruct (row_level rc a); simpl; [|reflexivity].
        apply list_lookup_total_insert_ne. intros Heq.
        apply cyc_idx_inj in Heq; (lia || assumption). }
    rewrite Hm1.
    destruct (Nat.eqb_spec c' c), (Nat.eqb_spec r' a), (Nat.leb_spec (S a) r'),
      (Nat.leb_spec a r'), (Nat.ltb_spec r' (a + S n)), (row_level rc r');
      simpl; try reflexivity; lia.
Qed.

Lemma stamp_keys_length c rc l : ∀ m,
  length (scan_cycle_idx (fold_left (stamp_key cfg c rc) l m))
  = length (scan_cycle_idx m).
Proof.
  induction l as [|r l IH]; intros m; simpl; [reflexivity|].
  rewrite IH. unfold stamp_key. destruct (_ =? 0); simpl;
    [reflexivity | apply length_insert].
Qed.

(** Lines 112-134 for one column of a well-formed matrix. *)
Lemma gather_column_spec m c :
  kbd_matrix_wf cfg m → (c < col_size cfg)%nat →
  let m' := gather_column cfg m c in
  (∀ c', matrix_previous_state m' !!! c'
         = if (c' =? c)%nat then matrix_new_state m !!! c
           else matrix_previous_state m !!! c')
  ∧ (∀ c', matrix_unstable_state m' !!! c'
           = if (c' =? c)%nat
             then Z.lor (matrix_unstable_state m !!! c)
                        (Z.lxor (matrix_new_state m !!! c)
                                (matrix_previous_state m !!! c))
             else matrix_unstable_state m !!! c')
  ∧ length (scan_cycle_idx m') = length (scan_cycle_idx m)
  ∧ (stamps_fit cfg m →
     ∀ c' r', (c' < col_size cfg)%nat → (r' < row_size cfg)%nat →
       scan_cycle_idx m' !!! cyc_idx cfg c' r'
       = if (c' =? c)%nat && key_changed m c' r'
         then scan_cycles_idx m
         else scan_cycle_idx m !!! cyc_idx cfg c' r').
Proof.
  intros Hwf Hc.
  pose proof (uint8_array_lookup _ _ c (wf_new_state _ _ Hwf)) as Hn.
  pose proof (uint8_array_lookup _ _ c (wf_previous_state _ _ Hwf)) as Hp.
  pose proof (uint8_array_lookup _ _ c (wf_unstable_state _ _ Hwf)) as Hu.
  assert (Hlenp : (c < length (matrix_previous_state m))%nat)
    by (destruct (wf_previous_state _ _ Hwf) as [-> _]; assumption).
  assert (Hlenu : (c < length (matrix_unstable_state m))%nat)
    by (destruct (wf_unstable_state _ _ Hwf) as [-> _]; assumption).
  unfold gather_column. rewrite uint8_lxor by assumption.
  set (rc := Z.lxor (matrix_new_state m !!! c) (matrix_previous_state m !!! c)).
  assert (Hrc : 0 ≤ rc < 256)
    by (unfold rc; rewrite <- (uint8_lxor _ _ Hn Hp); apply uint8_range).
  destruct (Z.eqb_spec rc 0) as [H0 | Hne].
  - assert (Heq : matrix_new_state m !!! c = matrix_previous_state m !!! c)
      by now apply Z.lxor_eq.
    cbn zeta. split_frame.
    + intros c'. destruct (Nat.eqb_spec c' c) as [-> | _]; congruence.
    + intros c'. destruct (Nat.eqb_spec c' c) as [-> | _]; [|reflexivity].
      rewrite H0. now rewrite Z.lor_0_r.
    + reflexivity.
    + intros _ c' r' _ _. unfold key_changed.
      destruct (Nat.eqb_spec c' c) as [-> | _]; [|reflexivity].
      rewrite Heq, xorb_nilpotent. reflexivity.
  - destruct (stamp_keys_frame cfg c rc (seq 0 (row_size cfg)) m)
      as (H1 & H2 & H3 & H4 & H5 & H6).
    cbn zeta. simpl. rewrite H1, H2, H3. split_frame.
    + intros c'. destruct (Nat.eqb_spec c' c) as [-> | Hc'].
      * now apply list_lookup_total_insert_eq.
      * apply list_lookup_total_insert_ne. auto.
    + intros c'. destruct (Nat.eqb_spec c' c) as [-> | Hc'].
      * rewrite list_lookup_total_insert_eq by assumption.
        now apply uint8_lor.
      * apply list_lookup_total_insert_ne. auto.
    + apply stamp_keys_length.
    + intros [Hkeys Hlen] c' r' Hc' Hr'.
      destruct (stamp_keys_spec c rc (row_size cfg) 0 m Hkeys Hlen Hc
                  ltac:(lia)) as [_ Hs].
      rewrite (Hs c' r' Hc' Hr'). unfold key_changed.
      destruct (Nat.eqb_spec c' c) as [-> | _]; [|reflexivity]. simpl.
      destruct (Nat.ltb_spec r' (row_size cfg)); [|lia]. simpl.
      unfold rc. now rewrite row_level_lxor.
Qed.

(** Lines 112-134 for the columns [a .. a + n - 1]. *)
Lemma gather_columns_spec n : ∀ a m,
  kbd_matrix_wf cfg m → (a + n ≤ col_size cfg)%nat →
  let m' := fold_left (gather_column cfg) (seq a n) m in
  (∀ c, matrix_previous_state m' !!! c
        = if (a <=? c)%nat && (c <? a + n)%nat then matrix_new_state m !!! c
          else matrix_previous_state m !!! c)
  ∧ (∀ c, matrix_unstable_state m' !!! c
          = if (a <=? c)%nat && (c <? a + n)%nat
            then Z.lor (matrix_unstable_state m !!! c)
                       (Z.lxor (matrix_new_state m !!! c)
                               (matrix_previous_state m !!! c))
            else matrix_unstable_state m !!! c)
  ∧ length (scan_cycle_idx m') = length (scan_cycle_idx m)
  ∧ (stamps_fit cfg m →
     ∀ c r, (c < col_size cfg)%nat → (r < row_size cfg)%nat →
       scan_cycle_idx m' !!! cyc_idx cfg c r
       = if (a <=? c)%nat && (c <? a + n)%nat && key_changed m c r
         then scan_cycles_idx m
         else scan_cycle_idx m !!! cyc_idx cfg c r).
Proof.
  induction n as [|n IH]; intros a m Hwf Han; simpl.
  - replace (a + 0)%nat with a by lia. split_frame; try reflexivity.
    + intros c. destruct (Nat.leb_spec a c), (Nat.ltb_spec c a);
        simpl; (reflexivity || lia).
    + intros c. destruct (Nat.leb_spec a c), (Nat.ltb_spec c a);
        simpl; (reflexivity || lia).
    + intros _ c r _ _. destruct (Nat.leb_spec a c), (Nat.ltb_spec c a);
        simpl; (reflexivity || lia).
  - destruct (gather_column_frame cfg m a) as (Gn & _ & _ & Gx & Gwf).
    destruct (gather_column_spec m a Hwf ltac:(lia)) as (Gp & Gu & Gl & Gs).
    destruct (IH (S a) (gather_column cfg m a) (Gwf Hwf) ltac:(lia))
      as (Ip & Iu & Il & Is).
    replace (S a + n)%nat with (a + S n)%nat in * by lia.
    split_frame.
    + intros c. rewrite Ip, Gp, Gn.
      destruct (Nat.eqb_spec c a) as [Heq | Hne], (Nat.leb_spec (S a) c),
        (Nat.leb_spec a c), (Nat.ltb_spec c (a + S n));
        simpl; try lia; try (subst c; reflexivity); reflexivity.
    + intros c. rewrite Iu, Gu, Gp, Gn.
      destruct (Nat.eqb_spec c a) as [Heq | Hne], (Nat.leb_spec (S a) c),
        (Nat.leb_spec a c), (Nat.ltb_spec c (a + S n));
        simpl; try lia; try (subst c; reflexivity); reflexivity.
    + lia.
    + intros Hfit c r Hc Hr.
      assert (Hfit1 : stamps_fit cfg (gather_column cfg m a))
        by (destruct Hfit as [Hk Hl]; split; [assumption | lia]).
      rewrite (Is Hfit1 c r Hc Hr), (Gs Hfit c r Hc Hr), Gx.
      unfold key_changed. rewrite Gp, Gn.
      destruct (Nat.eqb_spec c a) as [Heq | Hne], (Nat.leb_spec (S a) c),
        (Nat.leb_spec a c), (Nat.ltb_spec c (a + S n));
        simpl; try lia; try reflexivity;
        now destruct (xorb _ _).
Qed.

Lemma gather_changes_snapshot cycles_now m :
  kbd_matrix_wf cfg m →
  let m1 := gather_changes cfg cycles_now m in
  matrix_previous_state m1 = matrix_new_state m
  ∧ (∀ c r, row_level (matrix_unstable_state m1 !!! c) r
            = row_level (matrix_unstable_state m !!! c) r
              || ((c <? col_size cfg)%nat && key_changed m c r))
  ∧ matrix_new_state m1 = matrix_new_state m
  ∧ matrix_stable_state m1 = matrix_stable_state m.
Proof.
  intros Hwf m1. subst m1.
  destruct (gather_changes_frame cfg cycles_now m) as (Hn & Hs & _ & _ & Hwf1).
  specialize (Hwf1 Hwf).
  set (m0 := set_scan_clk_cycle
               (<[Z.to_nat (scan_cycles_idx m) := cycles_now]>
                  (scan_clk_cycle m)) m).
  assert (Hwf0 : kbd_matrix_wf cfg m0) by (destruct Hwf; now constructor).
  destruct (gather_columns_spec (col_size cfg) 0 m0 Hwf0 ltac:(lia))
    as (Hp & Hu & _ & _).
  change (fold_left (gather_column cfg) (seq 0 (col_size cfg)) m0)
    with (gather_changes cfg cycles_now m) in Hp, Hu.
  simpl in Hp, Hu. split_frame; try assumption.
  - destruct (wf_previous_state _ _ Hwf1) as [Hlp _].
    destruct (wf_new_state _ _ Hwf) as [Hln _].
    apply list_eq. intros c.
    destruct (Nat.ltb_spec c (col_size cfg)) as [Hc | Hc].
    + rewrite !list_lookup_lookup_total_lt by lia. f_equal.
      rewrite Hp. destruct (Nat.ltb_spec c (col_size cfg)); [reflexivity|lia].
    + rewrite !lookup_ge_None_2 by lia. reflexivity.
  - intros c r. rewrite Hu. unfold key_changed.
    destruct (Nat.ltb_spec c (col_size cfg)); simpl.
    + now rewrite row_level_lor, row_level_lxor.
    + now rewrite orb_false_r.
Qed.

(** X1: on well-formed arrays the first loop of an update leaves the
    previous snapshot equal to the new one, marks unstable exactly the keys
    that already were or whose raw level differs from the previous
    snapshot, and keeps the new snapshot and the stable state. *)
Theorem first_loop_adopts_snapshot cycles_now m :
  kbd_matrix_wf cfg m →
  let m1 := gather_changes cfg cycles_now m in
  matrix_previous_state m1 = matrix_new_state m
  ∧ (∀ c r, row_level (matrix_unstable_state m1 !!! c) r
            = row_level (matrix_unstable_state m !!! c) r
              || ((c <? col_size cfg)%nat && key_changed m c r))
  ∧ matrix_new_state m1 = matrix_new_state m
  ∧ matrix_stable_state m1 = matrix_stable_state m.
Proof. apply gather_changes_snapshot. Qed.

Lemma gather_changes_stamp cycles_now m c r :
  kbd_matrix_wf cfg m → stamps_fit cfg m →
  (c < col_size cfg)%nat → (r < row_size cfg)%nat →
  scan_cycle_idx (gather_changes cfg cycles_now m) !!! cyc_idx cfg c r
  = if key_changed m c r then scan_cycles_idx m
    else scan_cycle_idx m !!! cyc_idx cfg c r.
Proof.
  intros Hwf Hfit Hc Hr.
  set (m0 := set_scan_clk_cycle
               (<[Z.to_nat (scan_cycles_idx m) := cycles_now]>
                  (scan_clk_cycle m)) m).
  assert (Hwf0 : kbd_matrix_wf cfg m0) by (destruct Hwf; now constructor).
  destruct (gather_columns_spec (col_size cfg) 0 m0 Hwf0 ltac:(lia))
    as (_ & _ & _ & Hs).
  unfold gather_changes. fold m0. rewrite (Hs Hfit c r Hc Hr). simpl.
  destruct (Nat.ltb_spec c (col_size cfg)); [reflexivity | lia].
Qed.

(** X2: when the matrix has at most 256 keys and one stamp index per key,
    the first loop stamps the ring cursor on every key whose raw level
    differs from the previous snapshot and keeps the stamp of every other
    key. *)
Theorem first_loop_stamps_changed_keys cycles_now m c r :
  kbd_matrix_wf cfg m → stamps_fit cfg m →
  (c < col_size cfg)%nat → (r < row_size cfg)%nat →
  scan_cycle_idx (gather_changes cfg cycles_now m) !!! cyc_idx cfg c r
  = if key_changed m c r then scan_cycles_idx m
    else scan_cycle_idx m !!! cyc_idx cfg c r.
Proof. apply gather_changes_stamp. Qed.

End GatherProperties.

(** ** More on one update *)

Section UpdateExtras.

Variable k_cyc_to_us_floor32 : Z → Z.
Variable cfg : input_kbd_matrix_common_config.

Local Abbreviation update := (update_state_at k_cyc_to_us_floor32 cfg).
Local Abbreviation closes := (window_closes k_cyc_to_us_floor32 cfg).
Local Abbreviation confirmed := (key_confirmed k_cyc_to_us_floor32 cfg).

(** A key is marked unstable by the first loop when it was already or when
    its raw level changed. *)
Lemma key_unstable_after_gather cycles_now m c r :
  kbd_matrix_wf cfg m → (c < col_size cfg)%nat →
  key_unstable (gather_changes cfg cycles_now m) c r
  = row_level (matrix_unstable_state m !!! c) r || key_changed m c r.
Proof.
  intros Hwf Hc.
  destruct (gather_changes_frame cfg cycles_now m) as (_ & _ & _ & _ & Hwf1).
  destruct (gather_changes_snapshot cfg cycles_now m Hwf) as (_ & Hu & _).
  rewrite (key_unstable_level cfg) by auto. rewrite Hu.
  destruct (Nat.ltb_spec c (col_size cfg)); [reflexivity | lia].
Qed.

(** X3: after an update, a key of a well-formed matrix is marked unstable
    exactly when it was marked before or its raw level changed, unless its
    window closed in this update with the raw level pressed: a window that
    closes on a released key leaves the mark. *)
Theorem update_unstable_mark cycles_now m c r :
  kbd_matrix_wf cfg m → (c < col_size cfg)%nat → (r < row_size cfg)%nat →
  row_level (matrix_unstable_state (update cycles_now m).1 !!! c) r
  = (row_level (matrix_unstable_state m !!! c) r || key_changed m c r)
    && negb (closes cycles_now (gather_changes cfg cycles_now m) c r
             && row_level (matrix_new_state m !!! c) r).
Proof.
  intros Hwf Hc Hr.
  destruct (gather_changes_snapshot cfg cycles_now m Hwf) as (_ & Hu & _).
  rewrite update_state_unstable by assumption. rewrite Hu.
  destruct (Nat.ltb_spec c (col_size cfg)); [|lia].
  destruct (Nat.ltb_spec r (row_size cfg)); [|lia]. reflexivity.
Qed.

(** X4: a key of a well-formed matrix that is not marked unstable and whose
    raw level is the one of the previous snapshot is left alone by an
    update: no transition is reported for it, its stable level is kept and
    it stays unmarked, whatever happens to the other keys. *)
Theorem update_leaves_settled_key cycles_now m c r :
  kbd_matrix_wf cfg m → (c < col_size cfg)%nat → (r < row_size cfg)%nat →
  row_level (matrix_unstable_state m !!! c) r = false →
  key_changed m c r = false →
  transitions_for c r (transitions_of (update cycles_now m).2) = []
  ∧ row_level (matrix_stable_state (update cycles_now m).1 !!! c) r
    = row_level (matrix_stable_state m !!! c) r
  ∧ row_level (matrix_unstable_state (update cycles_now m).1 !!! c) r = false.
Proof.
  intros Hwf Hc Hr Hmark Hsame.
  assert (Hun : key_unstable (gather_changes cfg cycles_now m) c r = false)
    by (rewrite key_unstable_after_gather, Hmark, Hsame by assumption;
        reflexivity).
  assert (Hconf : confirmed cycles_now (gather_changes cfg cycles_now m) c r
                  = false)
    by (unfold key_confirmed, window_closes; now rewrite Hun).
  destruct (gather_changes_snapshot cfg cycles_now m Hwf) as (_ & Hu & _).
  split_frame.
  - rewrite update_state_transitions, transitions_for_confirmed, Hconf
      by assumption.
    now rewrite andb_false_r.
  - rewrite update_state_stable, Hconf by assumption.
    now rewrite andb_false_r, xorb_false_r.
  - rewrite update_state_unstable, Hu, Hmark, Hsame by assumption.
    now rewrite andb_false_r.
Qed.

Lemma fold_left_fixed {A B} (f : A → B → A) l x :
  (∀ y, In y l → f x y = x) → fold_left f l x = x.
Proof.
  induction l as [|y l IH]; intros H; simpl; [reflexivity|].
  rewrite (H y) by now left. apply IH. intros z Hz. apply H. now right.
Qed.

(** X5: when the new snapshot is the previous one and no key is marked
    unstable, an update only writes the timestamp of the cycle at the ring
    cursor: nothing is reported and the rest of the state is as before. *)
Theorem update_of_steady_matrix cycles_now m :
  (∀ c, (c < col_size cfg)%nat →
        matrix_new_state m !!! c = matrix_previous_state m !!! c) →
  (∀ c, (c < col_size cfg)%nat → matrix_unstable_state m !!! c = 0) →
  update cycles_now m
  = (set_scan_clk_cycle
       (<[Z.to_nat (scan_cycles_idx m) := cycles_now]> (scan_clk_cycle m)) m,
     []).
Proof.
  intros Hsame Hclear. unfold update_state_at, gather_changes.
  set (m0 := set_scan_clk_cycle _ m).
  rewrite (fold_left_fixed (gather_column cfg) (seq 0 (col_size cfg)) m0).
  - apply fold_left_fixed. intros c Hc. apply in_seq in Hc.
    unfold debounce_column. simpl. now rewrite Hclear by lia.
  - intros c Hc. apply in_seq in Hc. unfold gather_column. simpl.
    now rewrite Hsame, Z.lxor_nilpotent by lia.
Qed.

Lemma confirmed_keys_In cycles_now m k :
  In k (confirmed_keys k_cyc_to_us_floor32 cfg cycles_now m) →
  (k.1.1 < col_size cfg)%nat ∧ (k.1.2 < row_size cfg)%nat
  ∧ confirmed cycles_now m k.1.1 k.1.2 = true
  ∧ k.2 = key_row_bit m k.1.1 k.1.2.
Proof.
  unfold confirmed_keys. intros H.
  apply in_flat_map in H as (c & Hc & H).
  apply in_flat_map in H as (r & Hr & H).
  apply in_seq in Hc, Hr.
  destruct (confirmed cycles_now m c r) eqn:Hconf; [|contradiction].
  destruct H as [<- | []]. simpl. split_frame; (lia || auto).
Qed.

Lemma StronglySorted_flat_map_seq {A} (R : A → A → Prop) (f : nat → list A) n :
  ∀ a,
  (∀ x, StronglySorted R (f x)) →
  (∀ x y u v, (x < y)%nat → In u (f x) → In v (f y) → R u v) →
  StronglySorted R (flat_map f (seq a n)).
Proof.
  induction n as [|n IH]; intros a Hin Hacross; simpl; [constructor|].
  apply StronglySorted_app_2; [|apply Hin | now apply IH].
  intros u v Hu Hv. apply list_elem_of_In in Hu, Hv.
  apply in_flat_map in Hv as (y & Hy & Hv). apply in_seq in Hy.
  apply (Hacross a y); (lia || assumption).
Qed.

Lemma confirmed_transitions_sorted cycles_now m :
  StronglySorted transition_before
    (map transition_of_key
         (confirmed_keys k_cyc_to_us_floor32 cfg cycles_now m)).
Proof.
  unfold confirmed_keys. rewrite map_of_flat_map.
  apply StronglySorted_flat_map_seq.
  - intros c. rewrite map_of_flat_map. apply StronglySorted_flat_map_seq.
    + intros r. destruct (confirmed cycles_now m c r); simpl;
        repeat constructor.
    + intros r r' u v Hlt Hu Hv.
      destruct (confirmed cycles_now m c r); [|contradiction].
      destruct (confirmed cycles_now m c r'); [|contradiction].
      destruct Hu as [<- | []], Hv as [<- | []].
      right. simpl. split; [reflexivity | lia].
  - intros c c' u v Hlt Hu Hv.
    rewrite map_of_flat_map in Hu, Hv.
    apply in_flat_map in Hu as (r & _ & Hu).
    apply in_flat_map in Hv as (r' & _ & Hv).
    destruct (confirmed cycles_now m c r); [|contradiction].
    destruct (confirmed cycles_now m c' r'); [|contradiction].
    destruct Hu as [<- | []], Hv as [<- | []].
    left. simpl. lia.
Qed.

(** X6: the transitions reported by one update of a well-formed matrix
    come in the order of the loops, columns first and rows within a column,
    no key twice; each is about a key of the matrix in one of the rows 0 to
    7, carries the bit of the key in the new snapshot as its level (0 for a
    release, 2^r for a press), and leaves the stable level of the key equal
    to its raw level. *)
Theorem update_reports_in_loop_order cycles_now m :
  kbd_matrix_wf cfg m →
  StronglySorted transition_before (transitions_of (update cycles_now m).2)
  ∧ ∀ t, In t (transitions_of (update cycles_now m).2) →
      ∃ c r,
        t = (Z.of_nat c, Z.of_nat r,
             level_bit (row_level (matrix_new_state m !!! c) r) r)
        ∧ (c < col_size cfg)%nat ∧ (r < row_size cfg)%nat ∧ (r < 8)%nat
        ∧ row_level (matrix_stable_state (update cycles_now m).1 !!! c) r
          = row_level (matrix_new_state m !!! c) r.
Proof.
  intros Hwf.
  destruct (gather_changes_frame cfg cycles_now m) as (Hn & Hs & _ & _ & Hwf1).
  specialize (Hwf1 Hwf).
  rewrite update_state_transitions by assumption.
  split; [apply confirmed_transitions_sorted|].
  intros t Ht. apply in_map_iff in Ht as ([[c r] v] & <- & Hk).
  apply confirmed_keys_In in Hk as (Hc & Hr & Hconf & Hv). simpl in *.
  exists c, r. subst v.
  rewrite (key_row_bit_level cfg), Hn by assumption.
  split; [reflexivity|]. split; [assumption|]. split; [assumption|].
  pose proof Hconf as Hconf'.
  rewrite key_confirmed_level in Hconf' by assumption.
  apply andb_true_iff in Hconf' as [Hclose Hdiff].
  unfold window_closes in Hclose. apply andb_true_iff in Hclose as [Hun _].
  rewrite (key_unstable_level cfg) in Hun by assumption.
  split.
  - eapply row_level_high; [|exact Hun].
    apply (uint8_array_lookup _ _ c (wf_unstable_state _ _ Hwf1)).
  - rewrite update_state_stable, Hconf by assumption.
    rewrite Hs, Hn in Hdiff.
    destruct (Nat.ltb_spec c (col_size cfg)); [|lia].
    destruct (Nat.ltb_spec r (row_size cfg)); [|lia]. simpl.
    now destruct (row_level (matrix_stable_state m !!! c) r),
          (row_level (matrix_new_state m !!! c) r).
Qed.

(** X7: when the threshold picked for the raw level of a key is zero (or
    less), a key that is marked unstable or whose raw level has just
    changed is confirmed in this very update, whatever the timestamps: if
    its raw level differs from its stable level the transition to the raw
    level is reported and the stable level follows. *)
Theorem zero_threshold_confirms_at_once cycles_now m c r :
  kbd_matrix_wf cfg m → (c < col_size cfg)%nat → (r < row_size cfg)%nat →
  key_threshold cfg (level_bit (row_level (matrix_new_state m !!! c) r) r) ≤ 0 →
  row_level (matrix_unstable_state m !!! c) r || key_changed m c r = true →
  row_level (matrix_new_state m !!! c) r
  ≠ row_level (matrix_stable_state m !!! c) r →
  transitions_for c r (transitions_of (update cycles_now m).2)
  = [(Z.of_nat c, Z.of_nat r,
      level_bit (row_level (matrix_new_state m !!! c) r) r)]
  ∧ row_level (matrix_stable_state (update cycles_now m).1 !!! c) r
    = row_level (matrix_new_state m !!! c) r.
Proof.
  intros Hwf Hc Hr Hzero Hmark Hdiff.
  destruct (gather_changes_frame cfg cycles_now m) as (Hn & Hs & _ & _ & Hwf1).
  specialize (Hwf1 Hwf).
  assert (Hclose : closes cycles_now (gather_changes cfg cycles_now m) c r
                   = true).
  { unfold window_closes.
    rewrite key_unstable_after_gather, Hmark by assumption. simpl.
    rewrite (key_row_bit_level cfg), Hn by assumption.
    apply negb_true_iff, Z.ltb_ge.
    pose proof (uint32_range
                  (k_cyc_to_us_floor32
                     (uint32 (cycles_now
                              - uint8 (scan_clk_cycle
                                         (gather_changes cfg cycles_now m)
                                       !!! Z.to_nat
                                         (uint8
                                            (scan_cycle_idx
                                               (gather_changes cfg cycles_now m)
                                             !!! cyc_idx cfg c r))))))).
    unfold key_debt. lia. }
  assert (Hconf : confirmed cycles_now (gather_changes cfg cycles_now m) c r
                  = true).
  { rewrite key_confirmed_level, Hclose, Hs, Hn by assumption. simpl.
    destruct (row_level (matrix_stable_state m !!! c) r),
      (row_level (matrix_new_state m !!! c) r); (reflexivity || congruence). }
  assert (Hin : ((c <? col_size cfg) && (r <? row_size cfg))%nat = true).
  { destruct (Nat.ltb_spec c (col_size cfg)), (Nat.ltb_spec r (row_size cfg));
      (reflexivity || lia). }
  rewrite update_state_transitions, transitions_for_confirmed, Hin, Hconf
    by assumption.
  rewrite (key_row_bit_level cfg), Hn by assumption.
  split; [reflexivity|].
  rewrite update_state_stable, Hin, Hconf by assumption. simpl.
  destruct (row_level (matrix_stable_state m !!! c) r),
    (row_level (matrix_new_state m !!! c) r); (reflexivity || congruence).
Qed.

(** X15: for a key whose raw level changed in this cycle (at most 256
    keys, cursor inside the ring and below 256, counter value of 32 bits),
    the elapsed time computed in the same update is not zero but the
    conversion of the counter value with its low eight bits cleared: the
    timestamp just written is read back through a [uint8_t]. *)
Theorem fresh_stamp_elapsed_time cycles_now m c r :
  kbd_matrix_wf cfg m → stamps_fit cfg m →
  (c < col_size cfg)%nat → (r < row_size cfg)%nat →
  0 ≤ scan_cycles_idx m < 256 →
  (Z.to_nat (scan_cycles_idx m) < length (scan_clk_cycle m))%nat →
  0 ≤ cycles_now < 4294967296 →
  key_changed m c r = true →
  key_debt k_cyc_to_us_floor32 cfg cycles_now
           (gather_changes cfg cycles_now m) c r
  = uint32 (k_cyc_to_us_floor32 (cycles_now - cycles_now mod 256)).
Proof.
  intros Hwf Hfit Hc Hr Hcur Hslot Hnow Hchg.
  destruct (gather_changes_frame cfg cycles_now m) as (_ & _ & Hring & _).
  unfold key_debt.
  rewrite gather_changes_stamp, Hchg, Hring by assumption.
  rewrite (uint8_small (scan_cycles_idx m)) by assumption.
  rewrite list_lookup_total_insert_eq by assumption.
  f_equal. f_equal. unfold uint8. apply uint32_small.
  pose proof (Z.mod_pos_bound cycles_now 256 ltac:(lia)).
  pose proof (Z.mod_le cycles_now 256 ltac:(lia) ltac:(lia)). lia.
Qed.

End UpdateExtras.

(** X8: with at most 256 keys the per-key index is [c * row_size + r],
    below the number of keys and different for different keys; with more
    than 256 keys the [uint8_t] index wraps and two keys of the matrix
    share an index. *)
Theorem key_index_distinct_up_to_256 cfg :
  ((col_size cfg * row_size cfg ≤ 256)%nat →
   ∀ c r c' r',
     (c < col_size cfg)%nat → (r < row_size cfg)%nat →
     (c' < col_size cfg)%nat → (r' < row_size cfg)%nat →
     cyc_idx cfg c r = (c * row_size cfg + r)%nat
     ∧ (cyc_idx cfg c r < col_size cfg * row_size cfg)%nat
     ∧ (cyc_idx cfg c r = cyc_idx cfg c' r' → c = c' ∧ r = r'))
  ∧ ((256 < col_size cfg * row_size cfg)%nat →
     ∃ c r, (c < col_size cfg)%nat ∧ (r < row_size cfg)%nat
            ∧ (c, r) ≠ (0%nat, 0%nat)
            ∧ cyc_idx cfg c r = cyc_idx cfg 0 0).
Proof.
  split.
  - intros Hkeys c r c' r' Hc Hr Hc' Hr'.
    destruct (cyc_idx_small cfg c r Hkeys Hc Hr) as [E1 E2].
    split; [assumption|]. split; [assumption|].
    now apply cyc_idx_inj.
  - intros Hmany.
    assert (Hrow : (0 < row_size cfg)%nat) by nia.
    exists (256 / row_size cfg)%nat, (256 mod row_size cfg)%nat.
    pose proof (Nat.div_mod_eq 256 (row_size cfg)) as Hdm.
    pose proof (Nat.mod_upper_bound 256 (row_size cfg) ltac:(lia)) as Hmod.
    split_frame.
    + apply Nat.Div0.div_lt_upper_bound. lia.
    + assumption.
    + intros [= Hq Hm]. rewrite Hq, Hm in Hdm. lia.
    + unfold cyc_idx.
      replace (Z.of_nat (256 / row_size cfg) * Z.of_nat (row_size cfg)
               + Z.of_nat (256 mod row_size cfg)) with 256 by lia.
      reflexivity.
Qed.

(** ** More on one scan cycle *)

Section CycleExtras.

Context {W : Type}.
Variable api : input_kbd_matrix_api W.
Variable k_busy_wait : Z → W → W.
Variable k_cycle_get_32 : W → Z * W.
Variable k_cyc_to_us_floor32 : Z → Z.
Variable INPUT_KBD_MATRIX_SCAN_OCURRENCES : Z.
Variable cfg : input_kbd_matrix_common_config.

Local Abbreviation advance :=
  (advance_and_scan api k_busy_wait INPUT_KBD_MATRIX_SCAN_OCURRENCES cfg).
Local Abbreviation check_key_events :=
  (input_kbd_matrix_check_key_events api k_busy_wait k_cycle_get_32
     k_cyc_to_us_floor32 INPUT_KBD_MATRIX_SCAN_OCURRENCES cfg).

Lemma gather_changes_lengths cycles_now m :
  kbd_matrix_wf cfg m →
  length (scan_cycle_idx (gather_changes cfg cycles_now m))
  = length (scan_cycle_idx m)
  ∧ length (scan_clk_cycle (gather_changes cfg cycles_now m))
    = length (scan_clk_cycle m).
Proof.
  intros Hwf.
  destruct (gather_changes_frame cfg cycles_now m) as (_ & _ & Hring & _).
  set (m0 := set_scan_clk_cycle
               (<[Z.to_nat (scan_cycles_idx m) := cycles_now]>
                  (scan_clk_cycle m)) m).
  assert (Hwf0 : kbd_matrix_wf cfg m0) by (destruct Hwf; now constructor).
  destruct (gather_columns_spec cfg (col_size cfg) 0 m0 Hwf0 ltac:(lia))
    as (_ & _ & Hlen & _).
  split; [exact Hlen|]. rewrite Hring. apply length_insert.
Qed.

(** X9: a scan cycle keeps the arrays well formed, whatever the hardware
    answers: one [uint8_t] per column in the four per-column arrays, the
    same number of stamp indices and of ring slots; and with a positive
    ring capacity the cursor it leaves is inside the ring capacity and
    below 256, whatever the cursor was. *)
Theorem cycle_keeps_arrays_well_formed w m :
  kbd_matrix_wf cfg m → 0 < INPUT_KBD_MATRIX_SCAN_OCURRENCES →
  let m' := (check_key_events w m).1.1.2 in
  kbd_matrix_wf cfg m'
  ∧ length (scan_cycle_idx m') = length (scan_cycle_idx m)
  ∧ length (scan_clk_cycle m') = length (scan_clk_cycle m)
  ∧ 0 ≤ scan_cycles_idx m' < INPUT_KBD_MATRIX_SCAN_OCURRENCES
  ∧ scan_cycles_idx m' < 256.
Proof.
  intros Hwf HN m'. subst m'.
  destruct (advance_and_scan_frame api k_busy_wait
              INPUT_KBD_MATRIX_SCAN_OCURRENCES cfg w m) as [ns Hadv].
  pose proof (advance_and_scan_wf api k_busy_wait
                INPUT_KBD_MATRIX_SCAN_OCURRENCES cfg w m Hwf) as Hwfs.
  assert (Hcursor : 0 ≤ next_scan_cycles_idx INPUT_KBD_MATRIX_SCAN_OCURRENCES
                          (scan_cycles_idx m)
                    < INPUT_KBD_MATRIX_SCAN_OCURRENCES
                    ∧ next_scan_cycles_idx INPUT_KBD_MATRIX_SCAN_OCURRENCES
                        (scan_cycles_idx m) < 256).
  { unfold next_scan_cycles_idx.
    pose proof (uint8_range (scan_cycles_idx m + 1)).
    destruct (Z.leb_spec INPUT_KBD_MATRIX_SCAN_OCURRENCES
                         (uint8 (scan_cycles_idx m + 1))); lia. }
  destruct (check_key_events_cases api k_busy_wait k_cycle_get_32
              k_cyc_to_us_floor32 INPUT_KBD_MATRIX_SCAN_OCURRENCES cfg w m)
    as [[_ ->] | [_ ->]]; simpl.
  - split; [assumption|]. rewrite Hadv. simpl. now split_frame.
  - set (now := uint32 (k_cycle_get_32 (advance w m).1.1).1).
    destruct (update_state_at_inv k_cyc_to_us_floor32 cfg now
                (advance w m).1.2 Hwfs) as [_ _ Hi Hk Hx Hwf' _ _ _].
    destruct (gather_changes_lengths now (advance w m).1.2 Hwfs) as [Hl1 Hl2].
    destruct (gather_changes_frame cfg now (advance w m).1.2)
      as (_ & _ & _ & Hcur & _).
    split; [assumption|].
    rewrite Hi, Hk, Hx, Hl1, Hl2, Hcur, Hadv. simpl. now split_frame.
Qed.

End CycleExtras.

(** ** More on the ghosting detector *)

Lemma common_row_bits_level state c c_next r :
  row_level (common_row_bits state c c_next) r
  = (r <? 8)%nat && row_level (state !!! c) r && row_level (state !!! c_next) r.
Proof.
  unfold common_row_bits, row_level. rewrite uint8_testbit, Z.land_spec.
  destruct (Z.ltb_spec (Z.of_nat r) 8), (Nat.ltb_spec r 8);
    try lia; now rewrite ?andb_assoc.
Qed.

Lemma ghosting_block_two_rows state c c_next :
  ghosting_block state c c_next = true ↔
  ∃ r r', (r < r' < 8)%nat
          ∧ row_level (state !!! c) r = true
          ∧ row_level (state !!! c_next) r = true
          ∧ row_level (state !!! c) r' = true
          ∧ row_level (state !!! c_next) r' = true.
Proof.
  unfold ghosting_block.
  rewrite land_pred_two_bits by apply common_row_bits_range.
  rewrite two_bits_among_8_spec by apply common_row_bits_range.
  unfold more_than_one_bit. split.
  - intros (i & j & Hij & Hi & Hj).
    exists (Z.to_nat i), (Z.to_nat j).
    assert (Hri : row_level (common_row_bits state c c_next) (Z.to_nat i) = true)
      by (unfold row_level; now rewrite Z2Nat.id by lia).
    assert (Hrj : row_level (common_row_bits state c c_next) (Z.to_nat j) = true)
      by (unfold row_level; now rewrite Z2Nat.id by lia).
    rewrite common_row_bits_level in Hri, Hrj.
    apply andb_true_iff in Hri as [Hri Hi2], Hrj as [Hrj Hj2].
    apply andb_true_iff in Hri as [Hi8 Hi1], Hrj as [Hj8 Hj1].
    apply Nat.ltb_lt in Hj8. split_frame; (lia || assumption).
  - intros (r & r' & Hlt & H1 & H2 & H3 & H4).
    exists (Z.of_nat r), (Z.of_nat r'). split; [lia|].
    fold (row_level (common_row_bits state c c_next) r).
    fold (row_level (common_row_bits state c c_next) r').
    rewrite !common_row_bits_level, H1, H2, H3, H4.
    destruct (Nat.ltb_spec r 8), (Nat.ltb_spec r' 8); (lia || now split).
Qed.

(** X10: the ghosting detector answers true exactly when two columns below
    [col_size] share two of the rows 0 to 7; so with fewer than two columns
    it never does, and pressing more keys never makes a snapshot that had
    ghosting pass. *)
Theorem ghosting_needs_a_shared_pair_of_rows cfg m :
  (input_kbd_matrix_ghosting cfg m = true ↔
   ∃ c c_next r r',
     (c < c_next < col_size cfg)%nat ∧ (r < r' < 8)%nat
     ∧ row_level (matrix_new_state m !!! c) r = true
     ∧ row_level (matrix_new_state m !!! c_next) r = true
     ∧ row_level (matrix_new_state m !!! c) r' = true
     ∧ row_level (matrix_new_state m !!! c_next) r' = true)
  ∧ ((col_size cfg ≤ 1)%nat → input_kbd_matrix_ghosting cfg m = false)
  ∧ (∀ m', snapshot_within (matrix_new_state m) (matrix_new_state m') →
           input_kbd_matrix_ghosting cfg m = true →
           input_kbd_matrix_ghosting cfg m' = true).
Proof.
  assert (Hiff : ∀ m0,
    input_kbd_matrix_ghosting cfg m0 = true ↔
    ∃ c c_next r r',
      (c < c_next < col_size cfg)%nat ∧ (r < r' < 8)%nat
      ∧ row_level (matrix_new_state m0 !!! c) r = true
      ∧ row_level (matrix_new_state m0 !!! c_next) r = true
      ∧ row_level (matrix_new_state m0 !!! c) r' = true
      ∧ row_level (matrix_new_state m0 !!! c_next) r' = true).
  { intros m0. unfold input_kbd_matrix_ghosting.
    destruct (ghosting_at cfg (matrix_new_state m0)) as [[c cn]|] eqn:Hat.
    - apply ghosting_at_Some in Hat as (Hc & Hb & _).
      apply ghosting_block_two_rows in Hb as (r & r' & Hr & H).
      split; [intros _ | reflexivity]. exists c, cn, r, r'. now split_frame.
    - split; [discriminate|]. intros (c & cn & r & r' & Hc & Hr & H).
      rewrite ghosting_at_None in Hat. specialize (Hat c cn Hc).
      assert (Hb : ghosting_block (matrix_new_state m0) c cn = true)
        by (apply ghosting_block_two_rows; exists r, r'; now split_frame).
      congruence. }
  split; [apply Hiff|]. split.
  - intros Hcol. destruct (input_kbd_matrix_ghosting cfg m) eqn:Hg;
      [|reflexivity].
    apply Hiff in Hg as (c & cn & _ & _ & Hc & _). lia.
  - intros m' Hwithin Hg. apply Hiff.
    apply Hiff in Hg as (c & cn & r & r' & Hc & Hr & H1 & H2 & H3 & H4).
    exists c, cn, r, r'. split; [assumption|]. split; [assumption|].
    split_frame; now apply Hwithin.
Qed.

(** ** More on the polling loop *)

Lemma land_row_mask_range raw :
  0 ≤ Z.land raw INPUT_KBD_MATRIX_ROW_MASK < 256.
Proof.
  unfold INPUT_KBD_MATRIX_ROW_MASK. change 255 with (Z.ones 8).
  rewrite Z.land_ones by lia. apply Z.mod_pos_bound. lia.
Qed.

Section HeldKey.

Context {W T : Type}.
Variable api : input_kbd_matrix_api W.
Variable k_busy_wait : Z → W → W.
Variable k_cycle_get_32 : W → Z * W.
Variable k_cyc_to_us_floor32 : Z → Z.
Variable k_usleep : Z → W → W.
Variable sys_timepoint_calc : Z → W → T * W.
Variable sys_timepoint_expired : T → W → bool * W.
Variable INPUT_KBD_MATRIX_SCAN_OCURRENCES : Z.
Variable cfg : input_kbd_matrix_common_config.

Local Abbreviation iteration :=
  (poll_iteration api k_busy_wait k_cycle_get_32 k_cyc_to_us_floor32 k_usleep
     sys_timepoint_calc sys_timepoint_expired
     INPUT_KBD_MATRIX_SCAN_OCURRENCES cfg).
Local Abbreviation loop :=
  (poll_loop api k_busy_wait k_cycle_get_32 k_cyc_to_us_floor32 k_usleep
     sys_timepoint_calc sys_timepoint_expired
     INPUT_KBD_MATRIX_SCAN_OCURRENCES cfg).
Local Abbreviation world_at_decision :=
  (decision_world (T := T) api k_busy_wait k_cycle_get_32 k_cyc_to_us_floor32
     INPUT_KBD_MATRIX_SCAN_OCURRENCES cfg).
Local Abbreviation active :=
  (cycle_active (T := T) api k_busy_wait k_cycle_get_32 k_cyc_to_us_floor32
     INPUT_KBD_MATRIX_SCAN_OCURRENCES cfg).

Lemma scan_columns_active l : ∀ w ns ke,
  key_always_sensed api → 0 ≤ ke < 256 → l ≠ [] ∨ ke ≠ 0 →
  (fold_left (scan_column api k_busy_wait cfg) l (w, ns, ke)).2 ≠ 0.
Proof.
  induction l as [|col l IH]; intros w ns ke Hheld Hke Hsome; simpl.
  - destruct Hsome as [Hl | Hne]; [congruence | assumption].
  - pose proof (Hheld (k_busy_wait (settle_time_us cfg)
                         (drive_column api (DRIVE_COLUMN col) w))) as Hrow.
    destruct (read_row api _) as [raw w1]. simpl in Hrow.
    pose proof (land_row_mask_range raw) as Hrange.
    pose proof (lor_uint8 ke _ Hke Hrange) as Hlor.
    apply IH; [assumption | apply uint8_range |]. right.
    rewrite uint8_small by assumption.
    intros H0. apply Z.lor_eq_0_iff in H0 as [_ H0]. contradiction.
Qed.

Lemma cycle_active_when_held (s : poll_state) :
  key_always_sensed api → (0 < col_size cfg)%nat → active s = true.
Proof.
  intros Hheld Hcol. unfold cycle_active.
  set (w := (k_cycle_get_32 (poll_world s)).2).
  assert (Hscan : ∀ w m,
            (input_kbd_matrix_scan api k_busy_wait cfg w m).2 = true).
  { intros w' m'. unfold input_kbd_matrix_scan.
    pose proof (scan_columns_active (seq 0 (col_size cfg)) w'
                  (matrix_new_state m') 0 Hheld ltac:(lia)) as H.
    destruct (fold_left _ _ _) as [[w1 ns] ke]. simpl in *.
    apply negb_true_iff, Z.eqb_neq, H. left.
    destruct (col_size cfg); [lia | discriminate]. }
  destruct (check_key_events_cases api k_busy_wait k_cycle_get_32
              k_cyc_to_us_floor32 INPUT_KBD_MATRIX_SCAN_OCURRENCES cfg w
              (poll_matrix s)) as [[_ ->] | [_ ->]]; simpl; apply Hscan.
Qed.

(** X11: while the hardware senses a key at every read of a matrix that has
    a column, every iteration of the polling loop computes a fresh deadline
    and goes on, ghosting or not, and the loop does not return, however
    many iterations it is given. *)
Theorem held_key_keeps_polling :
  key_always_sensed api → (0 < col_size cfg)%nat →
  (∀ s, ∃ s', iteration s = inr s'
              ∧ poll_time_end s'
                = (sys_timepoint_calc (poll_timeout_ms cfg)
                                      (world_at_decision s)).1)
  ∧ ∀ fuel s, loop fuel s = None.
Proof.
  intros Hheld Hcol.
  assert (Hon : ∀ s, ∃ s', iteration s = inr s'
              ∧ poll_time_end s'
                = (sys_timepoint_calc (poll_timeout_ms cfg)
                                      (world_at_decision s)).1).
  { intros s. apply poll_iteration_active.
    now apply cycle_active_when_held. }
  split; [exact Hon|].
  induction fuel as [|fuel IH]; intros s; simpl; [reflexivity|].
  destruct (Hon s) as (s' & -> & _). apply IH.
Qed.

End HeldKey.

(** ** The calls made to the hardware and the kernel *)

Section CallSequence.

Variable rows : list hw_call → Z.
Variable cycles : list hw_call → Z.
Variable expired : list hw_call → bool.
Variable k_cyc_to_us_floor32 : Z → Z.
Variable INPUT_KBD_MATRIX_SCAN_OCURRENCES : Z.
Variable cfg : input_kbd_matrix_common_config.

Local Abbreviation scan :=
  (input_kbd_matrix_scan (log_api rows) log_busy_wait cfg).
Local Abbreviation check_key_events :=
  (input_kbd_matrix_check_key_events (log_api rows) log_busy_wait
     (log_cycle_get_32 cycles) k_cyc_to_us_floor32
     INPUT_KBD_MATRIX_SCAN_OCURRENCES cfg).
Local Abbreviation iteration :=
  (poll_iteration (log_api rows) log_busy_wait (log_cycle_get_32 cycles)
     k_cyc_to_us_floor32 log_usleep log_timepoint_calc
     (log_timepoint_expired expired) INPUT_KBD_MATRIX_SCAN_OCURRENCES cfg).
Local Abbreviation loop :=
  (poll_loop (log_api rows) log_busy_wait (log_cycle_get_32 cycles)
     k_cyc_to_us_floor32 log_usleep log_timepoint_calc
     (log_timepoint_expired expired) INPUT_KBD_MATRIX_SCAN_OCURRENCES cfg).
Local Abbreviation iterations :=
  (poll_iterations (log_api rows) log_busy_wait (log_cycle_get_32 cycles)
     k_cyc_to_us_floor32 log_usleep log_timepoint_calc
     (log_timepoint_expired expired) INPUT_KBD_MATRIX_SCAN_OCURRENCES cfg).
Local Abbreviation poll :=
  (input_kbd_matrix_poll (log_api rows) log_busy_wait
     (log_cycle_get_32 cycles) k_cyc_to_us_floor32 log_usleep
     log_timepoint_calc (log_timepoint_expired expired)
     INPUT_KBD_MATRIX_SCAN_OCURRENCES cfg).
Local Abbreviation thread_turn :=
  (polling_thread_turn (log_api rows) log_busy_wait
     (log_cycle_get_32 cycles) k_cyc_to_us_floor32 log_usleep
     log_timepoint_calc (log_timepoint_expired expired)
     INPUT_KBD_MATRIX_SCAN_OCURRENCES cfg log_wait_poll_lock).

Lemma log_scan_columns n : ∀ a w ns ke,
  (fold_left (scan_column (log_api rows) log_busy_wait cfg) (seq a n)
             (w, ns, ke)).1.1
  = w ++ flat_map (λ col, [ call_drive_column (DRIVE_COLUMN col);
                            call_busy_wait (settle_time_us cfg);
                            call_read_row ]) (seq a n).
Proof.
  induction n as [|n IH]; intros a w ns ke; simpl.
  - now rewrite app_nil_r.
  - rewrite IH. unfold log_busy_wait. now rewrite <- !app_assoc.
Qed.

Lemma log_scan_calls w m : (scan w m).1.1 = w ++ scan_calls cfg.
Proof.
  unfold input_kbd_matrix_scan, scan_calls.
  pose proof (log_scan_columns (col_size cfg) 0 w (matrix_new_state m) 0) as H.
  destruct (fold_left _ _ _) as [[w1 ns] ke]. simpl in *. subst w1.
  now rewrite <- app_assoc.
Qed.

(** X12: whatever the rows read, one scan drives the columns 0 to
    [col_size - 1] in turn, each time waits the settle time and then reads
    the rows once, and ends by driving no column; it makes no other call. *)
Theorem scan_call_sequence w m :
  (scan w m).1.1 = w ++ scan_calls cfg.
Proof. apply log_scan_calls. Qed.

(** A scan cycle: the scan, then the counter read of the update unless
    the ghosting check vetoes it. *)
Lemma log_check_key_events_calls w m :
  ∃ updated : bool,
    (check_key_events w m).1.1.1
    = w ++ scan_calls cfg ++ (if updated then [call_cycle_get_32] else [])
    ∧ (ghostkey_check cfg = false → updated = true).
Proof.
  destruct (check_key_events_cases (log_api rows) log_busy_wait
              (log_cycle_get_32 cycles) k_cyc_to_us_floor32
              INPUT_KBD_MATRIX_SCAN_OCURRENCES cfg w m)
    as [[Hveto ->] | [_ ->]]; simpl.
  - exists false. rewrite app_nil_r. split; [apply log_scan_calls|].
    intros Hoff. rewrite Hoff in Hveto. discriminate.
  - exists true. split; [|reflexivity].
    rewrite app_assoc. f_equal. apply log_scan_calls.
Qed.

Local Abbreviation iteration_ok :=
  (λ it : iteration_log, log_sleep it ≤ poll_period_us cfg
         ∧ (USEC_PER_MSEC ≤ poll_period_us cfg → USEC_PER_MSEC ≤ log_sleep it)
         ∧ (ghostkey_check cfg = false → log_updated it = true)).

(** One iteration of the loop. *)
Lemma log_iteration_calls s :
  match iteration s with
  | inl s' =>
      ∃ updated,
        poll_world s' = poll_world s ++ break_calls cfg updated
        ∧ (ghostkey_check cfg = false → updated = true)
  | inr s' =>
      ∃ it,
        poll_world s' = poll_world s ++ iteration_calls cfg it
        ∧ iteration_ok it
  end.
Proof.
  unfold poll_iteration, poll_decide. simpl.
  destruct (log_check_key_events_calls (poll_world s ++ [call_cycle_get_32])
                                       (poll_matrix s))
    as (updated & Hw & Hupd).
  destruct (check_key_events (poll_world s ++ [call_cycle_get_32])
                             (poll_matrix s))
    as [[[w1 m1] evs] key]. simpl in Hw. subst w1.
  destruct key; simpl.
  - eexists (Build_iteration_log updated true _).
    unfold log_usleep, iteration_calls, cycle_calls. simpl.
    split; [rewrite <- !app_assoc; reflexivity|].
    split; [apply wait_period_le|]. split; [apply wait_period_ge | exact Hupd].
  - destruct (expired _); simpl.
    + exists updated. unfold break_calls, cycle_calls. simpl.
      split; [rewrite <- !app_assoc; reflexivity | exact Hupd].
    + eexists (Build_iteration_log updated false _).
      unfold log_usleep, iteration_calls, cycle_calls. simpl.
      split; [rewrite <- !app_assoc; reflexivity|].
      split; [apply wait_period_le|].
      split; [apply wait_period_ge | exact Hupd].
Qed.

(** The bounded loop returns exactly when one of its iterations breaks. *)
Lemma log_poll_loop_iterations fuel : ∀ s,
  loop fuel s = match iterations fuel s with
                | inl s' => Some s'
                | inr _ => None
                end.
Proof.
  induction fuel as [|fuel IH]; intros s; simpl; [reflexivity|].
  destruct (iteration s) as [s1 | s1]; [reflexivity | apply IH].
Qed.

(** The calls of the first [n] iterations, whether one of them breaks or
    not. *)
Lemma log_poll_iterations_calls n : ∀ s,
  ∃ its updated,
    Forall iteration_ok its
    ∧ (ghostkey_check cfg = false → updated = true)
    ∧ match iterations n s with
      | inl s' =>
          poll_world s'
          = poll_world s
            ++ flat_map (iteration_calls cfg) its ++ break_calls cfg updated
          ∧ (length its < n)%nat
      | inr s' =>
          poll_world s' = poll_world s ++ flat_map (iteration_calls cfg) its
          ∧ length its = n
      end.
Proof.
  induction n as [|n IH]; intros s; simpl.
  { exists [], true. split; [constructor|]. split; [reflexivity|]. simpl.
    now rewrite app_nil_r. }
  pose proof (log_iteration_calls s) as Hit.
  destruct (iteration s) as [s1 | s1].
  - destruct Hit as (updated & Hw & Hupd).
    exists [], updated. split; [constructor|]. split; [assumption|].
    simpl. split; [assumption | lia].
  - destruct Hit as (it & Hw & Hok).
    destruct (IH s1) as (its & updated & Hall & Hupd & Hrun).
    exists (it :: its), updated.
    split; [now constructor|]. split; [assumption|].
    destruct (iterations n s1) as [s' | s']; destruct Hrun as [Hw' Hlen];
      (split; [|simpl; lia]); rewrite Hw', Hw; cbn [flat_map];
      now rewrite <- !app_assoc.
Qed.


Lemma polling_call_scan : Forall (λ c, polling_call c = true) (scan_calls cfg).
Proof.
  unfold scan_calls. apply Forall_app. split; [|now repeat constructor].
  induction (seq 0 (col_size cfg)) as [|col l IH]; simpl;
    [constructor | now repeat constructor].
Qed.

Lemma polling_call_cycle updated :
  Forall (λ c, polling_call c = true) (cycle_calls cfg updated).
Proof.
  unfold cycle_calls. constructor; [reflexivity|].
  apply Forall_app. split; [apply polling_call_scan|].
  destruct updated; now repeat constructor.
Qed.

Lemma polling_call_iterations its :
  Forall (λ c, polling_call c = true) (flat_map (iteration_calls cfg) its).
Proof.
  induction its as [|it its IH]; cbn [flat_map]; [constructor|].
  apply Forall_app. split; [|exact IH].
  unfold iteration_calls. apply Forall_app.
  split; [apply polling_call_cycle|].
  destruct (log_active it); now repeat constructor.
Qed.

(** X14: a turn of the polling thread drives all columns, arms the
    detection, waits for the wake-up and disarms the detection, in this
    order. After that, for any number of iterations of the polling loop,
    it makes the calls of the polling function and no other: it neither
    arms nor disarms the detection, does not wait for a wake-up and does
    not drive all columns before the polling function has returned. *)
Theorem polling_thread_call_sequence fuel w m :
  ∃ rest,
    Forall (λ c, polling_call c = true) rest
    ∧ match iterations fuel
              {| poll_time_end := tt;
                 poll_world := (w ++ thread_prelude)
                               ++ [call_timepoint_calc (poll_timeout_ms cfg)];
                 poll_matrix := m; poll_reports := [] |} with
      | inl s' => thread_turn fuel w m = Some s'
                  ∧ poll fuel (w ++ thread_prelude) m = Some s'
                  ∧ poll_world s' = w ++ thread_prelude ++ rest
      | inr s' => thread_turn fuel w m = None
                  ∧ poll fuel (w ++ thread_prelude) m = None
                  ∧ poll_world s' = w ++ thread_prelude ++ rest
      end.
Proof.
  assert (Hturn : thread_turn fuel w m = poll fuel (w ++ thread_prelude) m).
  { unfold polling_thread_turn. simpl. unfold log_wait_poll_lock.
    now rewrite <- !app_assoc. }
  rewrite Hturn. unfold input_kbd_matrix_poll. simpl.
  rewrite log_poll_loop_iterations.
  destruct (log_poll_iterations_calls fuel
              {| poll_time_end := tt;
                 poll_world := (w ++ thread_prelude)
                               ++ [call_timepoint_calc (poll_timeout_ms cfg)];
                 poll_matrix := m; poll_reports := [] |})
    as (its & updated & _ & _ & Hrun).
  destruct (iterations fuel _) as [s' | s']; destruct Hrun as [Hw Hlen];
    simpl in Hw.
  - exists (poll_calls cfg its updated).
    split.
    + unfold poll_calls, running_calls. apply Forall_app. split.
      * constructor; [reflexivity | apply polling_call_iterations].
      * unfold break_calls. apply Forall_app.
        split; [apply polling_call_cycle | now repeat constructor].
    + rewrite Hw. unfold poll_calls, running_calls.
      rewrite <- !app_assoc. now repeat split.
  - exists (running_calls cfg its).
    split.
    + constructor; [reflexivity | apply polling_call_iterations].
    + rewrite Hw. unfold running_calls. rewrite <- !app_assoc.
      now repeat split.
Qed.

End CallSequence.

(** ** The further properties on the sample boards *)

Lemma sample_changed_wf cfg :
  col_size cfg = 1%nat → kbd_matrix_wf cfg sample_changed.
Proof.
  intros Hcol.
  assert (H0 : uint8_array (col_size cfg) [0])
    by (rewrite Hcol; split; [reflexivity | repeat constructor; lia]).
  assert (H1 : uint8_array (col_size cfg) [1])
    by (rewrite Hcol; split; [reflexivity | repeat constructor; lia]).
  now constructor.
Qed.

(** The first loop on a key that reads pressed for the first time. *)
Lemma first_loop_adopts_snapshot_witness :
  kbd_matrix_wf sample_cfg_1x1 sample_changed
  ∧ matrix_previous_state (gather_changes sample_cfg_1x1 7 sample_changed)
    = [1]
  ∧ row_level
      (matrix_unstable_state (gather_changes sample_cfg_1x1 7 sample_changed)
       !!! 0%nat) 0 = true.
Proof.
  assert (Hwf : kbd_matrix_wf sample_cfg_1x1 sample_changed)
    by now apply sample_changed_wf.
  split; [exact Hwf|].
  destruct (first_loop_adopts_snapshot sample_cfg_1x1 7 sample_changed Hwf)
    as (Hp & Hu & _).
  split; [exact Hp | exact (Hu 0%nat 0%nat)].
Defined.

Lemma first_loop_stamps_changed_keys_witness :
  kbd_matrix_wf sample_cfg_1x1 sample_changed
  ∧ stamps_fit sample_cfg_1x1 sample_changed
  ∧ scan_cycle_idx (gather_changes sample_cfg_1x1 7
                      (set_scan_cycles_idx 5 sample_changed))
    !!! cyc_idx sample_cfg_1x1 0 0 = 5.
Proof.
  assert (Hwf : kbd_matrix_wf sample_cfg_1x1 sample_changed)
    by now apply sample_changed_wf.
  assert (Hfit : stamps_fit sample_cfg_1x1 sample_changed)
    by (split; [simpl; lia | reflexivity]).
  split; [exact Hwf|]. split; [exact Hfit|].
  assert (Hwf' : kbd_matrix_wf sample_cfg_1x1
                   (set_scan_cycles_idx 5 sample_changed))
    by (destruct Hwf; now constructor).
  exact (first_loop_stamps_changed_keys sample_cfg_1x1 7
           (set_scan_cycles_idx 5 sample_changed) 0 0 Hwf' Hfit
           ltac:(simpl; lia) ltac:(simpl; lia)).
Defined.

(** The mark of a key whose window closes released, and pressed. *)
Lemma update_unstable_mark_witness :
  kbd_matrix_wf sample_cfg_1x1 sample_flicker
  ∧ row_level
      (matrix_unstable_state
         (update_state_at (cyc_to_us_floor32 1000000) sample_cfg_1x1 20100
                          sample_flicker).1 !!! 0%nat) 0 = true
  ∧ row_level
      (matrix_unstable_state
         (update_state_at (cyc_to_us_floor32 1000000) sample_cfg_1x1 20100
                          sample_pressed).1 !!! 0%nat) 0 = false.
Proof.
  split; [exact sample_flicker_wf|]. split.
  - exact (update_unstable_mark (cyc_to_us_floor32 1000000) sample_cfg_1x1
             20100 sample_flicker 0 0 sample_flicker_wf
             ltac:(simpl; lia) ltac:(simpl; lia)).
  - exact (update_unstable_mark (cyc_to_us_floor32 1000000) sample_cfg_1x1
             20100 sample_pressed 0 0 sample_pressed_wf
             ltac:(simpl; lia) ltac:(simpl; lia)).
Defined.

Lemma update_leaves_settled_key_witness :
  kbd_matrix_wf sample_cfg_1x1 (kbd_matrix_init 1 1 30)
  ∧ row_level (matrix_unstable_state (kbd_matrix_init 1 1 30) !!! 0%nat) 0
    = false
  ∧ key_changed (kbd_matrix_init 1 1 30) 0 0 = false
  ∧ transitions_for 0 0
      (transitions_of
         (update_state_at (cyc_to_us_floor32 1000000) sample_cfg_1x1 20100
                          (kbd_matrix_init 1 1 30)).2) = [].
Proof.
  assert (Hwf : kbd_matrix_wf sample_cfg_1x1 (kbd_matrix_init 1 1 30))
    by now apply kbd_matrix_init_wf.
  split; [exact Hwf|]. split; [reflexivity|]. split; [reflexivity|].
  destruct (update_leaves_settled_key (cyc_to_us_floor32 1000000)
              sample_cfg_1x1 20100 (kbd_matrix_init 1 1 30) 0 0 Hwf
              ltac:(simpl; lia) ltac:(simpl; lia) eq_refl eq_refl)
    as (Hnone & _).
  exact Hnone.
Defined.

Lemma update_of_steady_matrix_witness :
  (∀ c, (c < col_size sample_cfg_2x2)%nat →
        matrix_new_state (kbd_matrix_init 2 2 30) !!! c
        = matrix_previous_state (kbd_matrix_init 2 2 30) !!! c)
  ∧ (∀ c, (c < col_size sample_cfg_2x2)%nat →
          matrix_unstable_state (kbd_matrix_init 2 2 30) !!! c = 0)
  ∧ (update_state_at (cyc_to_us_floor32 1000000) sample_cfg_2x2 20100
                     (kbd_matrix_init 2 2 30)).2 = [].
Proof.
  assert (Hsame : ∀ c, (c < col_size sample_cfg_2x2)%nat →
        matrix_new_state (kbd_matrix_init 2 2 30) !!! c
        = matrix_previous_state (kbd_matrix_init 2 2 30) !!! c)
    by reflexivity.
  assert (Hclear : ∀ c, (c < col_size sample_cfg_2x2)%nat →
          matrix_unstable_state (kbd_matrix_init 2 2 30) !!! c = 0).
  { intros c Hc. simpl in Hc.
    destruct c as [|[|c]]; [reflexivity | reflexivity | lia]. }
  split; [exact Hsame|]. split; [exact Hclear|].
  now rewrite (update_of_steady_matrix (cyc_to_us_floor32 1000000)
                 sample_cfg_2x2 20100 (kbd_matrix_init 2 2 30) Hsame Hclear).
Defined.

Lemma update_reports_in_loop_order_witness :
  kbd_matrix_wf sample_cfg_1x1 sample_pressed
  ∧ StronglySorted transition_before
      (transitions_of
         (update_state_at (cyc_to_us_floor32 1000000) sample_cfg_1x1 20100
                          sample_pressed).2).
Proof.
  split; [exact sample_pressed_wf|].
  exact (proj1 (update_reports_in_loop_order (cyc_to_us_floor32 1000000)
                  sample_cfg_1x1 20100 sample_pressed sample_pressed_wf)).
Defined.

(** A first press with a zero press threshold is reported in the update
    that sees it. *)
Lemma zero_threshold_confirms_at_once_witness :
  kbd_matrix_wf sample_cfg_zero_down sample_changed
  ∧ transitions_for 0 0
      (transitions_of
         (update_state_at (cyc_to_us_floor32 1000000) sample_cfg_zero_down 7
                          sample_changed).2)
    = [(0, 0, 1)].
Proof.
  assert (Hwf : kbd_matrix_wf sample_cfg_zero_down sample_changed)
    by now apply sample_changed_wf.
  split; [exact Hwf|].
  destruct (zero_threshold_confirms_at_once (cyc_to_us_floor32 1000000)
              sample_cfg_zero_down 7 sample_changed 0 0 Hwf
              ltac:(simpl; lia) ltac:(simpl; lia)) as [Hone _].
  - vm_compute. discriminate.
  - reflexivity.
  - vm_compute. discriminate.
  - exact Hone.
Defined.

Lemma key_index_distinct_up_to_256_witness :
  (col_size sample_cfg_2x2 * row_size sample_cfg_2x2 ≤ 256)%nat
  ∧ cyc_idx sample_cfg_2x2 1 1 = 3%nat.
Proof.
  assert (Hkeys : (col_size sample_cfg_2x2 * row_size sample_cfg_2x2
                   ≤ 256)%nat) by (simpl; lia).
  split; [exact Hkeys|].
  destruct (key_index_distinct_up_to_256 sample_cfg_2x2) as [Hsmall _].
  destruct (Hsmall Hkeys 1%nat 1%nat 0%nat 0%nat) as (Hidx & _);
    simpl; try lia.
  exact Hidx.
Defined.

Lemma cycle_keeps_arrays_well_formed_witness :
  kbd_matrix_wf sample_cfg_2x2 (kbd_matrix_init 2 2 30)
  ∧ 0 < 30
  ∧ kbd_matrix_wf sample_cfg_2x2
      (sim_check_key_events 30 sample_cfg_2x2 (sim_boot [[1; 2]])
                            (kbd_matrix_init 2 2 30)).1.1.2.
Proof.
  assert (Hwf : kbd_matrix_wf sample_cfg_2x2 (kbd_matrix_init 2 2 30))
    by now apply kbd_matrix_init_wf.
  split; [exact Hwf|]. split; [lia|].
  exact (proj1 (cycle_keeps_arrays_well_formed sim_api sim_advance
                  sim_cycle_get_32 (cyc_to_us_floor32 1000000) 30
                  sample_cfg_2x2 (sim_boot [[1; 2]]) (kbd_matrix_init 2 2 30)
                  Hwf ltac:(lia))).
Defined.

(** Four keys of a block are ghosting, and so is any snapshot that has
    them. *)
Lemma ghosting_needs_a_shared_pair_of_rows_witness :
  input_kbd_matrix_ghosting sample_cfg_2x2
    (set_new_state [3; 3] (kbd_matrix_init 2 2 30)) = true
  ∧ input_kbd_matrix_ghosting sample_cfg_2x2
      (set_new_state [7; 3] (kbd_matrix_init 2 2 30)) = true.
Proof.
  assert (Hg : input_kbd_matrix_ghosting sample_cfg_2x2
                 (set_new_state [3; 3] (kbd_matrix_init 2 2 30)) = true)
    by reflexivity.
  split; [exact Hg|].
  destruct (ghosting_needs_a_shared_pair_of_rows sample_cfg_2x2
              (set_new_state [3; 3] (kbd_matrix_init 2 2 30)))
    as (_ & _ & Hgrow).
  apply Hgrow; [|exact Hg].
  intros c r H. destruct c as [|[|c]]; [|exact H | exact H].
  change (row_level (Z.lor 3 4) r = true).
  rewrite row_level_lor. change (row_level 3 r = true) in H. now rewrite H.
Defined.

Lemma held_key_keeps_polling_witness :
  key_always_sensed held_api
  ∧ (0 < col_size sample_cfg_1x1)%nat
  ∧ poll_loop held_api idle_busy_wait idle_cycle_get_32
      (cyc_to_us_floor32 1000000) idle_usleep idle_timepoint_calc
      idle_timepoint_expired 30 sample_cfg_1x1 50 idle_poll_start = None.
Proof.
  assert (Hheld : key_always_sensed held_api)
    by (intros w; simpl; discriminate).
  assert (Hcol : (0 < col_size sample_cfg_1x1)%nat) by (simpl; lia).
  split; [exact Hheld|]. split; [exact Hcol|].
  exact (proj2 (held_key_keeps_polling held_api idle_busy_wait
                  idle_cycle_get_32 (cyc_to_us_floor32 1000000) idle_usleep
                  idle_timepoint_calc idle_timepoint_expired 30
                  sample_cfg_1x1 Hheld Hcol) 50%nat idle_poll_start).
Defined.

(** The elapsed time of a first press seen at 1000050 cycles. *)
Lemma fresh_stamp_elapsed_time_witness :
  kbd_matrix_wf sample_cfg_1x1 (set_scan_cycles_idx 1 sample_changed)
  ∧ stamps_fit sample_cfg_1x1 (set_scan_cycles_idx 1 sample_changed)
  ∧ key_changed (set_scan_cycles_idx 1 sample_changed) 0 0 = true
  ∧ key_debt (cyc_to_us_floor32 1000000) sample_cfg_1x1 1000050
      (gather_changes sample_cfg_1x1 1000050
                      (set_scan_cycles_idx 1 sample_changed)) 0 0
    = 999936.
Proof.
  assert (Hwf : kbd_matrix_wf sample_cfg_1x1
                  (set_scan_cycles_idx 1 sample_changed)).
  { pose proof (sample_changed_wf sample_cfg_1x1 eq_refl) as [H1 H2 H3 H4].
    now constructor. }
  assert (Hfit : stamps_fit sample_cfg_1x1
                   (set_scan_cycles_idx 1 sample_changed))
    by (split; [simpl; lia | reflexivity]).
  split; [exact Hwf|]. split; [exact Hfit|]. split; [reflexivity|].
  exact (fresh_stamp_elapsed_time (cyc_to_us_floor32 1000000) sample_cfg_1x1
           1000050 (set_scan_cycles_idx 1 sample_changed) 0 0 Hwf Hfit
           ltac:(simpl; lia) ltac:(simpl; lia) ltac:(simpl; lia)
           ltac:(simpl; lia) ltac:(lia) eq_refl).
Defined.
